(** * csv2excel: the table model, type inference, merge and concurrent ingestion

    A shallow embedding of [internal/file/file.go] (the [CSV] table, [Read],
    [inferColumnTypes], [ConvertColumnTypes], [Merge], [SaveAsExcel]) and, from
    the commands, of [processFiles], of [createFileList] and of the
    statements that set the path of the workbook, with the properties the
    specification states about them and further properties of the code.

    Conventions.
    - A Go method that mutates its receiver is a function from the old [CSV]
      to the new one.
    - A Go function returning [(v, err)] returns [error + v]: [inl err] when
      [err != nil], [inr v] otherwise.
    - An index expression that is out of range panics in Go; the functions
      that index rows return [option], with [None] for the panic.
    - The Go standard library ([strconv.ParseFloat], [strings.TrimSpace],
      [os.Open], [encoding/csv]) is an interface the development is generic
      in; a reference implementation is given to evaluate concrete inputs. *)

From Stdlib Require Import ZArith String Ascii List Lia SpecFloat DecimalString DecimalNat.
From stdpp Require Import base option list relations.
Import ListNotations.

Local Open Scope string_scope.
Local Open Scope nat_scope.
Local Open Scope list_scope.

(** ** strconv *)

Module strconv.

(** The [Err] field of a [*strconv.NumError]. *)
Inductive NumError := ErrSyntax | ErrRange.

Definition digitVal (c : ascii) : option Z :=
  let n := Z.of_N (N_of_ascii c) in
  if ((48 <=? n) && (n <=? 57))%Z then Some (n - 48)%Z else None.

Fixpoint digits (s : string) (n : Z) : option Z :=
  match s with
  | EmptyString => Some n
  | String c s' =>
      match digitVal c with
      | Some d => digits s' (n * 10 + d)%Z
      | None => None
      end
  end.

Definition maxUint64 : Z := 2 ^ 64 - 1.

(** [strconv.ParseUint(s, 10, 64)]. With base 10 an underscore is a syntax
    error, as is every other byte that is not a decimal digit. On overflow
    the value is [maxUint64] and the error is [ErrRange]. *)
Definition ParseUint (s : string) : Z * option NumError :=
  match s with
  | EmptyString => (0%Z, Some ErrSyntax)
  | _ =>
      match digits s 0 with
      | None => (0%Z, Some ErrSyntax)
      | Some n => if (n <=? maxUint64)%Z then (n, None) else (maxUint64, Some ErrRange)
      end
  end.

(** [strconv.ParseInt(s, 10, 64)], value and error. *)
Definition ParseInt' (s : string) : Z * option NumError :=
  match s with
  | EmptyString => (0%Z, Some ErrSyntax)
  | String c s' =>
      let '(neg, body) :=
        if Ascii.eqb c "+" then (false, s')
        else if Ascii.eqb c "-" then (true, s')
        else (false, s) in
      let '(un, err) := ParseUint body in
      match err with
      | Some ErrSyntax => (0%Z, Some ErrSyntax)
      | _ =>
          let cutoff := (2 ^ 63)%Z in
          if negb neg && (cutoff <=? un)%Z then ((cutoff - 1)%Z, Some ErrRange)
          else if neg && (cutoff <? un)%Z then ((- cutoff)%Z, Some ErrRange)
          else (if neg then (- un)%Z else un, None)
      end
  end.

(** [ParseInt s = Some n] when [strconv.ParseInt(s, 10, 64)] returns [n]
    with [err == nil]. *)
Definition ParseInt (s : string) : option Z :=
  match ParseInt' s with
  | (n, None) => Some n
  | (_, Some _) => None
  end.

(** *** ParseFloat

    A reference model of [strconv.ParseFloat(s, 64)], after [atof.go]: the
    special values, then [readFloat] and the check of underscores, then the
    conversion of the digits read. A float64 is a [spec_float] of precision
    53 and maximal exponent 1024. The digits are accumulated exactly
    ([readFloat] keeps 19 of them and its callers go back to the text when
    some were dropped), and the value is the nearest float64, ties to even,
    which is what the package documents; a value that rounds to an infinity
    is [ErrRange]. *)

Definition byte (c : ascii) : Z := Z.of_N (N_of_ascii c).

(** [lower(c)] is [c | ('x' - 'X')]. *)
Definition lower (c : ascii) : Z := Z.lor (byte c) 32.

Definition isDigit (c : ascii) : bool := ((48 <=? byte c) && (byte c <=? 57))%Z.

Definition isHexLetter (c : ascii) : bool := ((97 <=? lower c) && (lower c <=? 102))%Z.

(** [commonPrefixLenIgnoreCase(s, prefix)], [prefix] in lower case. *)
Fixpoint commonPrefixLenIgnoreCase (s prefix : string) : nat :=
  match s, prefix with
  | String c s', String p prefix' =>
      let c' := if ((65 <=? byte c) && (byte c <=? 90))%Z then (byte c + 32)%Z else byte c in
      if (c' =? byte p)%Z then S (commonPrefixLenIgnoreCase s' prefix') else 0
  | _, _ => 0
  end.

(** [special(s)]: the float, the number of bytes used, and [ok]. *)
Definition special (s : string) : option (spec_float * nat) :=
  let inf (sign : bool) (nsign : nat) (s : string) :=
    let n := commonPrefixLenIgnoreCase s "infinity" in
    let n := if (3 <? n) && (n <? 8) then 3 else n in
    if (n =? 3) || (n =? 8) then Some (S754_infinity sign, nsign + n) else None in
  match s with
  | EmptyString => None
  | String c s' =>
      if Ascii.eqb c "+" then inf false 1 s'
      else if Ascii.eqb c "-" then inf true 1 s'
      else if Ascii.eqb c "i" || Ascii.eqb c "I" then inf false 0 s
      else if Ascii.eqb c "n" || Ascii.eqb c "N" then
        if commonPrefixLenIgnoreCase s "nan" =? 3 then Some (S754_nan, 3) else None
      else None
  end.

(** The state of the digit loop of [readFloat]. *)
Record digitsRead := {
  sawdot : bool;
  sawdigits : bool;
  nd : Z;
  dp : Z;
  mantissa : Z;
  underscores : bool;
}.

(** The loop over the digits; the result is the state and the text at
    which the loop stopped. *)
Fixpoint readDigits (hex : bool) (s : string) (r : digitsRead) : digitsRead * string :=
  match s with
  | EmptyString => (r, s)
  | String c s' =>
      if Ascii.eqb c "_" then
        readDigits hex s'
          {| sawdot := sawdot r; sawdigits := sawdigits r; nd := nd r; dp := dp r;
             mantissa := mantissa r; underscores := true |}
      else if Ascii.eqb c "." then
        if sawdot r then (r, s)
        else readDigits hex s'
          {| sawdot := true; sawdigits := sawdigits r; nd := nd r; dp := nd r;
             mantissa := mantissa r; underscores := underscores r |}
      else if isDigit c then
        if Ascii.eqb c "0" && (nd r =? 0)%Z then
          readDigits hex s'
            {| sawdot := sawdot r; sawdigits := true; nd := nd r; dp := (dp r - 1)%Z;
               mantissa := mantissa r; underscores := underscores r |}
        else
          readDigits hex s'
            {| sawdot := sawdot r; sawdigits := true; nd := (nd r + 1)%Z; dp := dp r;
               mantissa := (mantissa r * (if hex then 16 else 10) + (byte c - 48))%Z;
               underscores := underscores r |}
      else if hex && isHexLetter c then
        readDigits hex s'
          {| sawdot := sawdot r; sawdigits := true; nd := (nd r + 1)%Z; dp := dp r;
             mantissa := (mantissa r * 16 + (lower c - 97 + 10))%Z;
             underscores := underscores r |}
      else (r, s)
  end.

(** The loop over the digits of the exponent: the exponent, whether an
    underscore was seen, and the text at which the loop stopped. *)
Fixpoint readExponent (s : string) (e : Z) (underscores : bool) : Z * bool * string :=
  match s with
  | EmptyString => (e, underscores, s)
  | String c s' =>
      if Ascii.eqb c "_" then readExponent s' e true
      else if isDigit c then
        readExponent s' (if (e <? 10000)%Z then (e * 10 + (byte c - 48))%Z else e) underscores
      else (e, underscores, s)
  end.

(** [underscoreOK(s)], the loop over the number proper: [saw] is the last
    byte seen, as in the source ("0" a digit or base prefix, "_" an
    underscore, "!" neither, "^" the beginning). *)
Fixpoint underscoreLoop (hex : bool) (s : string) (saw : ascii) : bool :=
  match s with
  | EmptyString => negb (Ascii.eqb saw "_")
  | String c s' =>
      if isDigit c || (hex && isHexLetter c) then underscoreLoop hex s' "0"%char
      else if Ascii.eqb c "_" then
        if negb (Ascii.eqb saw "0") then false else underscoreLoop hex s' "_"%char
      else if Ascii.eqb saw "_" then false
      else underscoreLoop hex s' "!"%char
  end.

Definition underscoreOK (s : string) : bool :=
  let s :=
    match s with
    | String c s' => if Ascii.eqb c "-" || Ascii.eqb c "+" then s' else s
    | EmptyString => s
    end in
  match s with
  | String c0 (String c1 s') =>
      if Ascii.eqb c0 "0" && ((lower c1 =? 98) || (lower c1 =? 111) || (lower c1 =? 120))%Z
      then underscoreLoop (lower c1 =? 120)%Z s' "0"%char
      else underscoreLoop false s "^"%char
  | _ => underscoreLoop false s "^"%char
  end.

(** What [readFloat] returns when [ok], for a text it reads to its end:
    the sign, whether the number is hexadecimal, the digits as an integer,
    and the exponent of the base (10, or 2 for a hexadecimal number) that
    scales it. *)
Definition readFloat (s : string) : option (bool * bool * Z * Z) :=
  match s with
  | EmptyString => None
  | String c s' =>
      let '(neg, s1) :=
        if Ascii.eqb c "+" then (false, s')
        else if Ascii.eqb c "-" then (true, s')
        else (false, s) in
      let '(hex, s2) :=
        match s1 with
        | String c0 (String c1 (String c2 s3)) =>
            if Ascii.eqb c0 "0" && (lower c1 =? 120)%Z then (true, String c2 s3) else (false, s1)
        | _ => (false, s1)
        end in
      let '(r, s3) :=
        readDigits hex s2
          {| sawdot := false; sawdigits := false; nd := 0; dp := 0; mantissa := 0;
             underscores := false |} in
      if negb (sawdigits r) then None
      else
        let dp := if sawdot r then dp r else nd r in
        let '(dp, ndMant) := if hex then (dp * 4, nd r * 4)%Z else (dp, nd r) in
        let finish (dp : Z) (underscores : bool) (rest : string) :=
          if underscores && negb (underscoreOK s) then None
          else
            match rest with
            | EmptyString => Some (neg, hex, mantissa r, (dp - ndMant)%Z)
            | _ => None
            end in
        match s3 with
        | String ce s4 =>
            if (lower ce =? (if hex then 112 else 101))%Z then
              match s4 with
              | EmptyString => None
              | String cs s5 =>
                  let '(esign, s6) :=
                    if Ascii.eqb cs "+" then (1%Z, s5)
                    else if Ascii.eqb cs "-" then ((-1)%Z, s5)
                    else (1%Z, s4) in
                  match s6 with
                  | EmptyString => None
                  | String cd _ =>
                      if negb (isDigit cd) then None
                      else
                        let '(e, us, rest) := readExponent s6 0 (underscores r) in
                        finish (dp + e * esign)%Z us rest
                  end
              end
            else if hex then None
            else finish dp (underscores r) s3
        | EmptyString => if hex then None else finish dp (underscores r) s3
        end
  end.

(** The float64 nearest to [m * base ^ e], ties to even; [m] is not
    negative and the sign is [neg]. *)
Definition nearest (neg : bool) (m e : Z) (hex : bool) : spec_float :=
  if (m =? 0)%Z then S754_zero neg
  else if hex then binary_normalize 53 1024 (if neg then - m else m)%Z e neg
  else if (0 <=? e)%Z then binary_normalize 53 1024 ((if neg then - m else m) * 10 ^ e)%Z 0 neg
  else
    let '(q, e', l) := SFdiv_core_binary 53 1024 m 0 (10 ^ (- e))%Z 0 in
    binary_round_aux 53 1024 neg q e' l.

(** [ParseFloat s = Some f] when [strconv.ParseFloat(s, 64)] returns [f]
    with [err == nil]. *)
Definition ParseFloat (s : string) : option spec_float :=
  match special s with
  | Some (f, n) => if n =? String.length s then Some f else None
  | None =>
      match readFloat s with
      | None => None
      | Some (neg, hex, m, e) =>
          match nearest neg m e hex with
          | S754_infinity _ => None
          | f => Some f
          end
      end
  end.

End strconv.

(** A [rune] is an [int32]. *)
Definition rune := Z.

(** What [file.go] uses of [strconv.ParseFloat(s, 64)]: the type of 64-bit
    floats and the result when [err == nil]. *)
Class Strconv := {
  float64 : Type;
  ParseFloat : string -> option float64;
}.

(** What [Read] uses of the operating system and of [encoding/csv]:
    [os_Open path] is the error of [os.Open] or the contents of the file, and
    [csv_ReadAll comma contents] is the error of the reader's [ReadAll] or
    the records it returns. *)
Class Sources := {
  os_Open : string -> string + string;
  csv_ReadAll : rune -> string -> string + list (list string);
}.

(** What [processFiles] uses of [strings]: [strings.TrimSpace]. *)
Class Strings := {
  TrimSpace : string -> string;
}.

(** [strings.HasSuffix(s, suffix)] is
    [len(s) >= len(suffix) && s[len(s)-len(suffix):] == suffix]. *)
Definition HasSuffix (s suffix : string) : bool :=
  (String.length suffix <=? String.length s)
  && String.eqb (substring (String.length s - String.length suffix) (String.length suffix) s) suffix.

(** ** The table model *)

Definition defaultTypeInferanceRows : nat := 20.

Inductive ColumnType := StringType | FloatType | IntegerType.

Record Column := { Name : string; Type' : ColumnType }.

(** The errors of the package, named as in the specification; each carries
    what the Go error message is formatted from. *)
#[warnings="-register-all"]
Inductive error :=
| EmptyFilePath
| SourceUnavailable (err : string)
| MalformedRecord (err : string)
| EmptySource (filePath : string)
| NoInputTables
| SchemaMismatch (filePath first : string)
| InvalidInputFormat
| AggregatedReadError (errors : list error)
| NoValidSources.

(** [foldlM f b l] runs the body [f] of a [for] loop over [l], threading
    the state [b]; a panic in the body ends the loop. *)
Fixpoint foldlM {A B} (f : B -> A -> option B) (b : B) (l : list A) : option B :=
  match l with
  | [] => Some b
  | a :: l' => b' ← f b a; foldlM f b' l'
  end.

Section Table.
Context `{Strconv}.

(** A cell is an [interface{}]; the values stored in it are the text read
    by [Read] and what [ConvertColumnTypes] puts in its place. *)
Inductive value :=
| VString (s : string)
| VFloat64 (f : float64)
| VInt64 (n : Z).

Record CSV := {
  FilePath : string;
  Delimiter : rune;
  Headers : list Column;
  Records : list (list value);
}.

Definition setFilePath (filePath : string) (c : CSV) : CSV :=
  {| FilePath := filePath; Delimiter := Delimiter c; Headers := Headers c; Records := Records c |}.

Definition setDelimiter (delimiter : rune) (c : CSV) : CSV :=
  {| FilePath := FilePath c; Delimiter := delimiter; Headers := Headers c; Records := Records c |}.

Definition setHeaders (columns : list Column) (c : CSV) : CSV :=
  {| FilePath := FilePath c; Delimiter := Delimiter c; Headers := columns; Records := Records c |}.

Definition setRecords (records : list (list value)) (c : CSV) : CSV :=
  {| FilePath := FilePath c; Delimiter := Delimiter c; Headers := Headers c; Records := records |}.

(** [&CSV{}] *)
Definition zeroCSV : CSV :=
  {| FilePath := ""; Delimiter := 0%Z; Headers := []; Records := [] |}.

Definition New (options : list (CSV -> CSV)) : CSV :=
  foldl (fun csv option => option csv) zeroCSV options.

Definition WithFilePath (filePath : string) : CSV -> CSV := setFilePath filePath.
Definition WithDelimiter (delimiter : rune) : CSV -> CSV := setDelimiter delimiter.
Definition WithHeaders (columns : list Column) : CSV -> CSV := setHeaders columns.
Definition WithRecords (records : list (list value)) : CSV -> CSV := setRecords records.

(** *** Read *)

Definition headerColumn (column : string) : Column :=
  {| Name := column; Type' := StringType |}.

Definition Read `{Sources} (c : CSV) : error + CSV :=
  if String.eqb (FilePath c) "" then inl EmptyFilePath
  else
    match os_Open (FilePath c) with
    | inl err => inl (SourceUnavailable err)
    | inr file =>
        match csv_ReadAll (Delimiter c) file with
        | inl err => inl (MalformedRecord err)
        | inr records =>
            match records with
            | [] => inl (EmptySource (FilePath c))
            | header :: rest =>
                let c1 := setHeaders (Headers c ++ map headerColumn header) c in
                inr (if 1 <? length records
                     then setRecords (map (map VString) rest) c1
                     else c1)
            end
        end
    end.

(** *** inferColumnTypes *)

Definition setType (t : ColumnType) (column : Column) : Column :=
  {| Name := Name column; Type' := t |}.

(** The body of the loop over the sampled records, for column [i]. *)
Definition countCell (i : nat) (counts : nat * nat) (record : list value)
  : option (nat * nat) :=
  let '(floatCount, intCount) := counts in
  v ← record !! i;
  match v with
  | VString stringValue =>
      match ParseFloat stringValue with
      | Some _ => Some (S floatCount, intCount)
      | None =>
          match strconv.ParseInt stringValue with
          | Some _ => Some (floatCount, S intCount)
          | None => Some (floatCount, intCount)
          end
      end
  | _ => Some (floatCount, intCount)
  end.

(** The body of the loop over the columns. *)
Definition inferColumn (sample : list (list value)) (rangeToCheck : nat)
  (headers : list Column) (i : nat) : option (list Column) :=
  '(floatCount, intCount) ← foldlM (countCell i) (0, 0) sample;
  Some (if floatCount =? rangeToCheck then alter (setType FloatType) i headers
        else if intCount =? rangeToCheck then alter (setType IntegerType) i headers
        else headers).

Definition inferColumnTypes (c : CSV) : option CSV :=
  let rangeToCheck := min defaultTypeInferanceRows (length (Records c)) in
  headers ← foldlM (inferColumn (take rangeToCheck (Records c)) rangeToCheck)
                   (Headers c) (seq 0 (length (Headers c)));
  Some (setHeaders headers c).

(** *** ConvertColumnTypes *)

(** The body of the loop over the columns, for one record. *)
Definition convertCell (headers : list Column) (record : list value) (i : nat)
  : option (list value) :=
  v ← record !! i;
  match v with
  | VString stringValue =>
      match Type' <$> headers !! i with
      | Some FloatType =>
          match ParseFloat stringValue with
          | Some parsedValue => Some (<[i := VFloat64 parsedValue]> record)
          | None => Some record
          end
      | Some IntegerType =>
          match strconv.ParseInt stringValue with
          | Some parsedValue => Some (<[i := VInt64 parsedValue]> record)
          | None => Some record
          end
      | _ => Some record
      end
  | _ => Some record
  end.

Definition convertRecord (headers : list Column) (record : list value)
  : option (list value) :=
  foldlM (convertCell headers) record (seq 0 (length headers)).

Definition ConvertColumnTypes (c : CSV) : option CSV :=
  c1 ← inferColumnTypes c;
  records ← mapM (convertRecord (Headers c1)) (Records c1);
  Some (setRecords records c1).

(** *** GetHeaderNames and Merge *)

Definition GetHeaderNames (c : CSV) : list string := map Name (Headers c).

Definition Merge (files : list CSV) : error + CSV :=
  match files with
  | [] => inl NoInputTables
  | first :: rest =>
      let columnCount := length (Headers first) in
      match find (fun file => negb (columnCount =? length (Headers file))) rest with
      | Some file => inl (SchemaMismatch (FilePath file) (FilePath first))
      | None =>
          let mergedFiles := foldl (fun merged file => merged ++ Records file) [] files in
          inr (New [WithHeaders (Headers first);
                    WithDelimiter (Delimiter first);
                    WithRecords mergedFiles])
      end
  end.

(** *** Notions the properties are stated with *)

Definition sameColumnCount (first file : CSV) : Prop :=
  length (Headers file) = length (Headers first).

Definition columnCounts (files : list CSV) : list nat :=
  map (fun file => length (Headers file)) files.

(** The cells of column [i] in [records], when every record has one. *)
Definition cells (i : nat) (records : list (list value)) : option (list value) :=
  mapM (fun record => record !! i) records.

(** A cell adds to [floatCount] when it is text that [ParseFloat] accepts,
    and to [intCount] when it is text that [ParseFloat] rejects and
    [ParseInt] accepts. *)
Definition countsAsFloat (v : value) : bool :=
  match v with
  | VString s => match ParseFloat s with Some _ => true | None => false end
  | _ => false
  end.

Definition countsAsInt (v : value) : bool :=
  match v with
  | VString s =>
      match ParseFloat s, strconv.ParseInt s with
      | None, Some _ => true
      | _, _ => false
      end
  | _ => false
  end.

Fixpoint count {A} (p : A -> bool) (l : list A) : nat :=
  match l with
  | [] => 0
  | x :: l' => (if p x then 1 else 0) + count p l'
  end.

(** The column [column] after the decision taken on [floatCount] and
    [intCount]. *)
Definition decided (rangeToCheck floatCount intCount : nat) (column : Column) : Column :=
  if floatCount =? rangeToCheck then setType FloatType column
  else if intCount =? rangeToCheck then setType IntegerType column
  else column.

(** Column [i] after [inferColumnTypes] has looked at the records [sample],
    when each of them has a cell for it. *)
Definition inferred (sample : list (list value)) (rangeToCheck : nat) (i : nat)
  (column : Column) : option Column :=
  cs ← cells i sample;
  Some (decided rangeToCheck (count countsAsFloat cs) (count countsAsInt cs) column).

(** What [ConvertColumnTypes] leaves in a cell of a column of type [t]. *)
Definition converted (t : ColumnType) (v : value) : value :=
  match v, t with
  | VString s, FloatType =>
      match ParseFloat s with Some f => VFloat64 f | None => v end
  | VString s, IntegerType =>
      match strconv.ParseInt s with Some n => VInt64 n | None => v end
  | _, _ => v
  end.

Definition convertedAt (headers : list Column) (i : nat) (v : value) : value :=
  match headers !! i with
  | Some column => converted (Type' column) v
  | None => v
  end.

(** The number of records [inferColumnTypes] looks at, and these records. *)
Definition rangeToCheck (c : CSV) : nat :=
  min defaultTypeInferanceRows (length (Records c)).

Definition sample (c : CSV) : list (list value) := take (rangeToCheck c) (Records c).

(** Every record has a cell for every column. *)
Definition rowsCoverColumns (c : CSV) : Prop :=
  Forall (fun record => length (Headers c) <= length record) (Records c).

(** Every record has exactly one cell for every column. *)
Definition rectangular (c : CSV) : Prop :=
  Forall (fun record => length record = length (Headers c)) (Records c).

(** The type assertion [v.(string)]: the text of a cell that holds text. *)
Definition asString (v : value) : option string :=
  match v with
  | VString s => Some s
  | _ => None
  end.

(** The dynamic type of the cell [v] is the one a column of type [t]
    stands for. *)
Definition hasType (t : ColumnType) (v : value) : Prop :=
  match t, v with
  | StringType, VString _ | FloatType, VFloat64 _ | IntegerType, VInt64 _ => True
  | _, _ => False
  end.

End Table.

(** ** processFiles

    [processFiles] starts one goroutine per path, each sending one
    [processResult] on an unbuffered channel; a further goroutine closes the
    channel once the wait group is down to zero, and the calling goroutine
    receives until then. The goroutines run in any interleaving, so the
    function is a transition system: a configuration holds the state of the
    calling goroutine, of every worker, and of the channel, together with a
    trace of what has been done. *)

Section ProcessFiles.
Context `{Strconv, Sources, Strings}.

(** A [processResult] is built as [processResult{err: err}] or as
    [processResult{file: f}]. *)
Inductive processResult :=
| resultErr (err : error)
| resultFile (file : CSV).

(** A worker goroutine, with the [filePath] it was started with: before
    [f.Read()] has returned, blocked on [resultChannel <- result], or past
    the send and its deferred [wg.Done()]. *)
Inductive worker :=
| Reading (filePath : string)
| Sending (filePath : string) (result : processResult)
| Done (filePath : string).

(** The calling goroutine: in the loop over [filePaths], in the loop over
    [resultChannel] with the [errors] and [files] collected so far, or
    returned. *)
Inductive caller :=
| Spawning (filePaths : list string)
| Receiving (errors : list error) (files : list CSV)
| Returned (r : error + CSV).

Inductive event :=
| Started (filePath : string)
| ReadCalled (filePath : string)
| Received (result : processResult)
| MergeCalled (files : list CSV).

Record config := {
  main : caller;
  workers : list worker;
  closed : bool;
  trace : list event;
}.

(** The body of a worker up to its send. *)
Definition work (delimiter : rune) (filePath : string) : processResult :=
  let f := New [WithFilePath filePath; WithDelimiter delimiter] in
  match Read f with
  | inl err => resultErr err
  | inr f' => resultFile f'
  end.

(** The body of the loop over [resultChannel]. *)
Definition collect (errors : list error) (files : list CSV) (result : processResult)
  : caller :=
  match result with
  | resultErr err => Receiving (errors ++ [err]) files
  | resultFile file => Receiving errors (files ++ [file])
  end.

(** What follows the loop over [resultChannel]: the value returned and
    whether [file.Merge] is called for it. *)
Definition conclude (errors : list error) (files : list CSV) : (error + CSV) * list event :=
  if 0 <? length errors then (inl (AggregatedReadError errors), [])
  else if length files =? 0 then (inl NoValidSources, [])
  else (Merge files, [MergeCalled files]).

Definition isDone (w : worker) : bool :=
  match w with Done _ => true | _ => false end.

(** The steps of the goroutines.
    - [step_invalid], [step_go]: one turn of the loop over [filePaths]. The
      path is trimmed and checked; a path without the suffix makes the
      function return at once, whatever goroutines are running; otherwise
      [wg.Add(1)] and the [go] statement start a worker for the trimmed path.
    - [step_range]: the loop is over; the goroutine that waits and closes is
      started and the calling goroutine enters the loop over the channel.
    - [step_read]: a worker returns from [f.Read()] and has its result to
      send. It moves whatever the calling goroutine is doing.
    - [step_receive]: the channel is unbuffered, so a send and the receive
      of the calling goroutine happen together; the worker goes on to its
      deferred [wg.Done()], the calling goroutine appends to [errors] or to
      [files].
    - [step_close]: every worker being done, [wg.Wait()] returns and the
      channel is closed.
    - [step_return]: the loop over the closed channel ends and the function
      returns what [conclude] says. *)
Inductive step (delimiter : rune) : config -> config -> Prop :=
| step_invalid filePath rest ws cl tr :
    HasSuffix (TrimSpace filePath) ".csv" = false ->
    step delimiter
      {| main := Spawning (filePath :: rest); workers := ws; closed := cl; trace := tr |}
      {| main := Returned (inl InvalidInputFormat); workers := ws; closed := cl; trace := tr |}
| step_go filePath rest ws cl tr :
    HasSuffix (TrimSpace filePath) ".csv" = true ->
    step delimiter
      {| main := Spawning (filePath :: rest); workers := ws; closed := cl; trace := tr |}
      {| main := Spawning rest; workers := ws ++ [Reading (TrimSpace filePath)];
         closed := cl; trace := tr ++ [Started (TrimSpace filePath)] |}
| step_range ws cl tr :
    step delimiter
      {| main := Spawning []; workers := ws; closed := cl; trace := tr |}
      {| main := Receiving [] []; workers := ws; closed := cl; trace := tr |}
| step_read m ws1 filePath ws2 cl tr :
    step delimiter
      {| main := m; workers := ws1 ++ Reading filePath :: ws2; closed := cl; trace := tr |}
      {| main := m; workers := ws1 ++ Sending filePath (work delimiter filePath) :: ws2;
         closed := cl; trace := tr ++ [ReadCalled filePath] |}
| step_receive errors files ws1 filePath result ws2 tr :
    step delimiter
      {| main := Receiving errors files; workers := ws1 ++ Sending filePath result :: ws2;
         closed := false; trace := tr |}
      {| main := collect errors files result; workers := ws1 ++ Done filePath :: ws2;
         closed := false; trace := tr ++ [Received result] |}
| step_close errors files ws tr :
    forallb isDone ws = true ->
    step delimiter
      {| main := Receiving errors files; workers := ws; closed := false; trace := tr |}
      {| main := Receiving errors files; workers := ws; closed := true; trace := tr |}
| step_return errors files ws tr :
    step delimiter
      {| main := Receiving errors files; workers := ws; closed := true; trace := tr |}
      {| main := Returned (conclude errors files).1; workers := ws; closed := true;
         trace := tr ++ (conclude errors files).2 |}.

(** The call [processFiles(filePaths, delimiter)]. *)
Definition processFiles (filePaths : list string) : config :=
  {| main := Spawning filePaths; workers := []; closed := false; trace := [] |}.

(** [runs delimiter filePaths cfg]: the call has reached [cfg]. *)
Definition runs (delimiter : rune) (filePaths : list string) (cfg : config) : Prop :=
  rtc (step delimiter) (processFiles filePaths) cfg.

(** *** Running under a schedule

    A schedule names, step by step, the goroutine that moves: the calling
    goroutine with its next statement, worker [i] returning from [Read],
    the calling goroutine receiving what worker [i] sends, or the goroutine
    that closes the channel. [exec] is the step the schedule asks for, if
    the configuration allows it. *)

Inductive action :=
| Proceed
| ReturnFromRead (i : nat)
| ReceiveFrom (i : nat)
| Close.

Definition exec (delimiter : rune) (a : action) (cfg : config) : option config :=
  match a with
  | Proceed =>
      match main cfg with
      | Spawning (filePath :: rest) =>
          if HasSuffix (TrimSpace filePath) ".csv" then
            Some {| main := Spawning rest;
                    workers := workers cfg ++ [Reading (TrimSpace filePath)];
                    closed := closed cfg;
                    trace := trace cfg ++ [Started (TrimSpace filePath)] |}
          else
            Some {| main := Returned (inl InvalidInputFormat); workers := workers cfg;
                    closed := closed cfg; trace := trace cfg |}
      | Spawning [] =>
          Some {| main := Receiving [] []; workers := workers cfg;
                  closed := closed cfg; trace := trace cfg |}
      | Receiving errors files =>
          if closed cfg then
            Some {| main := Returned (conclude errors files).1; workers := workers cfg;
                    closed := true; trace := trace cfg ++ (conclude errors files).2 |}
          else None
      | Returned _ => None
      end
  | ReturnFromRead i =>
      match workers cfg !! i with
      | Some (Reading filePath) =>
          Some {| main := main cfg;
                  workers := <[i := Sending filePath (work delimiter filePath)]> (workers cfg);
                  closed := closed cfg;
                  trace := trace cfg ++ [ReadCalled filePath] |}
      | _ => None
      end
  | ReceiveFrom i =>
      match main cfg, closed cfg, workers cfg !! i with
      | Receiving errors files, false, Some (Sending filePath result) =>
          Some {| main := collect errors files result;
                  workers := <[i := Done filePath]> (workers cfg);
                  closed := false;
                  trace := trace cfg ++ [Received result] |}
      | _, _, _ => None
      end
  | Close =>
      match main cfg, closed cfg with
      | Receiving errors files, false =>
          if forallb isDone (workers cfg) then
            Some {| main := main cfg; workers := workers cfg; closed := true;
                    trace := trace cfg |}
          else None
      | _, _ => None
      end
  end.

Definition schedule (delimiter : rune) (filePaths : list string) (actions : list action)
  : option config :=
  foldlM (fun cfg a => exec delimiter a cfg) (processFiles filePaths) actions.

(** *** Notions the properties are stated with *)

(** The check made on a path before its goroutine is started. *)
Definition validPath (filePath : string) : bool :=
  HasSuffix (TrimSpace filePath) ".csv".

Definition pathOf (w : worker) : string :=
  match w with
  | Reading filePath | Sending filePath _ | Done filePath => filePath
  end.

Definition donePaths (ws : list worker) : list string :=
  omap (fun w => match w with Done filePath => Some filePath | _ => None end) ws.

(** What a trace says: the paths goroutines were started with, the paths
    [Read] was called on, the results received, the calls of [Merge]. *)
Definition started (tr : list event) : list string :=
  omap (fun e => match e with Started filePath => Some filePath | _ => None end) tr.

Definition readCalls (tr : list event) : list string :=
  omap (fun e => match e with ReadCalled filePath => Some filePath | _ => None end) tr.

Definition received (tr : list event) : list processResult :=
  omap (fun e => match e with Received result => Some result | _ => None end) tr.

Definition mergeCalls (tr : list event) : list (list CSV) :=
  omap (fun e => match e with MergeCalled files => Some files | _ => None end) tr.

Definition errorsOf (results : list processResult) : list error :=
  omap (fun result => match result with resultErr err => Some err | _ => None end) results.

Definition filesOf (results : list processResult) : list CSV :=
  omap (fun result => match result with resultFile file => Some file | _ => None end) results.

(** What every worker does with its path, in the order of [filePaths]. *)
Definition outcomes (delimiter : rune) (filePaths : list string) : list processResult :=
  map (fun filePath => work delimiter (TrimSpace filePath)) filePaths.

Definition hasReturned (cfg : config) : Prop :=
  exists r, main cfg = Returned r.

(** A bound on the number of steps a configuration can still take. *)
Definition workerSteps (w : worker) : nat :=
  match w with
  | Reading _ => 2
  | Sending _ _ => 1
  | Done _ => 0
  end.

Definition stepsLeft (cfg : config) : nat :=
  match main cfg with
  | Spawning filePaths => 3 * length filePaths + 3
  | Receiving _ _ => if closed cfg then 1 else 2
  | Returned _ => 0
  end
  + sum_list_with workerSteps (workers cfg).

(** What holds of every configuration [processFiles(filePaths, delimiter)]
    reaches. *)
Definition sound (delimiter : rune) (w : worker) : Prop :=
  match w with
  | Sending filePath result => result = work delimiter filePath
  | _ => True
  end.

Definition reached (delimiter : rune) (filePaths : list string) (cfg : config) : Prop :=
  Forall (sound delimiter) (workers cfg)
  /\ started (trace cfg) = map pathOf (workers cfg)
  /\ received (trace cfg) ≡ₚ map (work delimiter) (donePaths (workers cfg))
  /\ match main cfg with
     | Spawning rest =>
         exists before,
           filePaths = before ++ rest
           /\ forallb validPath before = true
           /\ map pathOf (workers cfg) = map TrimSpace before
           /\ received (trace cfg) = []
           /\ mergeCalls (trace cfg) = []
           /\ closed cfg = false
     | Receiving errors files =>
         forallb validPath filePaths = true
         /\ map pathOf (workers cfg) = map TrimSpace filePaths
         /\ errors = errorsOf (received (trace cfg))
         /\ files = filesOf (received (trace cfg))
         /\ mergeCalls (trace cfg) = []
         /\ (closed cfg = true -> forallb isDone (workers cfg) = true)
     | Returned r =>
         (exists before filePath rest,
            filePaths = before ++ filePath :: rest
            /\ forallb validPath before = true
            /\ validPath filePath = false
            /\ r = inl InvalidInputFormat
            /\ map pathOf (workers cfg) = map TrimSpace before
            /\ received (trace cfg) = []
            /\ mergeCalls (trace cfg) = [])
         \/ (forallb validPath filePaths = true
             /\ map pathOf (workers cfg) = map TrimSpace filePaths
             /\ forallb isDone (workers cfg) = true
             /\ r = (conclude (errorsOf (received (trace cfg)))
                              (filesOf (received (trace cfg)))).1
             /\ mergeCalls (trace cfg)
                = mergeCalls (conclude (errorsOf (received (trace cfg)))
                                       (filesOf (received (trace cfg)))).2)
     end.

(** The paths of the workers that have returned from [f.Read()]. *)
Definition readPaths (ws : list worker) : list string :=
  omap (fun w => match w with
                 | Reading _ => None
                 | Sending filePath _ | Done filePath => Some filePath
                 end) ws.

Definition isInvalidInputFormat (r : error + CSV) : bool :=
  match r with
  | inl InvalidInputFormat => true
  | _ => false
  end.

(** What holds besides of every configuration the call reaches: [Read]
    has been called once for every worker that is past it, and the channel
    is closed when the call has returned after its loop over the channel,
    and only then. *)
Definition accounted (cfg : config) : Prop :=
  readCalls (trace cfg) ≡ₚ readPaths (workers cfg)
  /\ match main cfg with
     | Spawning _ => closed cfg = false
     | Receiving _ _ => True
     | Returned r => closed cfg = negb (isInvalidInputFormat r)
     end.

(** Two results of a call are alike: both are tables with the same
    delimiter, as many columns and the same records up to their order, or
    both are errors of the same kind, the errors of an [AggregatedReadError]
    being the same up to their order and the paths of a [SchemaMismatch]
    being any. *)
Definition sameOutcome (r1 r2 : error + CSV) : Prop :=
  match r1, r2 with
  | inr file1, inr file2 =>
      Delimiter file1 = Delimiter file2
      /\ length (Headers file1) = length (Headers file2)
      /\ Records file1 ≡ₚ Records file2
  | inl (AggregatedReadError errors1), inl (AggregatedReadError errors2) =>
      errors1 ≡ₚ errors2
  | inl (SchemaMismatch _ _), inl (SchemaMismatch _ _) => True
  | inl err1, inl err2 => err1 = err2
  | _, _ => False
  end.

End ProcessFiles.

(** ** createFileList *)

Module os.

(** What [createFileList] asks of an [os.DirEntry]. *)
Record DirEntry := { Name : string; IsDir : bool }.

End os.

(** What [createFileList] and [Run] use of the operating system and of
    [path/filepath]: [os_ReadDir name] is the error of [os.ReadDir] or the
    entries of the directory, in the order in which it returns them;
    [filepath_Join] is [filepath.Join] of two elements and [filepath_Dir] is
    [filepath.Dir]. *)
Class Folders := {
  os_ReadDir : string -> string + list os.DirEntry;
  filepath_Join : string -> string -> string;
  filepath_Dir : string -> string;
}.

(** The error of [os.ReadDir] is returned as it is; it is an error of the
    file system, as the one [Read] has from [os.Open]. *)
Definition createFileList `{Folders} (folderPath : string) : error + list string :=
  match os_ReadDir folderPath with
  | inl err => inl (SourceUnavailable err)
  | inr entries =>
      inr (foldl (fun files entry =>
                    if negb (os.IsDir entry) && HasSuffix (os.Name entry) ".csv"
                    then files ++ [filepath_Join folderPath (os.Name entry)]
                    else files)
                 [] entries)
  end.

(** The test [createFileList] makes on an entry. *)
Definition isCSVFile (entry : os.DirEntry) : bool :=
  negb (os.IsDir entry) && HasSuffix (os.Name entry) ".csv".

(** ** The path of the workbook *)

(** The loop of [strings.Replace(s, old, new, n)] for an [old] that is not
    empty: [n] times at most, the first occurrence of [old] in what is left
    of [s], which [strings.Index] finds, is replaced by [new]. *)
Fixpoint replaceLoop (n : nat) (s old new : string) : string :=
  match n with
  | 0 => s
  | S n' =>
      match index 0 old s with
      | None => s
      | Some j =>
          (substring 0 j s ++ new
           ++ replaceLoop n'
                (substring (j + String.length old)
                           (String.length s - (j + String.length old)) s)
                old new)%string
      end
  end.

(** [strings.Replace(s, old, new, n)] for an [old] that is not empty; a
    negative [n] sets no limit on the number of replacements. *)
Definition strings_Replace (s old new : string) (n : Z) : string :=
  if String.eqb old new || (n =? 0)%Z then s
  else replaceLoop (if (n <? 0)%Z then S (String.length s) else Z.to_nat n) s old new.

(** The statements of [Run] that set [outputFile], the same in both
    commands: from the flags [--output] and [--name] and from [inputFile]. *)
Definition outputPath `{Folders} (inputFile outputFile outputName : string) : string :=
  let outputFile :=
    if String.eqb outputFile "" && String.eqb outputName ""
    then strings_Replace inputFile ".csv" ".xlsx" 1
    else outputFile in
  if negb (String.eqb outputName "")
  then filepath_Join (filepath_Dir inputFile) (outputName ++ ".xlsx")%string
  else outputFile.

(** ** SaveAsExcel

    [SaveAsExcel] builds a workbook with the calls of [excelize] and saves
    it. The library is an interface: an [excelize_File] is the state of an
    [*excelize.File], and a method returns the state it leaves with the error
    it returns, [None] for [nil]. *)

(** [fmt.Sprintf("A%d", n)], for an [n] that is not negative. *)
Definition Sprintf_A (n : nat) : string :=
  "A" ++ NilEmpty.string_of_uint (Nat.to_uint n).

Arguments Sprintf_A : simpl never.

Section SaveAsExcel.
Context `{Strconv}.

(** What [SetSheetRow] is given a pointer to: the names of the columns, a
    [[]string], or a record, a [[]interface{}]. *)
Inductive slice :=
| StringSlice (names : list string)
| InterfaceSlice (record : list value).

Class Excelize := {
  excelize_File : Type;
  excelize_NewFile : excelize_File;
  excelize_SetSheetRow :
    excelize_File -> string -> string -> slice -> excelize_File * option string;
  excelize_SaveAs : excelize_File -> string -> excelize_File * option string;
  excelize_Close : excelize_File -> excelize_File * option string;
}.

(** The loop over [c.Records], from index [i] on. The error of
    [SetSheetRow] is not looked at. *)
Fixpoint setRows `{Excelize} (sheetName : string) (i : nat) (records : list (list value))
  (f : excelize_File) : excelize_File :=
  match records with
  | [] => f
  | record :: records' =>
      let row := Sprintf_A (i + 2) in
      setRows sheetName (S i) records'
        (excelize_SetSheetRow f sheetName row (InterfaceSlice record)).1
  end.

(** The file as the deferred [f.Close()] leaves it, and the error
    returned; what the deferred function returns is lost. *)
Definition SaveAsExcel `{Excelize} (c : CSV) (filePath sheetName : string)
  : excelize_File * option string :=
  let f := excelize_NewFile in
  let sheetName := if String.eqb sheetName "" then "Sheet1" else sheetName in
  let headerNames := GetHeaderNames c in
  let f := (excelize_SetSheetRow f sheetName "A1" (StringSlice headerNames)).1 in
  let f := setRows sheetName 0 (Records c) f in
  let '(f, err) := excelize_SaveAs f filePath in
  ((excelize_Close f).1, err).

(** The calls made on a file, to tell what [SaveAsExcel] does with the
    library. *)
Inductive call :=
| CallSetSheetRow (sheet cell : string) (values : slice)
| CallSaveAs (name : string)
| CallClose.

Definition cellsSet (calls : list call) : list string :=
  omap (fun c => match c with CallSetSheetRow _ cell _ => Some cell | _ => None end) calls.

End SaveAsExcel.

(** ** Reference implementations of the interfaces *)

Definition goStrconv : Strconv :=
  {| float64 := spec_float; ParseFloat := strconv.ParseFloat |}.

(** *** strings.TrimSpace

    [TrimSpace] removes the leading and the trailing white space, as
    [unicode.IsSpace] defines it, of a string holding UTF-8. A rune read
    forwards or backwards is white space exactly when the bytes read are the
    encoding of a white space code point, which is how this model reads
    them. *)

Module strings.

(** The number of bytes of the white space rune that begins [s], or 0:
    U+0009 to U+000D, U+0020, U+0085, U+00A0, U+1680, U+2000 to U+200A,
    U+2028, U+2029, U+202F, U+205F, U+3000. *)
Definition spaceWidth (s : list Z) : nat :=
  match s with
  | b0 :: s1 =>
      if ((9 <=? b0) && (b0 <=? 13) || (b0 =? 32))%Z then 1
      else
        match s1 with
        | b1 :: s2 =>
            if ((b0 =? 194) && ((b1 =? 133) || (b1 =? 160)))%Z then 2
            else
              match s2 with
              | b2 :: _ =>
                  if ((b0 =? 225) && (b1 =? 154) && (b2 =? 128)
                      || (b0 =? 226) && (b1 =? 128)
                         && ((128 <=? b2) && (b2 <=? 138) || (b2 =? 168) || (b2 =? 169)
                             || (b2 =? 175))
                      || (b0 =? 226) && (b1 =? 129) && (b2 =? 159)
                      || (b0 =? 227) && (b1 =? 128) && (b2 =? 128))%Z
                  then 3 else 0
              | [] => 0
              end
        | [] => 0
        end
  | [] => 0
  end.

(** The number of bytes of the white space rune that ends the string whose
    reversal is [r], or 0. *)
Definition lastSpaceWidth (r : list Z) : nat :=
  match r with
  | b0 :: r1 =>
      if spaceWidth [b0] =? 1 then 1
      else
        match r1 with
        | b1 :: r2 =>
            if spaceWidth [b1; b0] =? 2 then 2
            else
              match r2 with
              | b2 :: _ => if spaceWidth [b2; b1; b0] =? 3 then 3 else 0
              | [] => 0
              end
        | [] => 0
        end
  | [] => 0
  end.

(** [trim width n s] drops white space runes from the front of [s] as long
    as [width] finds one; [n] bounds the number of runes dropped. *)
Fixpoint trim (width : list Z -> nat) (n : nat) (s : list Z) : list Z :=
  match n with
  | 0 => s
  | S n' =>
      match width s with
      | 0 => s
      | w => trim width n' (drop w s)
      end
  end.

Definition bytes (s : string) : list Z :=
  map (fun c => Z.of_N (N_of_ascii c)) (list_ascii_of_string s).

Definition ofBytes (l : list Z) : string :=
  string_of_list_ascii (map (fun b => ascii_of_N (Z.to_N b)) l).

Definition TrimSpace (s : string) : string :=
  let left := trim spaceWidth (String.length s) (bytes s) in
  ofBytes (rev (trim lastSpaceWidth (String.length s) (rev left))).

End strings.

Definition goStrings : Strings := {| TrimSpace := strings.TrimSpace |}.

(** The bytes of [".csv"]. *)
Definition csvBytes : list Z := [46; 99; 115; 118]%Z.

(** *** A reader and a file system for the examples

    [csv.ReadAll] reads text the way [encoding/csv] does when the text has
    no double quote and no carriage return and [Comma] is an ASCII
    character: records end at a line feed, empty lines are skipped, fields
    are separated by [Comma], and every record has as many fields as the
    first. Other texts are outside this reader and are reported as errors. *)

Module csv.

Fixpoint split (sep : ascii) (s : string) : list string :=
  match s with
  | EmptyString => [EmptyString]
  | String c s' =>
      if Ascii.eqb c sep then EmptyString :: split sep s'
      else
        match split sep s' with
        | field :: fields => String c field :: fields
        | [] => [String c EmptyString]
        end
  end.

Fixpoint contains (c : ascii) (s : string) : bool :=
  match s with
  | EmptyString => false
  | String c' s' => Ascii.eqb c c' || contains c s'
  end.

Definition lineFeed : ascii := ascii_of_nat 10.
Definition carriageReturn : ascii := ascii_of_nat 13.
Definition quote : ascii := ascii_of_nat 34.

Definition validDelim (comma : Z) : bool :=
  ((0 <? comma) && (comma <? 128) && negb (comma =? 34) && negb (comma =? 13)
   && negb (comma =? 10))%Z.

Definition ReadAll (comma : Z) (text : string) : string + list (list string) :=
  if negb (validDelim comma) then inl "csv: invalid field or comment delimiter"
  else if contains quote text || contains carriageReturn text then inl "csv: outside the reader"
  else
    let lines := filter (fun line => negb (String.eqb line "")) (split lineFeed text) in
    let records := map (split (ascii_of_N (Z.to_N comma))) lines in
    match records with
    | [] => inr []
    | first :: rest =>
        if forallb (fun record => length record =? length first) rest then inr records
        else inl "csv: wrong number of fields"
    end.

End csv.

Module example.

Definition files : list (string * string) :=
  [ ("a.csv", "h1,h2
1,2");
    ("b.csv", "h1,h2
3,4");
    ("ab.csv", "a,b
1,2
3,4");
    ("header.csv", "name,age
");
    ("empty.csv", "");
    ("wide.csv", "x,y,z
7,8,9") ].

Fixpoint contents (path : string) (fs : list (string * string)) : option string :=
  match fs with
  | [] => None
  | (name, text) :: fs' => if String.eqb name path then Some text else contents path fs'
  end.

Definition Open (path : string) : string + string :=
  match contents path files with
  | Some text => inr text
  | None => inl ("open " ++ path ++ ": no such file or directory")%string
  end.

Definition comma : rune := 44%Z.

End example.

Definition exampleSources : Sources :=
  {| os_Open := example.Open; csv_ReadAll := csv.ReadAll |}.

(** *** A library that records the calls

    A file is the list of the calls made on it; [SetSheetRow], [SaveAs] and
    [Close] answer with the errors [rowError], [saveError] and [closeError]
    give. *)

Definition recorder `{Strconv} (rowError : string -> string -> option string)
  (saveError : string -> option string) (closeError : option string) : Excelize :=
  {| excelize_File := list call;
     excelize_NewFile := [];
     excelize_SetSheetRow f sheet cell values :=
       (f ++ [CallSetSheetRow sheet cell values], rowError sheet cell);
     excelize_SaveAs f name := (f ++ [CallSaveAs name], saveError name);
     excelize_Close f := (f ++ [CallClose], closeError) |}.

(** *** A folder for the examples *)

Module folder.

Definition entries : list os.DirEntry :=
  [ {| os.Name := "a.csv"; os.IsDir := false |};
    {| os.Name := "archive.csv"; os.IsDir := true |};
    {| os.Name := "b.csv"; os.IsDir := false |};
    {| os.Name := "notes.txt"; os.IsDir := false |} ].

Definition ReadDir (name : string) : string + list os.DirEntry :=
  if String.eqb name "data" then inr entries
  else inl ("open " ++ name ++ ": no such file or directory")%string.

(** [filepath.Join] of a directory and the name of an entry, both without
    separator at their ends and without [.] and [..] elements. *)
Definition Join (dir name : string) : string := (dir ++ "/" ++ name)%string.

(** [filepath.Dir] of the name of a file, without separator. *)
Definition Dir (name : string) : string := ".".

End folder.

Definition exampleFolders : Folders :=
  {| os_ReadDir := folder.ReadDir; filepath_Join := folder.Join;
     filepath_Dir := folder.Dir |}.

(** The tables of the examples, with the reference [strconv]. *)

Definition column (name : string) (t : ColumnType) : Column :=
  {| Name := name; Type' := t |}.

Definition table (filePath : string) (headers : list Column)
  (records : list (list (@value goStrconv))) : @CSV goStrconv :=
  {| FilePath := filePath; Delimiter := example.comma; Headers := headers;
     Records := records |}.

(** [a.csv] and [b.csv] as [Read] leaves them. *)
Definition tableA : @CSV goStrconv :=
  table "a.csv" [column "h1" StringType; column "h2" StringType]
        [[VString "1"; VString "2"]].

Definition tableB : @CSV goStrconv :=
  table "b.csv" [column "h1" StringType; column "h2" StringType]
        [[VString "3"; VString "4"]].

(** [tableA] after a second [Read] of [a.csv]. *)
Definition tableAA : @CSV goStrconv :=
  table "a.csv" [column "h1" StringType; column "h2" StringType;
                 column "h1" StringType; column "h2" StringType]
        [[VString "1"; VString "2"]].

(** [header.csv] as [Read] leaves it: two columns and no row. *)
Definition tableHeader : @CSV goStrconv :=
  table "header.csv" [column "name" StringType; column "age" StringType] [].

(** The table of the case "Infer types for all integers" of
    [Test_CSV_InferColumnTypes]. *)
Definition tableIntegers : @CSV goStrconv :=
  {| FilePath := ""; Delimiter := 0%Z;
     Headers := [column "Column1" StringType; column "Column2" StringType];
     Records := [[VString "123"; VString "456"]; [VString "789"; VString "101112"]] |}.

(** What [Merge] makes of [files] that have the columns [h1] and [h2]. *)
Definition merged (files : list (@CSV goStrconv)) : @CSV goStrconv :=
  {| FilePath := ""; Delimiter := example.comma;
     Headers := [column "h1" StringType; column "h2" StringType];
     Records := concat (map Records files) |}.

(** The table of the case "Mixed conversion" of
    [Test_CSV_ConvertColumnTypes]. *)
Definition tableMixed : @CSV goStrconv :=
  {| FilePath := ""; Delimiter := 0%Z;
     Headers := [column "Column1" FloatType; column "Column2" IntegerType;
                 column "Column3" StringType];
     Records := [[VString "1.23"; VString "invalid"; VString "text"];
                 [VString "invalid"; VString "789"; VString "more text"]] |}.

(** [tableMixed] after [ConvertColumnTypes]: 1.23 is 5539427541665710 / 2^52. *)
Definition tableMixedConverted : @CSV goStrconv :=
  {| FilePath := ""; Delimiter := 0%Z;
     Headers := [column "Column1" FloatType; column "Column2" IntegerType;
                 column "Column3" StringType];
     Records := [[@VFloat64 goStrconv (S754_finite false 5539427541665710 (-52));
                  VString "invalid"; VString "text"];
                 [VString "invalid"; VInt64 789; VString "more text"]] |}.

(** [wide.csv] as [Read] leaves it. *)
Definition tableWide : @CSV goStrconv :=
  table "wide.csv" [column "x" StringType; column "y" StringType; column "z" StringType]
        [[VString "7"; VString "8"; VString "9"]].

(** [tableIntegers] after [inferColumnTypes]. *)
Definition tableIntegersInferred : @CSV goStrconv :=
  {| FilePath := ""; Delimiter := 0%Z;
     Headers := [column "Column1" FloatType; column "Column2" FloatType];
     Records := Records tableIntegers |}.

(** [tableIntegers] after [ConvertColumnTypes]: 123 is 8655355533852672 /
    2^46, and so on. *)
Definition tableIntegersConverted : @CSV goStrconv :=
  {| FilePath := ""; Delimiter := 0%Z;
     Headers := [column "Column1" FloatType; column "Column2" FloatType];
     Records := [[@VFloat64 goStrconv (S754_finite false 8655355533852672 (-46));
                  @VFloat64 goStrconv (S754_finite false 8022036836253696 (-44))];
                 [@VFloat64 goStrconv (S754_finite false 6940117394522112 (-43));
                  @VFloat64 goStrconv (S754_finite false 6948363731730432 (-36))]] |}.

(** The configurations some schedules end in, with the reference
    implementations and the files of the examples. *)

Section ExampleRuns.
#[local] Existing Instance goStrconv.
#[local] Existing Instance goStrings.
#[local] Existing Instance exampleSources.

(** [processFiles(["a.csv "], ',')], run to its end. *)
Definition scheduleTrimmed : list action :=
  [Proceed; Proceed; ReturnFromRead 0; ReceiveFrom 0; Close; Proceed].

Definition finalTrimmed : config :=
  {| main := Returned (inr (merged [tableA]));
     workers := [Done "a.csv"];
     closed := true;
     trace := [Started "a.csv"; ReadCalled "a.csv"; Received (resultFile tableA);
               MergeCalled [tableA]] |}.

(** [processFiles(["a.csv", "b.txt"], ',')], where the worker for [a.csv]
    returns from [Read] before the calling goroutine looks at [b.txt]. *)
Definition scheduleInvalid : list action := [Proceed; ReturnFromRead 0; Proceed].

Definition finalInvalid : config :=
  {| main := Returned (inl InvalidInputFormat);
     workers := [Sending "a.csv" (resultFile tableA)];
     closed := false;
     trace := [Started "a.csv"; ReadCalled "a.csv"] |}.

(** [processFiles(["a.csv", "b.csv"], ',')], where the worker for [b.csv]
    is the first to return from [Read] and to send. *)
Definition scheduleReversed : list action :=
  [Proceed; Proceed; Proceed; ReturnFromRead 1; ReceiveFrom 1;
   ReturnFromRead 0; ReceiveFrom 0; Close; Proceed].

Definition finalReversed : config :=
  {| main := Returned (inr (merged [tableB; tableA]));
     workers := [Done "a.csv"; Done "b.csv"];
     closed := true;
     trace := [Started "a.csv"; Started "b.csv";
               ReadCalled "b.csv"; Received (resultFile tableB);
               ReadCalled "a.csv"; Received (resultFile tableA);
               MergeCalled [tableB; tableA]] |}.

(** [processFiles(["a.csv", "none.csv", "empty.csv"], ',')]: there is no
    file [none.csv], and [empty.csv] has no record. *)
Definition scheduleErrors : list action :=
  [Proceed; Proceed; Proceed; Proceed; ReturnFromRead 2; ReceiveFrom 2;
   ReturnFromRead 0; ReceiveFrom 0; ReturnFromRead 1; ReceiveFrom 1; Close; Proceed].

Definition errorNone : error :=
  SourceUnavailable "open none.csv: no such file or directory".

Definition finalErrors : config :=
  {| main := Returned (inl (AggregatedReadError [EmptySource "empty.csv"; errorNone]));
     workers := [Done "a.csv"; Done "none.csv"; Done "empty.csv"];
     closed := true;
     trace := [Started "a.csv"; Started "none.csv"; Started "empty.csv";
               ReadCalled "empty.csv"; Received (resultErr (EmptySource "empty.csv"));
               ReadCalled "a.csv"; Received (resultFile tableA);
               ReadCalled "none.csv"; Received (resultErr errorNone)] |}.



(** [processFiles(["a.csv", "b.csv"], ',')], where the workers read and
    send in the order of the paths. *)
Definition scheduleOrdered : list action :=
  [Proceed; Proceed; Proceed; ReturnFromRead 0; ReceiveFrom 0;
   ReturnFromRead 1; ReceiveFrom 1; Close; Proceed].

Definition finalOrdered : config :=
  {| main := Returned (inr (merged [tableA; tableB]));
     workers := [Done "a.csv"; Done "b.csv"];
     closed := true;
     trace := [Started "a.csv"; Started "b.csv";
               ReadCalled "a.csv"; Received (resultFile tableA);
               ReadCalled "b.csv"; Received (resultFile tableB);
               MergeCalled [tableA; tableB]] |}.

(** [processFiles(["a.csv", "wide.csv"], ',')]: [wide.csv] has three
    columns. *)
Definition scheduleMismatch : list action :=
  [Proceed; Proceed; Proceed; ReturnFromRead 0; ReceiveFrom 0;
   ReturnFromRead 1; ReceiveFrom 1; Close; Proceed].

Definition finalMismatch : config :=
  {| main := Returned (inl (SchemaMismatch "wide.csv" "a.csv"));
     workers := [Done "a.csv"; Done "wide.csv"];
     closed := true;
     trace := [Started "a.csv"; Started "wide.csv";
               ReadCalled "a.csv"; Received (resultFile tableA);
               ReadCalled "wide.csv"; Received (resultFile tableWide);
               MergeCalled [tableA; tableWide]] |}.

End ExampleRuns.

(** * Properties *)

(** ** Merge *)

Section MergeProperties.
Context `{Strconv}.

Lemma foldl_append_Records (files : list CSV) (merged : list (list value)) :
  foldl (fun merged file => merged ++ Records file) merged files
  = merged ++ concat (map Records files).
Proof.
  revert merged. induction files as [|file files IH]; intros merged; simpl.
  - by rewrite app_nil_r.
  - by rewrite IH, app_assoc.
Qed.

Lemma find_mismatch_None (first : CSV) (rest : list CSV) :
  find (fun file => negb (length (Headers first) =? length (Headers file))) rest = None
  <-> Forall (sameColumnCount first) rest.
Proof.
  unfold sameColumnCount. induction rest as [|file rest IH]; simpl.
  - split; [constructor | done].
  - destruct (Nat.eqb_spec (length (Headers first)) (length (Headers file))) as [Heq|Hne]; simpl.
    + rewrite IH. split.
      * intros HF. by constructor.
      * by inversion 1.
    + split; [done|]. inversion 1; congruence.
Qed.

Lemma Merge_inr (files : list CSV) (first : CSV) :
  head files = Some first ->
  Forall (sameColumnCount first) files ->
  Merge files = inr {| FilePath := ""; Delimiter := Delimiter first;
                       Headers := Headers first;
                       Records := concat (map Records files) |}.
Proof.
  destruct files as [|first' rest]; [done|]. intros [= ->] HF.
  apply Forall_cons in HF as [_ HF]. unfold Merge.
  apply find_mismatch_None in HF. rewrite HF.
  by rewrite foldl_append_Records.
Qed.

Lemma Merge_inl (files : list CSV) (e : error) :
  Merge files = inl e <->
  (files = [] /\ e = NoInputTables)
  \/ exists first rest file,
       files = first :: rest
       /\ find (fun file => negb (length (Headers first) =? length (Headers file))) rest
          = Some file
       /\ e = SchemaMismatch (FilePath file) (FilePath first).
Proof.
  destruct files as [|first rest]; simpl.
  - split; [intros [= <-]; by left | intros [[_ ->]|(?&?&?&?&_)]; done].
  - destruct (find _ rest) as [file|] eqn:Hfind.
    + split.
      * intros [= <-]. right. by exists first, rest, file.
      * intros [[? _]|(first'&rest'&file'&[= <- <-]&Hf&->)]; [done|].
        rewrite Hfind in Hf. by injection Hf as ->.
    + split; [done|]. intros [[? _]|(first'&rest'&file'&[= <- <-]&Hf&_)]; [done|].
      by rewrite Hfind in Hf.
Qed.

Lemma Merge_fails_iff (files : list CSV) :
  (exists e, Merge files = inl e) <->
  files = [] \/ exists first, head files = Some first
                              /\ Exists (fun file => ~ sameColumnCount first file) files.
Proof.
  destruct files as [|first rest].
  - split; [by left | intros _; by exists NoInputTables].
  - destruct (find (fun file => negb (length (Headers first) =? length (Headers file))) rest)
      as [file|] eqn:Hfind.
    + split.
      * intros _. right. exists first. split; [done|].
        apply Exists_cons_tl, Exists_exists.
        apply find_some in Hfind as [Hin Hne]. exists file.
        split; [by apply list_elem_of_In|].
        unfold sameColumnCount. intros Heq. rewrite Heq, Nat.eqb_refl in Hne. done.
      * intros _. exists (SchemaMismatch (FilePath file) (FilePath first)).
        simpl. by rewrite Hfind.
    + apply find_mismatch_None in Hfind as HF.
      rewrite (Merge_inr (first :: rest) first); [|done|by constructor].
      split; [by intros [? ?]|]. intros [?|(first'&[= <-]&HE)]; [done|].
      apply Exists_cons in HE as [HE|HE]; [by destruct HE|].
      apply Exists_exists in HE as (file&Hin&Hne).
      rewrite Forall_forall in HF. destruct Hne. by apply HF.
Qed.

Lemma Merge_fails_columnCounts (files : list CSV) :
  (exists e, Merge files = inl e) <->
  match columnCounts files with
  | [] => True
  | columnCount :: counts => Exists (fun n => n <> columnCount) counts
  end.
Proof.
  rewrite Merge_fails_iff. destruct files as [|first rest]; simpl.
  - split; [done | by left].
  - unfold sameColumnCount, columnCounts. rewrite Exists_fmap. split.
    + intros [?|(first'&[= <-]&HE)]; [done|].
      apply Exists_cons in HE as [HE|HE]; [by destruct HE | done].
    + intros HE. right. exists first. split; [done|]. by apply Exists_cons_tl.
Qed.

(** C7: merging a non-empty sequence of tables that all have as many
    columns as the first succeeds; the result has the columns and the
    delimiter of the first table, and its rows are the rows of the tables,
    table after table in the order given, each table's rows in their order
    and as they are (nothing dropped, nothing changed). *)
Theorem Merge_concatenates_rows (files : list CSV) (first : CSV) :
  head files = Some first ->
  Forall (fun file => length (Headers file) = length (Headers first)) files ->
  exists merged,
    Merge files = inr merged
    /\ Headers merged = Headers first
    /\ Delimiter merged = Delimiter first
    /\ Records merged = concat (map Records files).
Proof.
  intros Hhead HF. eexists. split; [by apply Merge_inr|done].
Qed.

(** C8: [Merge] fails exactly when it is given no table, with
    [NoInputTables], or when some table has not as many columns as the
    first, with [SchemaMismatch]; there is no other failure, whether it fails
    depends on the numbers of columns alone (not on their names or types),
    and a failure returns an error in place of a table. *)
Theorem Merge_fails_exactly (files : list CSV) :
  (Merge files = inl NoInputTables <-> files = [])
  /\ ((exists filePath first, Merge files = inl (SchemaMismatch filePath first)) <->
      exists first, head files = Some first
                    /\ Exists (fun file => length (Headers file) <> length (Headers first)) files)
  /\ (forall e, Merge files = inl e ->
        e = NoInputTables \/ exists filePath first, e = SchemaMismatch filePath first)
  /\ (forall files', columnCounts files' = columnCounts files ->
        (exists e, Merge files' = inl e) <-> (exists e, Merge files = inl e)).
Proof.
  split; [|split; [|split]].
  - rewrite Merge_inl. split.
    + intros [[-> _]|(?&?&?&_&_&?)]; done.
    + intros ->. by left.
  - split.
    + intros (filePath&first'&HM).
      assert (exists e, Merge files = inl e) as Hfail by eauto.
      apply Merge_fails_iff in Hfail as [->|Hfail]; [done | exact Hfail].
    + intros Hex.
      assert (exists e, Merge files = inl e) as [e He] by (apply Merge_fails_iff; by right).
      apply Merge_inl in He as He'. destruct He' as [[-> _]|(first&rest&file&_&_&->)].
      * by destruct Hex as (?&?&_).
      * eauto.
  - intros e He. apply Merge_inl in He as [[_ ->]|(first&rest&file&_&_&->)]; eauto.
  - intros files' Hcounts. by rewrite !Merge_fails_columnCounts, Hcounts.
Qed.

Lemma Merge_inr_inv (files : list CSV) (merged : CSV) :
  Merge files = inr merged ->
  exists first,
    head files = Some first
    /\ Forall (sameColumnCount first) files
    /\ merged = {| FilePath := ""; Delimiter := Delimiter first;
                   Headers := Headers first;
                   Records := concat (map Records files) |}.
Proof.
  destruct files as [|first rest]; [done|]. intros HM. exists first.
  assert (Forall (sameColumnCount first) (first :: rest)) as HF.
  { constructor; [done|]. apply find_mismatch_None.
    simpl in HM. by destruct (find _ rest). }
  rewrite (Merge_inr _ first) in HM by done. by injection HM as <-.
Qed.

Lemma find_mismatch_Some (first : CSV) (before : list CSV) (file : CSV) (after : list CSV) :
  Forall (fun table => length (Headers table) = length (Headers first)) before ->
  length (Headers file) <> length (Headers first) ->
  find (fun table => negb (length (Headers first) =? length (Headers table)))
       (before ++ file :: after) = Some file.
Proof.
  intros Hbefore Hfile. induction Hbefore as [|table before Htable _ IH]; simpl.
  - destruct (Nat.eqb_spec (length (Headers first)) (length (Headers file))); [lia | done].
  - rewrite Htable, Nat.eqb_refl. exact IH.
Qed.

(** X1: the mismatch [Merge] reports is the first one. When the tables
    before [file] have as many columns as the first table and [file] has
    not, the error names [file] and the first table, whatever comes after
    [file]. *)
Theorem Merge_reports_first_mismatch (first : CSV) (before : list CSV) (file : CSV)
  (after : list CSV) :
  Forall (fun table => length (Headers table) = length (Headers first)) before ->
  length (Headers file) <> length (Headers first) ->
  Merge (first :: before ++ file :: after)
  = inl (SchemaMismatch (FilePath file) (FilePath first)).
Proof.
  intros Hbefore Hfile. cbn [Merge]. by rewrite find_mismatch_Some.
Qed.

Lemma Merge_rectangular (files : list CSV) (merged : CSV) :
  Forall rectangular files -> Merge files = inr merged -> rectangular merged.
Proof.
  intros Hfiles (first&_&Hcounts&->)%Merge_inr_inv. unfold rectangular. simpl.
  apply Forall_concat, Forall_fmap, Forall_forall. intros file Hin.
  rewrite Forall_forall in Hfiles, Hcounts.
  specialize (Hfiles file Hin). specialize (Hcounts file Hin).
  unfold rectangular, sameColumnCount in *. simpl.
  eapply Forall_impl; [exact Hfiles|]. simpl. intros record ->. done.
Qed.

(** X2: [Merge] keeps the invariant of a table. In the table [Merge]
    returns each record has exactly one cell per column when this is so in
    every table given, and only then. *)
Theorem Merge_keeps_rectangular (files : list CSV) (merged : CSV) :
  Merge files = inr merged -> rectangular merged <-> Forall rectangular files.
Proof.
  intros HM. split; [|intros Hfiles; by apply Merge_rectangular with files].
  apply Merge_inr_inv in HM as (first&_&Hcounts&->). unfold rectangular. simpl.
  intros Hmerged. apply Forall_forall. intros file Hin.
  rewrite Forall_forall in Hcounts. rewrite (Hcounts file Hin).
  apply Forall_forall. intros record Hrecord.
  rewrite Forall_forall in Hmerged. apply Hmerged.
  apply list_elem_of_In, in_concat. exists (Records file).
  split; [apply in_map; by apply list_elem_of_In | by apply list_elem_of_In].
Qed.

(** X3: merging in two stages. When [files1] and [files2] merge into
    [merged1] and [merged2], merging the two results succeeds exactly when
    merging [files1 ++ files2] does, with the same table; and merging a
    table [Merge] has returned, alone, returns it. *)
Theorem Merge_of_merges (files1 files2 : list CSV) (merged1 merged2 : CSV) :
  Merge files1 = inr merged1 -> Merge files2 = inr merged2 ->
  (forall merged, Merge (files1 ++ files2) = inr merged
                  <-> Merge [merged1; merged2] = inr merged)
  /\ Merge [merged1] = inr merged1.
Proof.
  intros (first1&Hhead1&Hcounts1&->)%Merge_inr_inv
         (first2&Hhead2&Hcounts2&->)%Merge_inr_inv.
  destruct files1 as [|first1' rest1]; [done|]. injection Hhead1 as ->.
  split; [|reflexivity].
  intros merged. unfold sameColumnCount in *.
  destruct (decide (length (Headers first2) = length (Headers first1))) as [Heq|Hne].
  - rewrite (Merge_inr ((first1 :: rest1) ++ files2) first1); [|done|].
    + cbn. rewrite Heq, Nat.eqb_refl. cbn. by rewrite map_app, concat_app, app_assoc.
    + apply Forall_app. split; [done|]. eapply Forall_impl; [exact Hcounts2|].
      unfold sameColumnCount. simpl. congruence.
  - destruct files2 as [|first2' rest2]; [done|]. injection Hhead2 as ->.
    replace ((first1 :: rest1) ++ first2 :: rest2)
      with (first1 :: rest1 ++ first2 :: rest2) by done.
    cbn [Merge]. rewrite find_mismatch_Some; [|by apply Forall_cons in Hcounts1 as [_ ?]|done].
    cbn. destruct (Nat.eqb_spec (length (Headers first1)) (length (Headers first2)));
      [congruence | done].
Qed.

End MergeProperties.

(** ** Read *)

Section ReadProperties.
Context `{Strconv, Sources}.

Lemma Read_inr (c c' : CSV) :
  Read c = inr c' <->
  FilePath c <> ""
  /\ exists file header rest,
       os_Open (FilePath c) = inr file
       /\ csv_ReadAll (Delimiter c) file = inr (header :: rest)
       /\ c' = {| FilePath := FilePath c; Delimiter := Delimiter c;
                  Headers := Headers c ++ map headerColumn header;
                  Records := match rest with
                             | [] => Records c
                             | _ => map (map VString) rest
                             end |}.
Proof.
  unfold Read. destruct (String.eqb_spec (FilePath c) "") as [Hempty|Hpath].
  { split; [done | by intros [? _]]. }
  destruct (os_Open (FilePath c)) as [err|file].
  { split; [done | by intros (_&?&?&?&?&_)]. }
  destruct (csv_ReadAll (Delimiter c) file) as [err|[|header rest]] eqn:Hall.
  - split; [done|]. intros (_&file'&?&?&[= <-]&Hall'&_). congruence.
  - split; [done|]. intros (_&file'&?&?&[= <-]&Hall'&_). congruence.
  - split.
    + intros [= <-]. split; [done|]. exists file, header, rest.
      split; [done|]. split; [done|]. by destruct rest.
    + intros (_&file'&?&?&[= <-]&Hall'&->).
      rewrite Hall in Hall'. injection Hall' as <- <-. by destruct rest.
Qed.

Lemma Read_EmptySource (c : CSV) (file : string) (records : list (list string)) :
  FilePath c <> "" ->
  os_Open (FilePath c) = inr file ->
  csv_ReadAll (Delimiter c) file = inr records ->
  (exists e, Read c = inl e) <-> records = [].
Proof.
  intros Hpath Hopen Hall. unfold Read.
  destruct (String.eqb_spec (FilePath c) ""); [done|].
  rewrite Hopen, Hall. destruct records as [|header rest].
  - split; [done | eauto].
  - split; [by intros [? ?] | done].
Qed.

(** C9: a source that can be read and holds exactly one record is read
    with success into a table that holds nothing yet: the columns are named
    by the fields of that record, in order, each of type String, and there
    are no rows. A readable source is rejected exactly when it holds no
    record at all, and then as empty. *)
Theorem Read_header_only (c : CSV) (file : string) :
  FilePath c <> "" -> Headers c = [] -> Records c = [] ->
  os_Open (FilePath c) = inr file ->
  (forall header, csv_ReadAll (Delimiter c) file = inr [header] ->
     exists c',
       Read c = inr c'
       /\ map Name (Headers c') = header
       /\ Forall (fun column => Type' column = StringType) (Headers c')
       /\ Records c' = [])
  /\ (forall records, csv_ReadAll (Delimiter c) file = inr records ->
        (exists e, Read c = inl e) <-> records = [])
  /\ (csv_ReadAll (Delimiter c) file = inr [] -> Read c = inl (EmptySource (FilePath c))).
Proof.
  intros Hpath Hheaders Hrecords Hopen. split; [|split].
  - intros header Hall. eexists. split.
    + apply Read_inr. split; [done|]. exists file, header, []. by repeat split.
    + simpl. rewrite Hheaders, Hrecords. simpl. split; [|split; [|done]].
      * rewrite map_map. simpl. apply map_id.
      * apply Forall_fmap. by apply Forall_true.
  - intros records Hall. by apply (Read_EmptySource _ file).
  - intros Hall. unfold Read.
    destruct (String.eqb_spec (FilePath c) ""); [done|]. by rewrite Hopen, Hall.
Qed.

(** C10: [Read] appends the columns of the file to the [Headers] the value
    already has: after a successful [Read] the [Headers] are the old ones
    followed by one String column per field of the first record, and a
    second [Read] of the result succeeds as well and holds the columns of
    the file twice. *)
Theorem Read_appends_Headers (c c' : CSV) :
  Read c = inr c' ->
  exists file header rest,
    os_Open (FilePath c) = inr file
    /\ csv_ReadAll (Delimiter c) file = inr (header :: rest)
    /\ Headers c' = Headers c ++ map headerColumn header
    /\ exists c'', Read c' = inr c''
         /\ Headers c'' = Headers c ++ map headerColumn header ++ map headerColumn header.
Proof.
  intros HR. apply Read_inr in HR as (Hpath&file&header&rest&Hopen&Hall&->).
  exists file, header, rest. repeat split; [done..|].
  eexists. split.
  - apply Read_inr. split; [done|]. exists file, header, rest. by repeat split.
  - simpl. by rewrite <-app_assoc.
Qed.

Local Ltac read_case :=
  intros; split; intros;
  repeat match goal with
         | H : _ /\ _ |- _ => destruct H
         | H : ex _ |- _ => destruct H
         end;
  simplify_eq; try congruence; eauto 10.

Local Ltac read_cases :=
  split; [read_case|split; [read_case|split; [read_case|split; [read_case|]]]].

(** X4: the failures of [Read]. There are four, tried in this order: an
    empty [FilePath], whatever the file system holds; the error of
    [os.Open]; the error of the reader's [ReadAll]; a source without any
    record. [Read] returns no other error. *)
Theorem Read_fails_exactly (c : CSV) :
  (Read c = inl EmptyFilePath <-> FilePath c = "")
  /\ (forall err, Read c = inl (SourceUnavailable err) <->
        FilePath c <> "" /\ os_Open (FilePath c) = inl err)
  /\ (forall err, Read c = inl (MalformedRecord err) <->
        FilePath c <> ""
        /\ exists file, os_Open (FilePath c) = inr file
                        /\ csv_ReadAll (Delimiter c) file = inl err)
  /\ (forall filePath, Read c = inl (EmptySource filePath) <->
        filePath = FilePath c /\ FilePath c <> ""
        /\ exists file, os_Open (FilePath c) = inr file
                        /\ csv_ReadAll (Delimiter c) file = inr [])
  /\ (forall e, Read c = inl e ->
        e = EmptyFilePath \/ (exists err, e = SourceUnavailable err)
        \/ (exists err, e = MalformedRecord err) \/ e = EmptySource (FilePath c)).
Proof.
  unfold Read. destruct (String.eqb_spec (FilePath c) "") as [Hempty|Hpath].
  { read_cases. intros e He. simplify_eq. by left. }
  destruct (os_Open (FilePath c)) as [err|file].
  { read_cases. intros e He. simplify_eq. right. left. by exists err. }
  destruct (csv_ReadAll (Delimiter c) file) as [err|[|header rest]] eqn:Hall.
  - read_cases. intros e He. simplify_eq. right. right. left. by exists err.
  - read_cases. intros e He. simplify_eq. by do 3 right.
  - read_cases. done.
Qed.

(** X5: what a successful [Read] leaves in the table. [FilePath] and
    [Delimiter] are kept, and the names of the columns are the old ones
    followed by the fields of the first record. The records are not
    appended to: when the source has records after the first, the table holds
    these, as text and with the cells they have, in place of the rows it
    held; when the source has the first record only, the rows the table held
    stay. *)
Theorem Read_replaces_Records (c c' : CSV) :
  Read c = inr c' ->
  exists file header rest,
    os_Open (FilePath c) = inr file
    /\ csv_ReadAll (Delimiter c) file = inr (header :: rest)
    /\ FilePath c' = FilePath c /\ Delimiter c' = Delimiter c
    /\ GetHeaderNames c' = GetHeaderNames c ++ header
    /\ (rest <> [] -> Records c' = map (map VString) rest)
    /\ (rest = [] -> Records c' = Records c).
Proof.
  intros (Hpath&file&header&rest&Hopen&Hall&->)%Read_inr.
  exists file, header, rest. unfold GetHeaderNames. simpl. split_and!; try done.
  - rewrite map_app, map_map. simpl. by rewrite map_id.
  - by destruct rest.
  - by intros ->.
Qed.

(** X6: reading loses nothing. After a successful [Read] into a table
    that held no column and no row, every cell is text, and the names of the
    columns followed by the texts of the rows are the records the reader
    returned, in order. *)
Theorem Read_round_trip (c c' : CSV) :
  Headers c = [] -> Records c = [] ->
  Read c = inr c' ->
  exists file rows,
    os_Open (FilePath c) = inr file
    /\ mapM (mapM asString) (Records c') = Some rows
    /\ csv_ReadAll (Delimiter c) file = inr (GetHeaderNames c' :: rows).
Proof.
  intros Hheaders Hrecords (Hpath&file&header&rest&Hopen&Hall&->)%Read_inr.
  exists file, rest. unfold GetHeaderNames. simpl. rewrite Hheaders, Hrecords. simpl.
  rewrite map_map. simpl. rewrite map_id. split_and!; try done.
  assert (mapM (mapM asString) (map (map VString) rest) = Some rest) as Hrows.
  { apply mapM_Some, Forall2_fmap_l, Forall_Forall2_diag, Forall_true. intros record.
    apply mapM_Some, Forall2_fmap_l, Forall_Forall2_diag, Forall_true. done. }
  by destruct rest.
Qed.

End ReadProperties.

(** ** Loops that update a list index by index *)

Section IndexLoop.
Context {A : Type}.

Lemma foldlM_app {B} (f : B -> A -> option B) (b : B) (l1 l2 : list A) :
  foldlM f b (l1 ++ l2) = b' ← foldlM f b l1; foldlM f b' l2.
Proof.
  revert b. induction l1 as [|a l1 IH]; intros b; simpl; [done|].
  destruct (f b a) as [b'|]; simpl; [apply IH | done].
Qed.

(** The body [f] of the loop replaces element [i] by [u i] of it. *)
Variable f : list A -> nat -> option (list A).
Variable u : nat -> A -> option A.
Hypothesis f_at : forall l i x,
  l !! i = Some x -> f l i = y ← u i x; Some (<[i := y]> l).

Lemma index_loop (m k : nat) (l l' : list A) :
  k + m <= length l ->
  foldlM f l (seq k m) = Some l' <->
  length l' = length l
  /\ forall j,
       (k <= j < k + m ->
        exists x y, l !! j = Some x /\ u j x = Some y /\ l' !! j = Some y)
       /\ (~ (k <= j < k + m) -> l' !! j = l !! j).
Proof.
  revert k l. induction m as [|m IH]; intros k l Hlen; simpl.
  - split.
    + intros [= <-]. split; [done|]. intros j. split; [lia | done].
    + intros [_ Hl']. f_equal. symmetry. apply list_eq. intros j.
      apply Hl'. lia.
  - destruct (lookup_lt_is_Some_2 l k) as [x Hx]; [lia|].
    rewrite (f_at _ _ _ Hx). destruct (u k x) as [y|] eqn:Hy; simpl.
    + rewrite IH by (rewrite length_insert; lia). rewrite length_insert.
      apply and_iff_compat_l. split; intros Hl' j; split; intros Hj.
      * destruct (decide (j = k)) as [->|Hne].
        -- exists x, y. repeat split; [done..|].
           destruct (Hl' k) as [_ Hk]. rewrite Hk by lia.
           by apply list_lookup_insert_eq, lookup_lt_Some with x.
        -- destruct (Hl' j) as [Hin _]. destruct Hin as (x'&y'&Hx'&?&?); [lia|].
           rewrite list_lookup_insert_ne in Hx' by done. by exists x', y'.
      * destruct (Hl' j) as [_ Hout]. rewrite Hout by lia.
        apply list_lookup_insert_ne. lia.
      * destruct (Hl' j) as [Hin _]. destruct Hin as (x'&y'&Hx'&?&?); [lia|].
        exists x', y'. rewrite list_lookup_insert_ne by lia. done.
      * destruct (decide (j = k)) as [->|Hne].
        -- destruct (Hl' k) as [Hin _]. destruct Hin as (x'&y'&Hx'&Hy'&->); [lia|].
           rewrite list_lookup_insert_eq by by apply lookup_lt_Some with x.
           congruence.
        -- rewrite list_lookup_insert_ne by done. apply Hl'. lia.
    + split; [done|]. intros [_ Hl'].
      destruct (Hl' k) as [Hin _]. destruct Hin as (x'&y'&Hx'&Hy'&_); [lia|]. congruence.
Qed.

End IndexLoop.

(** ** inferColumnTypes and ConvertColumnTypes *)

Section InferenceProperties.
Context `{Strconv}.

Lemma countCell_counts (i : nat) (record : list value) (floatCount intCount : nat) :
  countCell i (floatCount, intCount) record
  = v ← record !! i;
    Some (floatCount + (if countsAsFloat v then 1 else 0),
          intCount + (if countsAsInt v then 1 else 0)).
Proof.
  unfold countCell. destruct (record !! i) as [[s| |]|]; simpl; [| | |done].
  - destruct (ParseFloat s), (strconv.ParseInt s); do 2 f_equal; lia.
  - do 2 f_equal; lia.
  - do 2 f_equal; lia.
Qed.

Lemma countCell_fold (i : nat) (sample : list (list value)) (floatCount intCount : nat) :
  foldlM (countCell i) (floatCount, intCount) sample
  = cs ← cells i sample;
    Some (floatCount + count countsAsFloat cs, intCount + count countsAsInt cs).
Proof.
  unfold cells. revert floatCount intCount.
  induction sample as [|record sample IH]; intros floatCount intCount.
  - simpl. by rewrite !Nat.add_0_r.
  - cbn [foldlM]. rewrite countCell_counts. cbn [mapM].
    destruct (record !! i) as [v|]; simpl; [|done]. rewrite IH.
    destruct (mapM _ sample) as [cs|]; simpl; [|done].
    do 2 f_equal; lia.
Qed.

Lemma inferColumn_at (sample : list (list value)) (n : nat) (headers : list Column)
  (i : nat) (column : Column) :
  headers !! i = Some column ->
  inferColumn sample n headers i
  = column' ← inferred sample n i column; Some (<[i := column']> headers).
Proof.
  intros Hi. unfold inferColumn, inferred. rewrite countCell_fold.
  destruct (cells i sample) as [cs|]; simpl; [|done]. f_equal.
  unfold decided. rewrite list_insert_alter.
  destruct (_ =? n); [|destruct (_ =? n)].
  - apply list_alter_ext; [|done]. intros column' Hi'. congruence.
  - apply list_alter_ext; [|done]. intros column' Hi'. congruence.
  - symmetry. rewrite <-list_insert_alter. by apply list_insert_id.
Qed.

Lemma inferColumnTypes_Some (c c' : CSV) :
  inferColumnTypes c = Some c' <->
  exists headers',
    c' = setHeaders headers' c
    /\ length headers' = length (Headers c)
    /\ forall j column, Headers c !! j = Some column ->
         exists column', inferred (sample c) (rangeToCheck c) j column = Some column'
                         /\ headers' !! j = Some column'.
Proof.
  unfold inferColumnTypes. fold (rangeToCheck c). fold (sample c).
  assert (forall headers',
    foldlM (inferColumn (sample c) (rangeToCheck c)) (Headers c)
      (seq 0 (length (Headers c))) = Some headers' <->
    length headers' = length (Headers c)
    /\ forall j column, Headers c !! j = Some column ->
         exists column', inferred (sample c) (rangeToCheck c) j column = Some column'
                         /\ headers' !! j = Some column') as Hloop.
  { intros headers'.
    rewrite (index_loop (inferColumn (sample c) (rangeToCheck c))
               (inferred (sample c) (rangeToCheck c))
               (inferColumn_at (sample c) (rangeToCheck c))) by (simpl; lia).
    split; intros [Hlen Hj]; (split; [done|]).
    - intros j column Hcol. destruct (Hj j) as [Hin _].
      destruct Hin as (x&y&Hx&Hy&Hy'); [apply lookup_lt_Some in Hcol; lia|].
      exists y. split; congruence.
    - intros j. split.
      + intros Hin.
        destruct (lookup_lt_is_Some_2 (Headers c) j) as [column Hcol]; [lia|].
        destruct (Hj j column Hcol) as (column'&?&?). by exists column, column'.
      + intros Hout. rewrite !lookup_ge_None_2; [done|lia..]. }
  split.
  - destruct (foldlM _ _ _) as [headers'|] eqn:Hfold; [|done]. intros [= <-].
    exists headers'. split; [done|]. by apply Hloop.
  - intros (headers'&->&Hinf). apply Hloop in Hinf. by rewrite Hinf.
Qed.

Lemma cells_is_Some (j : nat) (records : list (list value)) :
  Forall (fun record => j < length record) records -> is_Some (cells j records).
Proof.
  intros HF. apply mapM_is_Some. eapply Forall_impl; [exact HF|].
  intros record Hj. by apply lookup_lt_is_Some_2.
Qed.

Lemma inferColumnTypes_total (c : CSV) :
  Forall (fun record => length (Headers c) <= length record) (sample c) ->
  is_Some (inferColumnTypes c).
Proof.
  intros Hcover.
  assert (forall j column, Headers c !! j = Some column ->
            is_Some (inferred (sample c) (rangeToCheck c) j column)) as Hinf.
  { intros j column Hcol. unfold inferred.
    destruct (cells_is_Some j (sample c)) as [cs ->]; [|done].
    eapply Forall_impl; [exact Hcover|]. intros record Hlen. simpl in Hlen.
    apply lookup_lt_Some in Hcol. lia. }
  exists (setHeaders
            (imap (fun j column =>
                     default column (inferred (sample c) (rangeToCheck c) j column))
                  (Headers c)) c).
  apply inferColumnTypes_Some. eexists. split; [done|]. split; [by rewrite length_imap|].
  intros j column Hcol. destruct (Hinf j column Hcol) as [column' Hcolumn'].
  exists column'. split; [done|]. by rewrite list_lookup_imap, Hcol; simpl; rewrite Hcolumn'.
Qed.

(** *** convertRecord *)

Lemma convertCell_at (headers : list Column) (record : list value) (i : nat) (v : value) :
  record !! i = Some v ->
  convertCell headers record i
  = v' ← Some (convertedAt headers i v); Some (<[i := v']> record).
Proof.
  intros Hi. unfold convertCell, convertedAt. rewrite Hi. simpl.
  destruct v as [s| |]; simpl.
  - destruct (headers !! i) as [[name [| |]]|]; simpl;
      try (by rewrite list_insert_id).
    + by destruct (ParseFloat s); [|rewrite list_insert_id].
    + by destruct (strconv.ParseInt s); [|rewrite list_insert_id].
  - destruct (headers !! i) as [[name [| |]]|]; by rewrite list_insert_id.
  - destruct (headers !! i) as [[name [| |]]|]; by rewrite list_insert_id.
Qed.

Lemma convertRecord_Some (headers : list Column) (record record' : list value) :
  convertRecord headers record = Some record' <->
  length headers <= length record /\ record' = imap (convertedAt headers) record.
Proof.
  unfold convertRecord.
  pose proof (index_loop (convertCell headers) (fun i v => Some (convertedAt headers i v))
                (convertCell_at headers)) as Hloop.
  destruct (decide (length headers <= length record)) as [Hle|Hgt].
  - rewrite (Hloop (length headers) 0 record record') by (simpl; lia). split.
    + intros [Hlen Hj]. split; [done|]. apply list_eq. intros j.
      rewrite list_lookup_imap. destruct (decide (j < length headers)) as [Hin|Hout].
      * destruct (Hj j) as [Hj' _]. destruct Hj' as (x&y&->&[= <-]&->); [lia|]. done.
      * destruct (Hj j) as [_ Hj']. rewrite Hj' by lia. unfold convertedAt.
        rewrite (lookup_ge_None_2 headers) by lia. by destruct (record !! j).
    + intros [_ ->]. split; [by rewrite length_imap|]. intros j.
      rewrite list_lookup_imap. split.
      * intros Hin. destruct (lookup_lt_is_Some_2 record j) as [x Hx]; [lia|].
        exists x, (convertedAt headers j x). by rewrite Hx.
      * intros Hout. unfold convertedAt.
        rewrite (lookup_ge_None_2 headers) by lia. by destruct (record !! j).
  - split; [|by intros [? _]]. intros Hfold. exfalso.
    replace (length headers)
      with (length record + S (length headers - S (length record))) in Hfold by lia.
    rewrite seq_app, foldlM_app in Hfold.
    destruct (foldlM _ record (seq 0 (length record))) as [record1|] eqn:Hfirst; [|done].
    apply Hloop in Hfirst as [Hlen _]; [|simpl; lia].
    simpl in Hfold.
    assert (convertCell headers record1 (length record) = None) as Hnone.
    { unfold convertCell. by rewrite (lookup_ge_None_2 record1) by lia. }
    by rewrite Hnone in Hfold.
Qed.

Lemma convertedAt_idemp (headers : list Column) (j : nat) (v : value) :
  convertedAt headers j (convertedAt headers j v) = convertedAt headers j v.
Proof.
  unfold convertedAt. destruct (headers !! j) as [[name t]|]; [|done]. simpl.
  destruct v as [s| |], t; simpl; try done.
  - by destruct (ParseFloat s) eqn:Hs; simpl; [|rewrite Hs].
  - by destruct (strconv.ParseInt s) eqn:Hs; simpl; [|rewrite Hs].
Qed.

Lemma convertRecord_idemp (headers : list Column) (record record' : list value) :
  convertRecord headers record = Some record' ->
  convertRecord headers record' = Some record'.
Proof.
  intros [Hle ->]%convertRecord_Some. apply convertRecord_Some.
  split; [by rewrite length_imap|]. apply list_eq. intros j.
  rewrite !list_lookup_imap. destruct (record !! j); simpl; [|done].
  by rewrite convertedAt_idemp.
Qed.

Lemma mapM_convertRecord (headers : list Column) (records records' : list (list value)) :
  mapM (convertRecord headers) records = Some records' <->
  Forall (fun record => length headers <= length record) records
  /\ records' = map (imap (convertedAt headers)) records.
Proof.
  rewrite mapM_Some. split.
  - induction 1 as [|record record' records records' Hrecord _ [IH1 IH2]]; [done|].
    apply convertRecord_Some in Hrecord as [Hle ->]. split; [by constructor|].
    simpl. by rewrite IH2.
  - intros [HF ->]. induction HF as [|record records Hle _ IH]; simpl; constructor.
    + by apply convertRecord_Some.
    + exact IH.
Qed.

Lemma ConvertColumnTypes_Some (c c' : CSV) :
  ConvertColumnTypes c = Some c' <->
  exists c1,
    inferColumnTypes c = Some c1
    /\ rowsCoverColumns c
    /\ c' = setRecords (map (imap (convertedAt (Headers c1))) (Records c)) c1.
Proof.
  unfold ConvertColumnTypes, rowsCoverColumns.
  destruct (inferColumnTypes c) as [c1|] eqn:Hinfer; simpl.
  - apply inferColumnTypes_Some in Hinfer as (headers'&->&Hlen&_). simpl.
    destruct (mapM _ (Records c)) as [records'|] eqn:Hrecords; simpl.
    + apply mapM_convertRecord in Hrecords as [HF ->]. rewrite Hlen in HF. split.
      * intros [= <-]. eexists. by repeat split.
      * by intros (c1&[= <-]&_&->).
    + split; [done|]. intros (c1&[= <-]&HF&_). simpl in Hrecords.
      assert (is_Some (mapM (convertRecord headers') (Records c))) as [? Hsome];
        [|congruence].
      eexists. apply mapM_convertRecord. by rewrite Hlen.
  - split; [done | by intros (?&?&_)].
Qed.

(** *** The counts after a conversion *)

Lemma count_le_length {A} (p : A -> bool) (l : list A) : count p l <= length l.
Proof. induction l as [|x l IH]; simpl; [done|]. destruct (p x); lia. Qed.

Lemma count_exclusive {A} (p q : A -> bool) (l : list A) :
  (forall x, p x = true -> q x = false) -> count p l + count q l <= length l.
Proof.
  intros Hpq. induction l as [|x l IH]; simpl; [done|].
  destruct (p x) eqn:Hp; [rewrite (Hpq x Hp); lia | destruct (q x); lia].
Qed.

Lemma count_map_le {A} (p : A -> bool) (g : A -> A) (l : list A) :
  (forall x, p (g x) = true -> p x = true) -> count p (map g l) <= count p l.
Proof.
  intros Hg. induction l as [|x l IH]; simpl; [done|].
  destruct (p (g x)) eqn:Hp; [rewrite (Hg x Hp); lia | destruct (p x); lia].
Qed.

Lemma count_map_0 {A} (p : A -> bool) (g : A -> A) (l : list A) :
  (forall x, p (g x) = false) -> count p (map g l) = 0.
Proof. intros Hg. induction l as [|x l IH]; simpl; [done|]. by rewrite Hg, IH. Qed.

Lemma count_map_eq {A} (p : A -> bool) (g : A -> A) (l : list A) :
  (forall x, p (g x) = p x) -> count p (map g l) = count p l.
Proof. intros Hg. induction l as [|x l IH]; simpl; [done|]. by rewrite Hg, IH. Qed.

Lemma countsAsFloat_not_countsAsInt (v : value) :
  countsAsFloat v = true -> countsAsInt v = false.
Proof. destruct v as [s| |]; simpl; [|done..]. by destruct (ParseFloat s). Qed.

Lemma countsAsFloat_converted_Float (v : value) :
  countsAsFloat (converted FloatType v) = false.
Proof.
  destruct v as [s| |]; simpl; [|done..].
  destruct (ParseFloat s) eqn:Hs; simpl; [done | by rewrite Hs].
Qed.

Lemma countsAsInt_converted_Float (v : value) :
  countsAsInt (converted FloatType v) = countsAsInt v.
Proof.
  destruct v as [s| |]; simpl; [|done..].
  destruct (ParseFloat s) eqn:Hs; simpl; [done | by rewrite Hs].
Qed.

Lemma countsAsInt_converted_Integer (v : value) :
  countsAsInt (converted IntegerType v) = false.
Proof.
  destruct v as [s| |]; simpl; [|done..].
  destruct (strconv.ParseInt s) eqn:Hs; simpl; [done|].
  rewrite Hs. by destruct (ParseFloat s).
Qed.

Lemma countsAsFloat_converted_Integer (v : value) :
  countsAsFloat (converted IntegerType v) = true -> countsAsFloat v = true.
Proof.
  destruct v as [s| |]; simpl; [|done..].
  by destruct (strconv.ParseInt s).
Qed.

Lemma converted_String (v : value) : converted StringType v = v.
Proof. by destruct v. Qed.

(** The decision taken on a column stands when it is taken again on the
    converted cells. *)
Lemma decided_stable (n : nat) (cs : list value) (column column' : Column) :
  length cs = n ->
  column' = decided n (count countsAsFloat cs) (count countsAsInt cs) column ->
  decided n (count countsAsFloat (map (converted (Type' column')) cs))
            (count countsAsInt (map (converted (Type' column')) cs)) column'
  = column'.
Proof.
  intros Hlen Hcolumn'.
  pose proof (count_le_length countsAsFloat cs) as HF.
  pose proof (count_exclusive countsAsFloat countsAsInt cs countsAsFloat_not_countsAsInt) as HFI.
  pose proof (count_map_0 countsAsFloat (converted FloatType) cs countsAsFloat_converted_Float) as HF0.
  pose proof (count_map_eq countsAsInt (converted FloatType) cs countsAsInt_converted_Float) as HIeq.
  pose proof (count_map_0 countsAsInt (converted IntegerType) cs countsAsInt_converted_Integer) as HI0.
  pose proof (count_map_le countsAsFloat (converted IntegerType) cs countsAsFloat_converted_Integer) as HFle.
  unfold decided in Hcolumn'.
  destruct (Nat.eqb_spec (count countsAsFloat cs) n) as [HFn|HFn].
  { subst column'. simpl. rewrite HF0, HIeq. unfold decided.
    destruct (Nat.eqb_spec 0 n) as [H0|H0]; [done|].
    destruct (Nat.eqb_spec (count countsAsInt cs) n) as [HIn|HIn]; [lia | done]. }
  destruct (Nat.eqb_spec (count countsAsInt cs) n) as [HIn|HIn].
  { subst column'. simpl. rewrite HI0. unfold decided.
    destruct (Nat.eqb_spec (count countsAsFloat (map (converted IntegerType) cs)) n);
      [lia|].
    destruct (Nat.eqb_spec 0 n); [lia | done]. }
  subst column'. destruct column as [name [| |]]; simpl.
  - rewrite (map_ext _ id), map_id by apply converted_String. unfold decided.
    destruct (Nat.eqb_spec (count countsAsFloat cs) n); [done|].
    by destruct (Nat.eqb_spec (count countsAsInt cs) n).
  - rewrite HF0, HIeq. unfold decided.
    destruct (Nat.eqb_spec 0 n); [done|].
    by destruct (Nat.eqb_spec (count countsAsInt cs) n).
  - rewrite HI0. unfold decided.
    destruct (Nat.eqb_spec (count countsAsFloat (map (converted IntegerType) cs)) n);
      [lia|].
    by destruct (Nat.eqb_spec 0 n).
Qed.

Lemma cells_converted (headers : list Column) (j : nat) (records : list (list value)) :
  cells j (map (imap (convertedAt headers)) records)
  = map (convertedAt headers j) <$> cells j records.
Proof.
  unfold cells. induction records as [|record records IH]; simpl; [done|].
  rewrite list_lookup_imap, IH. destruct (record !! j); simpl; [|done].
  by destruct (mapM _ records).
Qed.

Lemma imap_convertedAt_idemp (headers : list Column) (record : list value) :
  imap (convertedAt headers) (imap (convertedAt headers) record)
  = imap (convertedAt headers) record.
Proof.
  apply list_eq. intros j. rewrite !list_lookup_imap.
  destruct (record !! j); simpl; [|done]. by rewrite convertedAt_idemp.
Qed.

Lemma ConvertColumnTypes_total (c : CSV) :
  rowsCoverColumns c -> is_Some (ConvertColumnTypes c).
Proof.
  intros Hcover. destruct (inferColumnTypes_total c) as [c1 Hc1].
  { unfold sample. by apply Forall_take. }
  eexists. apply ConvertColumnTypes_Some. by exists c1.
Qed.

Lemma ConvertColumnTypes_again (c c' : CSV) :
  ConvertColumnTypes c = Some c' -> ConvertColumnTypes c' = Some c'.
Proof.
  intros (c1&Hinfer&Hcover&->)%ConvertColumnTypes_Some.
  apply inferColumnTypes_Some in Hinfer as (headers'&->&Hlen&Hinferred).
  set (records' := map (imap (convertedAt headers')) (Records c)).
  apply ConvertColumnTypes_Some.
  exists (setRecords records' (setHeaders headers' c)). split; [|split].
  - apply inferColumnTypes_Some. exists headers'. split; [done|]. split; [done|].
    simpl. intros j column' Hcolumn'.
    destruct (lookup_lt_is_Some_2 (Headers c) j) as [column Hcolumn].
    { rewrite <-Hlen. by apply lookup_lt_Some with column'. }
    destruct (Hinferred j column Hcolumn) as (column''&Hinf&Hj).
    assert (column'' = column') as -> by congruence.
    exists column'. split; [|done].
    unfold inferred in Hinf |- *.
    destruct (cells j (sample c)) as [cs|] eqn:Hcells; [|done].
    injection Hinf as Hdecided.
    assert (rangeToCheck (setRecords records' (setHeaders headers' c)) = rangeToCheck c)
      as Hrange.
    { unfold rangeToCheck, records'. simpl. by rewrite length_map. }
    assert (sample (setRecords records' (setHeaders headers' c))
            = map (imap (convertedAt headers')) (sample c)) as Hsample.
    { unfold sample. rewrite Hrange. simpl. unfold records'.
      symmetry. apply (fmap_take (imap (convertedAt headers'))). }
    unfold records' in Hrange, Hsample.
    rewrite Hrange, Hsample, cells_converted, Hcells. simpl. f_equal.
    replace (convertedAt headers' j) with (converted (Type' column'))
      by (unfold convertedAt; by rewrite Hj).
    apply (decided_stable _ cs column); [|done].
    apply length_mapM in Hcells. rewrite <-Hcells. unfold sample, rangeToCheck.
    rewrite length_take. lia.
  - unfold rowsCoverColumns in *. simpl. unfold records'. rewrite Hlen.
    apply Forall_fmap. eapply Forall_impl; [exact Hcover|].
    intros record Hle. simpl. by rewrite length_imap.
  - simpl. unfold setRecords, records'. simpl. f_equal.
    rewrite map_map. apply map_ext. intros record.
    by rewrite imap_convertedAt_idemp.
Qed.

Lemma inferColumnTypes_no_rows (c : CSV) :
  Records c = [] ->
  inferColumnTypes c = Some (setHeaders (map (setType FloatType) (Headers c)) c).
Proof.
  intros Hrows. apply inferColumnTypes_Some. eexists. split; [done|].
  split; [by rewrite length_map|]. intros j column Hcolumn.
  exists (setType FloatType column). split.
  - unfold inferred, sample, rangeToCheck. by rewrite Hrows.
  - rewrite list_lookup_fmap. by rewrite Hcolumn.
Qed.

(** C6: [ConvertColumnTypes] returns for every table each of whose
    records has a cell for every column, and it is idempotent: run on a
    table it has returned, it returns that table, with the same column types
    and the same cells. *)
Theorem ConvertColumnTypes_idempotent (c : CSV) :
  (rowsCoverColumns c -> exists c', ConvertColumnTypes c = Some c')
  /\ (forall c', ConvertColumnTypes c = Some c' -> ConvertColumnTypes c' = Some c').
Proof.
  split.
  - intros Hcover. by apply ConvertColumnTypes_total.
  - apply ConvertColumnTypes_again.
Qed.

(** *** Panics, and what is left unchanged *)

Lemma short_record_dec (n : nat) (records : list (list value)) :
  Exists (fun record => length record < n) records
  \/ Forall (fun record => n <= length record) records.
Proof.
  induction records as [|record records [IH|IH]].
  - right. constructor.
  - left. by apply Exists_cons_tl.
  - destruct (decide (length record < n)).
    + left. by apply Exists_cons_hd.
    + right. constructor; [lia | done].
Qed.

Lemma inferColumnTypes_covers (c c' : CSV) :
  inferColumnTypes c = Some c' ->
  Forall (fun record => length (Headers c) <= length record) (sample c).
Proof.
  intros (headers'&_&_&Hinferred)%inferColumnTypes_Some.
  apply Forall_forall. intros record Hin.
  destruct (decide (length (Headers c) <= length record)) as [|Hshort]; [done|].
  destruct (lookup_lt_is_Some_2 (Headers c) (length record)) as [column Hcolumn]; [lia|].
  destruct (Hinferred _ _ Hcolumn) as (column'&Hinf&_). unfold inferred, cells in Hinf.
  destruct (mapM _ (sample c)) as [cs|] eqn:Hcells; [|done].
  apply mapM_Some in Hcells. apply list_elem_of_lookup in Hin as [i Hi].
  destruct (Forall2_lookup_l _ _ _ _ _ Hcells Hi) as (v&_&Hv).
  apply lookup_lt_Some in Hv. lia.
Qed.

(** X7: [inferColumnTypes] panics, on an index out of range, exactly when
    one of the records it samples has fewer cells than the table has
    columns; records after the sample are not looked at. *)
Theorem inferColumnTypes_panics_exactly (c : CSV) :
  inferColumnTypes c = None
  <-> Exists (fun record => length record < length (Headers c)) (sample c).
Proof.
  split.
  - intros Hnone.
    destruct (short_record_dec (length (Headers c)) (sample c)) as [|Hcover]; [done|].
    destruct (inferColumnTypes_total c Hcover) as [c' Hc']. congruence.
  - intros Hshort. destruct (inferColumnTypes c) as [c'|] eqn:Hinfer; [|done].
    apply inferColumnTypes_covers in Hinfer.
    apply Exists_exists in Hshort as (record&Hin&Hlt).
    rewrite Forall_forall in Hinfer. specialize (Hinfer record Hin). lia.
Qed.

Lemma inferred_Name (records : list (list value)) (n j : nat) (column column' : Column) :
  inferred records n j column = Some column' -> Name column' = Name column.
Proof.
  unfold inferred, decided. destruct (cells j records) as [cs|]; [|done].
  simpl. intros [= <-]. by repeat case_match.
Qed.

(** X8: [inferColumnTypes] changes the types of columns and nothing else:
    the columns keep their names, their number and their order, and the
    path, the delimiter and the records are as they were. *)
Theorem inferColumnTypes_changes_types_only (c c' : CSV) :
  inferColumnTypes c = Some c' ->
  FilePath c' = FilePath c /\ Delimiter c' = Delimiter c /\ Records c' = Records c
  /\ map Name (Headers c') = map Name (Headers c).
Proof.
  intros (headers'&->&Hlen&Hinferred)%inferColumnTypes_Some. simpl.
  split_and!; try done. apply list_eq. intros j. rewrite !list_lookup_fmap.
  destruct (Headers c !! j) as [column|] eqn:Hcolumn.
  - destruct (Hinferred j column Hcolumn) as (column'&Hname%inferred_Name&->).
    simpl. by rewrite Hname.
  - rewrite (lookup_ge_None_2 headers'); [done|].
    apply lookup_ge_None in Hcolumn. lia.
Qed.

Lemma count_eqb_length {A} (p : A -> bool) (l : list A) :
  (count p l =? length l) = forallb p l.
Proof.
  induction l as [|x l IH]; [done|]. simpl.
  pose proof (count_le_length p l) as Hle. destruct (p x); simpl; [done|].
  apply Nat.eqb_neq. lia.
Qed.

Lemma length_cells (j : nat) (records : list (list value)) (cs : list value) :
  cells j records = Some cs -> length cs = length records.
Proof. intros Hcells. symmetry. by apply length_mapM in Hcells. Qed.

Lemma length_sample (c : CSV) : length (sample c) = rangeToCheck c.
Proof. unfold sample, rangeToCheck. rewrite length_take. lia. Qed.

(** X9: the decision [inferColumnTypes] takes on a column, read on the
    cells it samples. The column is made Float when each of them is text
    that [ParseFloat] accepts, which is so when no record is sampled;
    failing that, it is made Integer when each of them is text that
    [ParseFloat] rejects and [ParseInt] accepts; failing both, as when a
    single cell is neither, its type is left as it was. *)
Theorem inferColumnTypes_decision (c c' : CSV) (j : nat) (column column' : Column) :
  inferColumnTypes c = Some c' ->
  Headers c !! j = Some column -> Headers c' !! j = Some column' ->
  exists cs,
    cells j (sample c) = Some cs
    /\ Type' column'
       = if forallb countsAsFloat cs then FloatType
         else if forallb countsAsInt cs then IntegerType
         else Type' column.
Proof.
  intros (headers'&->&_&Hinferred)%inferColumnTypes_Some Hj Hj'. simpl in Hj'.
  destruct (Hinferred j column Hj) as (column''&Hinf&Hj'').
  assert (column'' = column') as -> by congruence.
  unfold inferred in Hinf. destruct (cells j (sample c)) as [cs|] eqn:Hcells; [|done].
  injection Hinf as <-. exists cs. split; [done|].
  apply length_cells in Hcells. rewrite length_sample in Hcells.
  unfold decided. rewrite <-Hcells, !count_eqb_length. by repeat case_match.
Qed.

(** X10: the types [inferColumnTypes] gives depend on the first
    [defaultTypeInferanceRows] records alone: the function does to a table
    what it does to the table cut down to these records, whatever the
    records after them hold. *)
Theorem inferColumnTypes_sample_window (c : CSV) :
  inferColumnTypes c
  = setRecords (Records c)
      <$> inferColumnTypes (setRecords (take defaultTypeInferanceRows (Records c)) c).
Proof.
  unfold inferColumnTypes. cbn [Records Headers setRecords].
  rewrite length_take.
  replace (min defaultTypeInferanceRows
             (min defaultTypeInferanceRows (length (Records c))))
    with (min defaultTypeInferanceRows (length (Records c))) by lia.
  replace (take (min defaultTypeInferanceRows (length (Records c)))
             (take defaultTypeInferanceRows (Records c)))
    with (take (min defaultTypeInferanceRows (length (Records c))) (Records c)).
  - by destruct (foldlM _ _ _).
  - rewrite take_take. f_equal. lia.
Qed.

(** X11: [inferColumnTypes] is idempotent: run on a table it has
    returned, it returns that table. *)
Theorem inferColumnTypes_idempotent (c c' : CSV) :
  inferColumnTypes c = Some c' -> inferColumnTypes c' = Some c'.
Proof.
  intros (headers'&->&Hlen&Hinferred)%inferColumnTypes_Some.
  apply inferColumnTypes_Some. exists headers'. split; [done|]. split; [done|].
  cbn [Headers setHeaders]. intros j column' Hj'.
  destruct (lookup_lt_is_Some_2 (Headers c) j) as [column Hj].
  { rewrite <-Hlen. by apply lookup_lt_Some with column'. }
  destruct (Hinferred j column Hj) as (column''&Hinf&Hj'').
  assert (column'' = column') as -> by congruence.
  exists column'. split; [|done].
  change (sample (setHeaders headers' c)) with (sample c).
  change (rangeToCheck (setHeaders headers' c)) with (rangeToCheck c).
  unfold inferred in *. destruct (cells j (sample c)) as [cs|]; [|done].
  injection Hinf as <-. simpl. f_equal. unfold decided.
  by repeat case_match.
Qed.

(** X12: [ConvertColumnTypes] panics, on an index out of range, exactly
    when some record of the table, sampled or not, has fewer cells than the
    table has columns. *)
Theorem ConvertColumnTypes_panics_exactly (c : CSV) :
  ConvertColumnTypes c = None
  <-> Exists (fun record => length record < length (Headers c)) (Records c).
Proof.
  split.
  - intros Hnone.
    destruct (short_record_dec (length (Headers c)) (Records c)) as [|Hcover]; [done|].
    destruct (ConvertColumnTypes_total c Hcover) as [c' Hc']. congruence.
  - intros Hshort. destruct (ConvertColumnTypes c) as [c'|] eqn:Hconvert; [|done].
    apply ConvertColumnTypes_Some in Hconvert as (c1&_&Hcover&_).
    apply Exists_exists in Hshort as (record&Hin&Hlt).
    unfold rowsCoverColumns in Hcover. rewrite Forall_forall in Hcover.
    specialize (Hcover record Hin). lia.
Qed.

Lemma ConvertColumnTypes_shape (c c' : CSV) :
  ConvertColumnTypes c = Some c' ->
  length (Headers c') = length (Headers c)
  /\ Forall2 (fun record record' => length record' = length record)
             (Records c) (Records c').
Proof.
  intros (c1&Hinfer&_&->)%ConvertColumnTypes_Some.
  apply inferColumnTypes_Some in Hinfer as (headers'&->&Hlen&_).
  cbn [Headers Records setRecords setHeaders]. split; [done|].
  apply Forall2_fmap_r, Forall_Forall2_diag, Forall_true. intros record.
  simpl. by rewrite length_imap.
Qed.

Lemma ConvertColumnTypes_rectangular (c : CSV) :
  rectangular c -> exists c', ConvertColumnTypes c = Some c' /\ rectangular c'.
Proof.
  intros Hc. destruct (ConvertColumnTypes_total c) as [c' Hc'].
  { eapply Forall_impl; [exact Hc|]. simpl. lia. }
  exists c'. split; [done|]. apply ConvertColumnTypes_shape in Hc' as [Hlen Hrecords].
  unfold rectangular in *. rewrite Hlen.
  apply (Forall2_Forall_r _ _ _ _ Hrecords). eapply Forall_impl; [exact Hc|].
  simpl. intros record Hrecord record' ->. done.
Qed.

(** X13: [ConvertColumnTypes] keeps the invariant of a table. On a table
    in which each record has exactly one cell per column it does not panic,
    and the table it returns is of that shape when the table given is, and
    only then. *)
Theorem ConvertColumnTypes_keeps_rectangular (c : CSV) :
  (rectangular c -> exists c', ConvertColumnTypes c = Some c')
  /\ (forall c', ConvertColumnTypes c = Some c' -> rectangular c' <-> rectangular c).
Proof.
  split.
  - intros (c'&Hc'&_)%ConvertColumnTypes_rectangular. by exists c'.
  - intros c' Hc'. split.
    + apply ConvertColumnTypes_shape in Hc' as [Hlen Hrecords].
      unfold rectangular. rewrite Hlen. intros Hshape.
      apply (Forall2_Forall_l _ _ _ _ Hrecords). eapply Forall_impl; [exact Hshape|].
      simpl. intros record' Hrecord' record <-. done.
    + intros (c''&Hc''&Hshape)%ConvertColumnTypes_rectangular. congruence.
Qed.

(** X14: what [ConvertColumnTypes] returns. The columns are those
    [inferColumnTypes] gives; path and delimiter are kept; there are as many
    records, each with as many cells; and the cell of a record under a
    column is [converted] for the type of the column: text in a Float or
    Integer column is replaced by the number it parses as, and is left as
    text when it does not parse; a cell that is not text, a cell in a String
    column, and a cell beyond the last column are left as they are. This
    holds of every record, sampled or not. *)
Theorem ConvertColumnTypes_cells (c c' : CSV) :
  ConvertColumnTypes c = Some c' ->
  FilePath c' = FilePath c /\ Delimiter c' = Delimiter c
  /\ Some (Headers c') = Headers <$> inferColumnTypes c
  /\ length (Records c') = length (Records c)
  /\ forall i record, Records c !! i = Some record ->
       exists record',
         Records c' !! i = Some record'
         /\ length record' = length record
         /\ forall j v, record !! j = Some v ->
              record' !! j
              = Some (match Headers c' !! j with
                      | Some column => converted (Type' column) v
                      | None => v
                      end).
Proof.
  intros (c1&Hinfer&_&->)%ConvertColumnTypes_Some. rewrite Hinfer.
  apply inferColumnTypes_Some in Hinfer as (headers'&->&_&_).
  cbn [FilePath Delimiter Headers Records setRecords setHeaders fmap option_fmap option_map].
  split_and!; try done.
  - by rewrite length_map.
  - intros i record Hi. exists (imap (convertedAt headers') record).
    rewrite list_lookup_fmap, Hi. split_and!; [done | by rewrite length_imap|].
    intros j v Hv. by rewrite list_lookup_imap, Hv.
Qed.

(** X15: a column whose type [ConvertColumnTypes] changes holds, in the
    records that were sampled, cells of the new type only: 64-bit floats
    when it is made Float, 64-bit integers when it is made Integer. (After
    the sample a cell that does not parse stays text.) *)
Theorem ConvertColumnTypes_sample_typed (c c' : CSV) (j : nat) (column column' : Column) :
  ConvertColumnTypes c = Some c' ->
  Headers c !! j = Some column -> Headers c' !! j = Some column' ->
  Type' column' <> Type' column ->
  forall i record',
    i < defaultTypeInferanceRows -> Records c' !! i = Some record' ->
    exists v, record' !! j = Some v /\ hasType (Type' column') v.
Proof.
  intros (c1&Hinfer&_&->)%ConvertColumnTypes_Some Hj Hj' Hchanged i record' Hi Hrecord'.
  cbn [Headers Records setRecords] in *.
  apply inferColumnTypes_Some in Hinfer as (headers'&->&_&Hinferred).
  cbn [Headers setHeaders] in *.
  destruct (Hinferred j column Hj) as (column''&Hinf&Hj'').
  assert (column'' = column') as -> by congruence.
  rewrite list_lookup_fmap in Hrecord'.
  destruct (Records c !! i) as [record|] eqn:Hrecord; [|done].
  injection Hrecord' as <-.
  assert (sample c !! i = Some record) as Hsampled.
  { unfold sample. rewrite lookup_take_lt; [done|].
    apply lookup_lt_Some in Hrecord. unfold rangeToCheck. lia. }
  unfold inferred in Hinf. destruct (cells j (sample c)) as [cs|] eqn:Hcells; [|done].
  injection Hinf as Hdecided.
  pose proof (length_cells _ _ _ Hcells) as Hlen. rewrite length_sample in Hlen.
  apply mapM_Some in Hcells.
  destruct (Forall2_lookup_l _ _ _ _ _ Hcells Hsampled) as (v&Hcs&Hv).
  exists (convertedAt headers' j v). split; [by rewrite list_lookup_imap, Hv|].
  unfold convertedAt. rewrite Hj'. unfold decided in Hdecided.
  rewrite <-Hlen, !count_eqb_length in Hdecided.
  apply list_elem_of_lookup_2 in Hcs.
  destruct (forallb countsAsFloat cs) eqn:Hfloat.
  - subst column'. simpl. rewrite forallb_forall in Hfloat.
    apply list_elem_of_In, Hfloat in Hcs. destruct v as [s| |]; [|done..].
    simpl in *. by destruct (ParseFloat s).
  - destruct (forallb countsAsInt cs) eqn:Hint; [|by subst column'].
    subst column'. simpl. rewrite forallb_forall in Hint.
    apply list_elem_of_In, Hint in Hcs. destruct v as [s| |]; [|done..].
    simpl in *. destruct (ParseFloat s); [done|]. by destruct (strconv.ParseInt s).
Qed.

End InferenceProperties.

(** ** Columns of integers *)

Section IntegerColumns.
Context `{Strconv}.

(** [ParseFloat] accepts the decimal integers, as [strconv.ParseFloat]
    does. *)
Hypothesis ParseFloat_integers : forall s n,
  strconv.ParseInt s = Some n -> is_Some (ParseFloat s).

Lemma countsAsInt_never (v : value) : countsAsInt v = false.
Proof.
  destruct v as [s| |]; simpl; [|done..].
  destruct (ParseFloat s) eqn:Hfloat; [done|].
  destruct (strconv.ParseInt s) as [n|] eqn:Hint; [|done].
  destruct (ParseFloat_integers s n Hint) as [f Hf]. congruence.
Qed.

Lemma count_countsAsInt (cs : list value) : count countsAsInt cs = 0.
Proof. induction cs as [|v cs IH]; simpl; [done|]. by rewrite countsAsInt_never. Qed.

Lemma count_all {A} (p : A -> bool) (l : list A) :
  Forall (fun x => p x = true) l -> count p l = length l.
Proof. induction 1 as [|x l Hx _ IH]; simpl; [done|]. by rewrite Hx, IH. Qed.

(** The branch that assigns [IntegerType] is never taken. *)
Lemma inferColumnTypes_Float_or_unchanged (c c' : CSV) (j : nat) (column column' : Column) :
  inferColumnTypes c = Some c' ->
  Headers c !! j = Some column -> Headers c' !! j = Some column' ->
  column' = setType FloatType column \/ column' = column.
Proof.
  intros (headers'&->&_&Hinferred)%inferColumnTypes_Some Hj Hj'. simpl in Hj'.
  destruct (Hinferred j column Hj) as (column''&Hinf&Hj'').
  assert (column'' = column') as -> by congruence.
  unfold inferred in Hinf. destruct (cells j (sample c)) as [cs|] eqn:Hcells; [|done].
  injection Hinf as <-. rewrite count_countsAsInt. unfold decided.
  pose proof (count_le_length countsAsFloat cs) as Hle.
  apply length_mapM in Hcells. unfold sample in Hcells. rewrite length_take in Hcells.
  fold (rangeToCheck c) in Hcells.
  assert (length cs = rangeToCheck c) as Hlen by (unfold rangeToCheck in *; lia).
  destruct (Nat.eqb_spec (count countsAsFloat cs) (rangeToCheck c)); [by left|].
  destruct (Nat.eqb_spec 0 (rangeToCheck c)); [lia | by right].
Qed.

(** A column whose sampled cells all parse as 64-bit integers is made a
    Float column. *)
Lemma inferColumnTypes_integers_Float (c c' : CSV) (j : nat) (column' : Column) :
  inferColumnTypes c = Some c' ->
  Headers c' !! j = Some column' ->
  Forall (fun record => exists s n, record !! j = Some (VString s)
                                    /\ strconv.ParseInt s = Some n) (sample c) ->
  Type' column' = FloatType.
Proof.
  intros (headers'&->&Hlen&Hinferred)%inferColumnTypes_Some Hj' Hcolumn. simpl in Hj'.
  destruct (lookup_lt_is_Some_2 (Headers c) j) as [column Hj].
  { rewrite <-Hlen. by apply lookup_lt_Some with column'. }
  destruct (Hinferred j column Hj) as (column''&Hinf&Hj'').
  assert (column'' = column') as -> by congruence.
  unfold inferred in Hinf. destruct (cells j (sample c)) as [cs|] eqn:Hcells; [|done].
  injection Hinf as <-.
  assert (count countsAsFloat cs = rangeToCheck c) as ->.
  { apply mapM_Some in Hcells.
    assert (Forall (fun v => countsAsFloat v = true) cs) as Hall.
    { clear -Hcells Hcolumn ParseFloat_integers.
      induction Hcells as [|record v records cs Hv _ IH]; [constructor|].
      apply Forall_cons in Hcolumn as [(s&n&Hs&Hn) Hcolumn]. constructor; [|by apply IH].
      assert (v = VString s) as -> by congruence. simpl.
      by destruct (ParseFloat_integers s n Hn) as [f ->]. }
    rewrite (count_all _ _ Hall). apply Forall2_length in Hcells. rewrite <-Hcells.
    unfold sample, rangeToCheck. rewrite length_take. lia. }
  unfold decided. by rewrite Nat.eqb_refl.
Qed.

(** A table without Integer column and without 64-bit integer in its
    cells is turned into another such table. *)
Lemma ConvertColumnTypes_without_Integer (c c' : CSV) :
  Forall (fun column => Type' column <> IntegerType) (Headers c) ->
  Forall (Forall (fun v => ~ hasType IntegerType v)) (Records c) ->
  ConvertColumnTypes c = Some c' ->
  Forall (fun column => Type' column <> IntegerType) (Headers c')
  /\ Forall (Forall (fun v => ~ hasType IntegerType v)) (Records c').
Proof.
  intros Hcolumns Hcells (c1&Hinfer&_&->)%ConvertColumnTypes_Some.
  cbn [Headers Records setRecords].
  assert (Forall (fun column => Type' column <> IntegerType) (Headers c1)) as Hcolumns1.
  { apply Forall_lookup. intros j column' Hj'.
    pose proof Hinfer as (headers'&->&Hlen&_)%inferColumnTypes_Some.
    cbn [Headers setHeaders] in Hj'.
    destruct (lookup_lt_is_Some_2 (Headers c) j) as [column Hj].
    { rewrite <-Hlen. by apply lookup_lt_Some with column'. }
    rewrite Forall_lookup in Hcolumns. specialize (Hcolumns j column Hj).
    by destruct (inferColumnTypes_Float_or_unchanged _ _ j column column' Hinfer Hj Hj')
      as [->| ->]. }
  split; [done|]. apply Forall_fmap. eapply Forall_impl; [exact Hcells|].
  intros record Hrecord. simpl. apply Forall_lookup. intros j v'.
  rewrite list_lookup_imap. destruct (record !! j) as [v|] eqn:Hv; [|done].
  intros [= <-]. rewrite Forall_lookup in Hrecord. specialize (Hrecord j v Hv).
  unfold convertedAt. destruct (Headers c1 !! j) as [column'|] eqn:Hj'; [|done].
  rewrite Forall_lookup in Hcolumns1. specialize (Hcolumns1 j column' Hj').
  destruct v as [s| |], (Type' column'); simpl; try done.
  by destruct (ParseFloat s).
Qed.

End IntegerColumns.

(** ** The reference [strconv]: [ParseFloat] accepts what [ParseInt] accepts *)

Section Bounds.
Local Open Scope Z_scope.

Lemma digits2_pos_lower (p : positive) : 2 ^ (Zpos (digits2_pos p) - 1) <= Zpos p.
Proof.
  induction p as [p IH|p IH|]; simpl digits2_pos.
  - rewrite Pos2Z.inj_succ. replace (Z.succ (Zpos (digits2_pos p)) - 1) with (Z.succ (Zpos (digits2_pos p) - 1)) by lia.
    rewrite Z.pow_succ_r by lia. lia.
  - rewrite Pos2Z.inj_succ. replace (Z.succ (Zpos (digits2_pos p)) - 1) with (Z.succ (Zpos (digits2_pos p) - 1)) by lia.
    rewrite Z.pow_succ_r by lia. lia.
  - simpl. lia.
Qed.

Lemma digits2_pos_upper (p : positive) : Zpos p < 2 ^ Zpos (digits2_pos p).
Proof.
  induction p as [p IH|p IH|]; simpl digits2_pos.
  - rewrite Pos2Z.inj_succ, Z.pow_succ_r by lia. lia.
  - rewrite Pos2Z.inj_succ, Z.pow_succ_r by lia. lia.
  - simpl. lia.
Qed.

Lemma Zdigits2_le (m k : Z) : 0 <= k -> 0 <= m < 2 ^ k -> Zdigits2 m <= k.
Proof.
  intros Hk [Hm0 Hm]. destruct m as [|p|p]; simpl; [lia| |lia].
  pose proof (digits2_pos_lower p) as Hlow.
  destruct (Z_le_gt_dec (Zpos (digits2_pos p)) k) as [|Hgt]; [done|].
  assert (2 ^ k <= 2 ^ (Zpos (digits2_pos p) - 1)) by (apply Z.pow_le_mono_r; lia).
  lia.
Qed.

Lemma shr_1_m (mrs : shr_record) :
  0 <= shr_m mrs -> 0 <= shr_m (shr_1 mrs) <= shr_m mrs.
Proof.
  destruct mrs as [[|[p|p|]|p] r s]; simpl; lia.
Qed.

Lemma iter_shr_1_m (p : positive) (mrs : shr_record) :
  0 <= shr_m mrs -> 0 <= shr_m (SpecFloat.iter_pos shr_1 p mrs) <= shr_m mrs.
Proof.
  revert mrs. induction p as [p IH|p IH|]; intros mrs Hm; simpl.
  - pose proof (shr_1_m mrs Hm). pose proof (IH (shr_1 mrs) ltac:(lia)).
    pose proof (IH (SpecFloat.iter_pos shr_1 p (shr_1 mrs)) ltac:(lia)). lia.
  - pose proof (IH mrs Hm). pose proof (IH (SpecFloat.iter_pos shr_1 p mrs) ltac:(lia)). lia.
  - by apply shr_1_m.
Qed.

Lemma shr_fexp_bound (m e : Z) (l : location) (k : Z) :
  0 <= m < 2 ^ k -> 0 <= k ->
  0 <= shr_m (shr_fexp 53 1024 m e l).1 <= m
  /\ (shr_fexp 53 1024 m e l).2 <= Z.max e (Z.max (k + e - 53) (-1074)).
Proof.
  intros Hm Hk. unfold shr_fexp, shr.
  pose proof (Zdigits2_le m k Hk Hm) as Hd.
  assert (shr_m (shr_record_of_loc m l) = m) as Hrec by (by destruct l as [|[]]).
  assert (fexp 53 1024 (Zdigits2 m + e) <= Z.max (k + e - 53) (-1074)) as Hfexp.
  { unfold fexp, emin. lia. }
  destruct (fexp 53 1024 (Zdigits2 m + e) - e) as [|n|n] eqn:Hn; simpl.
  - rewrite Hrec. lia.
  - pose proof (iter_shr_1_m n (shr_record_of_loc m l) ltac:(lia)). rewrite Hrec in *.
    split; lia.
  - rewrite Hrec. lia.
Qed.

Lemma round_nearest_even_bound (m : Z) (l : location) :
  0 <= m -> 0 <= round_nearest_even m l <= m + 1.
Proof.
  intros Hm. destruct l as [|[]]; simpl; [lia| |lia..]. destruct (Z.even m); lia.
Qed.

Lemma digits2_pos_iter_xO (p d : positive) :
  Zpos (digits2_pos (Pos.iter xO p d)) = Zpos (digits2_pos p) + Zpos d.
Proof.
  induction d as [|d IH] using Pos.peano_ind.
  - simpl. lia.
  - rewrite Pos.iter_succ. simpl digits2_pos. lia.
Qed.

(** Rounding an integer below 2^64 does not overflow. *)
Lemma binary_normalize_finite (m : Z) (szero : bool) :
  Z.abs m < 2 ^ 64 ->
  forall s, binary_normalize 53 1024 m 0 szero <> S754_infinity s.
Proof.
  intros Hm s. unfold binary_normalize.
  assert (forall sx p, Zpos p < 2 ^ 64 ->
            binary_round 53 1024 sx p 0 <> S754_infinity s) as Hround.
  { clear. intros sx p Hp. unfold binary_round.
    pose proof (digits2_pos_upper p) as Hupper.
    pose proof (Zdigits2_le (Zpos p) 64 ltac:(lia) ltac:(lia)) as Hd. simpl in Hd.
    assert (exists mz ez,
              shl_align p 0 (fexp 53 1024 (Zpos (digits2_pos p) + 0)) = (mz, ez)
              /\ Zpos mz < 2 ^ 64 /\ ez <= 0) as (mz&ez&->&Hmz&Hez).
    { unfold shl_align, fexp, emin.
      destruct (Z.max (Zpos (digits2_pos p) + 0 - 53) (3 - 1024 - 53) - 0)
        as [|d|d] eqn:Hshift.
      - exists p, 0. repeat split; lia.
      - exists p, 0. repeat split; lia.
      - eexists _, _. split; [done|].
        pose proof (digits2_pos_upper (Pos.iter xO p d)) as Hup.
        rewrite digits2_pos_iter_xO in Hup.
        assert (Zpos (digits2_pos p) + Zpos d <= 64) as Hle by lia.
        assert (2 ^ (Zpos (digits2_pos p) + Zpos d) <= 2 ^ 64)
          by (apply Z.pow_le_mono_r; lia).
        split; lia. }
    unfold binary_round_aux.
    pose proof (shr_fexp_bound (Zpos mz) ez loc_Exact 64 ltac:(lia) ltac:(lia)) as [Hm1 He1].
    destruct (shr_fexp 53 1024 (Zpos mz) ez loc_Exact) as [mrs' e'] eqn:Hshr1.
    simpl in Hm1, He1.
    pose proof (round_nearest_even_bound (shr_m mrs') (loc_of_shr_record mrs') ltac:(lia))
      as Hround.
    pose proof (shr_fexp_bound (round_nearest_even (shr_m mrs') (loc_of_shr_record mrs'))
                  e' loc_Exact 65 ltac:(lia) ltac:(lia)) as [Hm2 He2].
    destruct (shr_fexp 53 1024 _ e' loc_Exact) as [mrs'' e''] eqn:Hshr2.
    simpl in Hm2, He2.
    destruct (shr_m mrs'') as [|m''|m'']; [done| |done].
    destruct (Z.leb_spec e'' (1024 - 53)); [done | lia]. }
  destruct m as [|p|p]; [done| |]; apply Hround; lia.
Qed.

End Bounds.

Section Integers.
Import strconv.

Lemma digit_character (c : ascii) (d : Z) :
  digitVal c = Some d ->
  isDigit c = true /\ d = (byte c - 48)%Z /\ (0 <= d <= 9)%Z
  /\ (Ascii.eqb c "0" = true -> d = 0%Z)
  /\ Ascii.eqb c "_" = false /\ Ascii.eqb c "." = false
  /\ Ascii.eqb c "+" = false /\ Ascii.eqb c "-" = false
  /\ Ascii.eqb c "i" = false /\ Ascii.eqb c "I" = false
  /\ Ascii.eqb c "n" = false /\ Ascii.eqb c "N" = false
  /\ (lower c =? 120)%Z = false
  /\ ((if ((65 <=? byte c) && (byte c <=? 90))%Z then (byte c + 32)%Z else byte c)
      =? byte "i")%Z = false.
Proof.
  destruct c as [[] [] [] [] [] [] [] []]; vm_compute; intros [= <-];
    repeat split; try reflexivity; try discriminate.
Qed.

Lemma readDigits_digits (s : string) (r : digitsRead) (m : Z) :
  digits s (mantissa r) = Some m ->
  sawdot r = false -> (nd r = 0 -> mantissa r = 0)%Z -> (0 <= nd r)%Z ->
  exists r',
    readDigits false s r = (r', EmptyString)
    /\ mantissa r' = m /\ sawdot r' = false /\ underscores r' = underscores r
    /\ (s <> EmptyString -> sawdigits r' = true).
Proof.
  revert r. induction s as [|c s IH]; intros r Hdigits Hdot Hzero Hnd.
  - simpl in *. injection Hdigits as <-. by exists r.
  - simpl in Hdigits. destruct (digitVal c) as [d|] eqn:Hc; [|done].
    apply digit_character in Hc as (Hdigit&Hd&_&Hd0&Hu&Hp&_). simpl.
    rewrite Hu, Hp, Hdigit.
    destruct (Ascii.eqb c "0" && (nd r =? 0)%Z) eqn:Hlead.
    + apply andb_prop in Hlead as [Hc0 Hnd0]. apply Z.eqb_eq in Hnd0.
      rewrite (Hd0 Hc0), (Hzero Hnd0) in Hdigits.
      edestruct (IH {| sawdot := sawdot r; sawdigits := true; nd := nd r;
                       dp := (dp r - 1)%Z; mantissa := mantissa r;
                       underscores := underscores r |}) as (r'&Hr'&?&?&?&?);
        simpl; try done.
      { by rewrite (Hzero Hnd0). }
      exists r'. rewrite Hr'. repeat split; try done.
      intros _. destruct s; [by injection Hr' as <-|auto].
    + edestruct (IH {| sawdot := sawdot r; sawdigits := true; nd := (nd r + 1)%Z;
                       dp := dp r; mantissa := (mantissa r * 10 + (byte c - 48))%Z;
                       underscores := underscores r |}) as (r'&Hr'&?&?&?&?);
        simpl; try done; try lia.
      { by rewrite <-Hd. }
      exists r'. rewrite Hr'. repeat split; try done.
      intros _. destruct s; [by injection Hr' as <-|auto].
Qed.

Lemma digits_nonneg (s : string) (a m : Z) :
  digits s a = Some m -> (0 <= a)%Z -> (0 <= m)%Z.
Proof.
  revert a. induction s as [|c s IH]; intros a; simpl.
  - by intros [= <-].
  - destruct (digitVal c) as [d|] eqn:Hc; [|done].
    apply digit_character in Hc as (_&_&?&_). intros Hm Ha. apply (IH _ Hm). lia.
Qed.


(** What [readFloat] and [special] make of a string of decimal digits
    [body], with or without a sign before it. *)
Lemma readFloat_digits (s body : string) (neg : bool) (m : Z) :
  match s with
  | EmptyString => False
  | String c s' =>
      (neg, body) = (if Ascii.eqb c "+" then (false, s')
                     else if Ascii.eqb c "-" then (true, s')
                     else (false, s))
  end ->
  body <> EmptyString ->
  digits body 0 = Some m ->
  special s = None /\ readFloat s = Some (neg, false, m, 0%Z).
Proof.
  destruct s as [|c s']; [done|]. intros Hsign Hbody Hdigits.
  destruct body as [|c0 body']; [done|].
  assert (exists d0, digitVal c0 = Some d0) as [d0 Hc0].
  { simpl in Hdigits. destruct (digitVal c0); [eauto | done]. }
  apply digit_character in Hc0 as (_&_&_&_&_&_&Hplus&Hminus&Hi&HI&Hn&HN&_&Hinf).
  assert (special (String c s') = None) as Hspecial.
  { unfold special.
    destruct (Ascii.eqb c "+"); [simplify_eq; simpl; by rewrite Hinf|].
    destruct (Ascii.eqb c "-"); [simplify_eq; simpl; by rewrite Hinf|].
    simplify_eq. by rewrite Hi, HI, Hn, HN. }
  split; [done|]. unfold readFloat.
  assert ((if Ascii.eqb c "+" then (false, s')
           else if Ascii.eqb c "-" then (true, s') else (false, String c s'))
          = (neg, String c0 body')) as -> by done.
  assert ((match String c0 body' with
           | String c0 (String c1 (String c2 s3)) =>
               if Ascii.eqb c0 "0" && (lower c1 =? 120)%Z
               then (true, String c2 s3) else (false, String c0 body')
           | _ => (false, String c0 body')
           end) = (false, String c0 body')) as ->.
  { destruct body' as [|c1 [|c2 s3]]; [done..|].
    simpl in Hdigits. destruct (digitVal c0); [|done].
    destruct (digitVal c1) eqn:Hc1; [|done].
    apply digit_character in Hc1 as (_&_&_&_&_&_&_&_&_&_&_&_&->&_).
    by rewrite andb_false_r. }
  destruct (readDigits_digits (String c0 body')
              {| sawdot := false; sawdigits := false; nd := 0; dp := 0; mantissa := 0;
                 underscores := false |} m Hdigits)
    as (r'&->&Hm&Hdot&Hunder&Hsaw); try done.
  rewrite Hsaw by done. simpl. rewrite Hdot, Hunder. simpl.
  by rewrite Hm, Z.sub_diag.
Qed.

Theorem ParseFloat_of_ParseInt (s : string) (n : Z) :
  ParseInt s = Some n -> is_Some (ParseFloat s).
Proof.
  unfold ParseInt, ParseInt'. destruct s as [|c s']; [done|].
  destruct (if Ascii.eqb c "+" then (false, s')
            else if Ascii.eqb c "-" then (true, s') else (false, String c s'))
    as [neg body] eqn:Hsign.
  unfold ParseUint. destruct body as [|c0 body'] eqn:Hbody; [done|]. rewrite <-Hbody in *.
  destruct (digits body 0) as [m|] eqn:Hdigits; [|by subst].
  assert (body <> EmptyString) as Hne by (by subst).
  pose proof (digits_nonneg body 0 m Hdigits ltac:(lia)) as Hm0.
  destruct (readFloat_digits (String c s') body neg m (eq_sym Hsign) Hne Hdigits)
    as [Hspecial Hread].
  intros Hint. unfold ParseFloat. rewrite Hspecial, Hread.
  assert (m <= 2 ^ 63)%Z as Hm.
  { replace (match body with EmptyString => (0%Z, Some ErrSyntax) | _ =>
               if (m <=? maxUint64)%Z then (m, None) else (maxUint64, Some ErrRange) end)
      with (if (m <=? maxUint64)%Z then (m, @None NumError) else (maxUint64, Some ErrRange))
      in Hint by (by subst).
    unfold maxUint64 in Hint.
    destruct (Z.leb_spec m (2 ^ 64 - 1)) as [Hle|Hgt].
    - destruct neg; cbn [negb andb] in Hint.
      + destruct (Z.ltb_spec (2 ^ 63) m); [done | lia].
      + destruct (Z.leb_spec (2 ^ 63) m); [done | lia].
    - destruct neg; vm_compute in Hint; done. }
  unfold nearest. destruct (Z.eqb_spec m 0); [by eexists|].
  simpl. change (10 ^ 0)%Z with 1%Z.
  pose proof (binary_normalize_finite ((if neg then - m else m) * 1) neg) as Hfinite.
  destruct (binary_normalize 53 1024 ((if neg then - m else m) * 1) 0 neg) eqn:Hnorm;
    try by eexists.
  exfalso. refine (Hfinite _ _ eq_refl). destruct neg; lia.
Qed.

End Integers.

(** ** processFiles *)

Section ProcessFilesProperties.
Context `{Strconv, Sources, Strings}.
Variable delimiter : rune.

Lemma started_app (tr1 tr2 : list event) : started (tr1 ++ tr2) = started tr1 ++ started tr2.
Proof. apply omap_app. Qed.

Lemma readCalls_app (tr1 tr2 : list event) :
  readCalls (tr1 ++ tr2) = readCalls tr1 ++ readCalls tr2.
Proof. apply omap_app. Qed.

Lemma received_app (tr1 tr2 : list event) :
  received (tr1 ++ tr2) = received tr1 ++ received tr2.
Proof. apply omap_app. Qed.

Lemma mergeCalls_app (tr1 tr2 : list event) :
  mergeCalls (tr1 ++ tr2) = mergeCalls tr1 ++ mergeCalls tr2.
Proof. apply omap_app. Qed.

Lemma errorsOf_app (rs1 rs2 : list processResult) :
  errorsOf (rs1 ++ rs2) = errorsOf rs1 ++ errorsOf rs2.
Proof. apply omap_app. Qed.

Lemma filesOf_app (rs1 rs2 : list processResult) :
  filesOf (rs1 ++ rs2) = filesOf rs1 ++ filesOf rs2.
Proof. apply omap_app. Qed.

Lemma donePaths_app (ws1 ws2 : list worker) :
  donePaths (ws1 ++ ws2) = donePaths ws1 ++ donePaths ws2.
Proof. apply omap_app. Qed.

Lemma donePaths_all (ws : list worker) :
  forallb isDone ws = true -> donePaths ws = map pathOf ws.
Proof.
  induction ws as [|w ws IH]; simpl; [done|].
  intros [Hw Hws]%andb_prop. destruct w; try done. simpl. f_equal. by apply IH.
Qed.

Lemma received_conclude (errors : list error) (files : list CSV) :
  received (conclude errors files).2 = [].
Proof.
  unfold conclude. destruct (0 <? length errors); [done|].
  by destruct (length files =? 0).
Qed.

Ltac trace_simpl :=
  cbn [main workers closed trace];
  rewrite ?started_app, ?received_app, ?mergeCalls_app, ?readCalls_app,
    ?donePaths_app, ?map_app, ?forallb_app; simpl;
  rewrite ?app_nil_r.

Lemma reached_processFiles (filePaths : list string) :
  reached delimiter filePaths (processFiles filePaths).
Proof.
  split; [constructor|]. split; [done|]. split; [done|]. by exists [].
Qed.

Lemma reached_step (filePaths : list string) (cfg cfg' : config) :
  reached delimiter filePaths cfg -> step delimiter cfg cfg' ->
  reached delimiter filePaths cfg'.
Proof.
  intros (Hsound&Hstarted&Hreceived&Hmain) Hstep.
  destruct Hstep as [filePath rest ws cl tr Hinvalid|filePath rest ws cl tr Hvalid'
    |ws cl tr|m ws1 filePath ws2 cl tr|errors files ws1 filePath result ws2 tr
    |errors files ws tr Hdone'|errors files ws tr]; unfold reached; cbn [main workers closed trace] in *.
  - (* the path is not valid *)
    destruct Hmain as (before&->&Hvalid&Hpaths&Hrec&Hmerge&_).
    split_and!; [done..|]. left. by exists before, filePath, rest.
  - (* a goroutine is started *)
    destruct Hmain as (before&->&Hvalid&Hpaths&Hrec&Hmerge&Hclosed).
    trace_simpl. split_and!.
    + apply Forall_app. split; [done|]. by repeat constructor.
    + by rewrite Hstarted.
    + done.
    + exists (before ++ [filePath]). trace_simpl. split_and!; try done.
      * by rewrite <-app_assoc.
      * unfold validPath at 2. by rewrite Hvalid, Hvalid'.
      * by rewrite Hpaths.
  - (* the loop over the paths is over *)
    destruct Hmain as (before&->&Hvalid&Hpaths&Hrec&Hmerge&Hclosed).
    rewrite app_nil_r in *. split_and!; try done.
    + by rewrite Hrec.
    + by rewrite Hrec.
    + congruence.
  - (* a worker has read its file *)
    assert (Forall (sound delimiter)
              (ws1 ++ Sending filePath (work delimiter filePath) :: ws2)) as Hsound'.
    { apply Forall_app in Hsound as [Hws1 Hws2]. apply Forall_cons in Hws2 as [_ Hws2].
      apply Forall_app. split; [done|]. by constructor. }
    revert Hstarted Hreceived Hmain. trace_simpl. intros Hstarted Hreceived Hmain.
    split_and!; done.
  - (* a result is received *)
    apply Forall_app in Hsound as [Hws1 Hws2]. apply Forall_cons in Hws2 as [Hw Hws2].
    simpl in Hw. subst result.
    destruct Hmain as (Hvalid&Hpaths&->&->&Hmerge&_).
    revert Hstarted Hreceived Hpaths. trace_simpl. intros Hstarted Hreceived Hpaths.
    split_and!.
    + apply Forall_app. split; [done|]. by constructor.
    + done.
    + rewrite Hreceived. etrans; [symmetry; apply Permutation_cons_append|].
      apply Permutation_middle.
    + destruct (work delimiter filePath) as [err|file]; simpl;
        trace_simpl; rewrite errorsOf_app, filesOf_app; simpl; rewrite ?app_nil_r;
        split_and!; done.
  - (* the channel is closed *)
    destruct Hmain as (?&?&?&?&?&?). split_and!; done.
  - (* the loop over the channel is over *)
    destruct Hmain as (Hvalid&Hpaths&->&->&Hmerge&Hdone).
    trace_simpl. rewrite !received_conclude, !app_nil_r.
    split_and!; try done.
    + rewrite Hstarted. unfold conclude.
      destruct (0 <? _); [by rewrite app_nil_r|].
      destruct (_ =? 0); [by rewrite app_nil_r|]. by trace_simpl.
    + right. split_and!; try done.
      * by apply Hdone.
      * by rewrite Hmerge.
Qed.

Lemma runs_reached (filePaths : list string) (cfg : config) :
  runs delimiter filePaths cfg -> reached delimiter filePaths cfg.
Proof.
  unfold runs. revert cfg. apply rtc_ind_r.
  - apply reached_processFiles.
  - intros cfg1 cfg2 _ Hstep IH. by apply reached_step with cfg1.
Qed.

(** *** Every run is finite and can be continued until the call returns *)

Lemma step_stepsLeft (cfg cfg' : config) :
  step delimiter cfg cfg' -> stepsLeft cfg' < stepsLeft cfg.
Proof.
  destruct 1; unfold stepsLeft; cbn [main workers closed trace];
    rewrite ?sum_list_with_app; simpl; try lia.
  - destruct cl; lia.
  - destruct (collect errors files result) eqn:Hcollect; try lia;
      by destruct result.
Qed.

Lemma workers_pending (ws : list worker) :
  forallb isDone ws = true
  \/ exists ws1 w ws2, ws = ws1 ++ w :: ws2 /\ isDone w = false.
Proof.
  induction ws as [|w ws [IH|(ws1&w'&ws2&->&Hw')]]; simpl.
  - by left.
  - destruct (isDone w) eqn:Hw; [by left|]. right. by exists [], w, ws.
  - right. by exists (w :: ws1), w', ws2.
Qed.

Lemma step_progress (cfg : config) :
  hasReturned cfg \/ exists cfg', step delimiter cfg cfg'.
Proof.
  destruct cfg as [[[|filePath rest]|errors files|r] ws cl tr].
  - right. eexists. apply step_range.
  - right. destruct (HasSuffix (TrimSpace filePath) ".csv") eqn:Hvalid.
    + eexists. by apply step_go.
    + eexists. by apply step_invalid.
  - right. destruct cl; [eexists; apply step_return|].
    destruct (workers_pending ws) as [Hdone|(ws1&w&ws2&->&Hw)].
    + eexists. by apply step_close.
    + destruct w as [filePath|filePath result|filePath]; [| |done].
      * eexists. apply step_read.
      * eexists. apply step_receive.
  - left. by exists r.
Qed.

Lemma can_return (cfg : config) :
  exists cfg', rtc (step delimiter) cfg cfg' /\ hasReturned cfg'.
Proof.
  remember (stepsLeft cfg) as n eqn:Hn. revert cfg Hn.
  induction n as [n IH] using lt_wf_ind. intros cfg ->.
  destruct (step_progress cfg) as [Hret|[cfg1 Hstep]].
  - by exists cfg.
  - destruct (IH (stepsLeft cfg1) (step_stepsLeft _ _ Hstep) cfg1 eq_refl)
      as (cfg'&Hrun&Hret).
    exists cfg'. split; [|done]. by apply rtc_l with cfg1.
Qed.

(** *** Schedules are runs *)

Lemma exec_step (a : action) (cfg cfg' : config) :
  exec delimiter a cfg = Some cfg' -> step delimiter cfg cfg'.
Proof.
  destruct cfg as [m ws cl tr]. destruct a as [|i|i|]; unfold exec; cbn [main workers closed trace].
  - destruct m as [[|filePath rest]|errors files|r].
    + intros [= <-]. apply step_range.
    + destruct (HasSuffix (TrimSpace filePath) ".csv") eqn:Hvalid; intros [= <-].
      * by apply step_go.
      * by apply step_invalid.
    + destruct cl; [|done]. intros [= <-]. apply step_return.
    + done.
  - destruct (ws !! i) as [[filePath|?|?]|] eqn:Hi; [|done..]. intros [= <-].
    rewrite insert_take_drop by by apply lookup_lt_Some with (Reading filePath).
    rewrite <-(take_drop_middle ws i (Reading filePath)) at 1 by done.
    apply step_read.
  - destruct m as [|errors files|]; [done| |done]. destruct cl; [done|].
    destruct (ws !! i) as [[?|filePath result|?]|] eqn:Hi; [done| |done..].
    intros [= <-].
    rewrite insert_take_drop by by apply lookup_lt_Some with (Sending filePath result).
    rewrite <-(take_drop_middle ws i (Sending filePath result)) at 1 by done.
    apply step_receive.
  - destruct m as [|errors files|]; [done| |done]. destruct cl; [done|].
    destruct (forallb isDone ws) eqn:Hdone; [|done]. intros [= <-].
    by apply step_close.
Qed.

Lemma schedule_runs (filePaths : list string) (actions : list action) (cfg : config) :
  schedule delimiter filePaths actions = Some cfg -> runs delimiter filePaths cfg.
Proof.
  unfold schedule, runs. generalize (processFiles filePaths) as cfg0.
  induction actions as [|a actions IH]; intros cfg0; simpl.
  - by intros [= ->].
  - destruct (exec delimiter a cfg0) as [cfg1|] eqn:Hexec; simpl; [|done].
    intros Hrest. apply rtc_l with cfg1; [by apply exec_step with a | by apply IH].
Qed.

(** *** What the call returns *)

Lemma first_invalid (filePaths : list string) :
  forallb validPath filePaths = false ->
  exists before filePath rest,
    filePaths = before ++ filePath :: rest
    /\ forallb validPath before = true
    /\ validPath filePath = false.
Proof.
  induction filePaths as [|p filePaths IH]; simpl; [done|].
  destruct (validPath p) eqn:Hp; simpl.
  - intros (before&filePath&rest&->&Hbefore&Hinvalid)%IH.
    exists (p :: before), filePath, rest. simpl. by rewrite Hp, Hbefore.
  - intros _. by exists [], p, filePaths.
Qed.

Lemma returned_all_valid (filePaths : list string) (cfg : config) (r : error + CSV) :
  forallb validPath filePaths = true ->
  runs delimiter filePaths cfg ->
  main cfg = Returned r ->
  received (trace cfg) ≡ₚ outcomes delimiter filePaths
  /\ r = (conclude (errorsOf (received (trace cfg))) (filesOf (received (trace cfg)))).1
  /\ mergeCalls (trace cfg)
     = mergeCalls (conclude (errorsOf (received (trace cfg)))
                            (filesOf (received (trace cfg)))).2.
Proof.
  intros Hvalid (_&_&Hreceived&Hmain)%runs_reached Hr. rewrite Hr in Hmain.
  destruct Hmain as [(before&p&rest&->&_&Hp&_)|(_&Hpaths&Hdone&->&Hmerge)].
  - rewrite forallb_app in Hvalid. simpl in Hvalid. rewrite Hp in Hvalid.
    by rewrite andb_false_r in Hvalid.
  - split; [|done]. rewrite Hreceived, (donePaths_all _ Hdone), Hpaths.
    unfold outcomes. by rewrite map_map.
Qed.

(** C5: when every path has the extension and at least one [Read]
    fails, the call can always go on to return, and what it returns is
    [AggregatedReadError] with the error of every worker that failed, in the
    order in which they were received; [Merge] is not called. *)
Theorem processFiles_read_errors (filePaths : list string) (cfg : config) :
  filePaths <> [] ->
  forallb validPath filePaths = true ->
  Exists (fun filePath =>
            exists err, Read (New [WithFilePath (TrimSpace filePath);
                                   WithDelimiter delimiter]) = inl err) filePaths ->
  runs delimiter filePaths cfg ->
  (exists cfg', rtc (step delimiter) cfg cfg' /\ hasReturned cfg')
  /\ forall r, main cfg = Returned r ->
       exists errors,
         r = inl (AggregatedReadError errors)
         /\ errors = errorsOf (received (trace cfg))
         /\ errors ≡ₚ errorsOf (outcomes delimiter filePaths)
         /\ mergeCalls (trace cfg) = [].
Proof.
  intros _ Hvalid Hfails Hruns. split; [apply can_return|]. intros r Hr.
  destruct (returned_all_valid filePaths cfg r Hvalid Hruns Hr) as (Hrec&->&Hmerge).
  assert (errorsOf (received (trace cfg)) ≡ₚ errorsOf (outcomes delimiter filePaths))
    as Herrors by (unfold errorsOf; by rewrite Hrec).
  assert (0 < length (errorsOf (received (trace cfg)))) as Hlen.
  { rewrite Herrors. apply Exists_exists in Hfails as (p&Hin&err&Hread).
    apply list_elem_of_split in Hin as (l1&l2&->). unfold outcomes, work.
    rewrite map_app, errorsOf_app, length_app. simpl. rewrite Hread. simpl. lia. }
  exists (errorsOf (received (trace cfg))).
  unfold conclude in *. apply Nat.ltb_lt in Hlen. rewrite Hlen in *. done.
Qed.

(** C4, as the code has it: when every path has the extension and every
    [Read] succeeds, the call can always go on to return, and when it has
    returned the tables it has collected are the tables of the paths, in the
    order in which they were received; if there is a path at all, [Merge] is
    called once, with these tables in this order, and its result is
    returned. *)
Theorem processFiles_merges_as_received (filePaths : list string) (cfg : config) :
  forallb validPath filePaths = true ->
  Forall (fun filePath =>
            exists file, Read (New [WithFilePath (TrimSpace filePath);
                                    WithDelimiter delimiter]) = inr file) filePaths ->
  runs delimiter filePaths cfg ->
  (exists cfg', rtc (step delimiter) cfg cfg' /\ hasReturned cfg')
  /\ forall r, main cfg = Returned r ->
       exists files,
         files = filesOf (received (trace cfg))
         /\ files ≡ₚ filesOf (outcomes delimiter filePaths)
         /\ (filePaths <> [] -> mergeCalls (trace cfg) = [files] /\ r = Merge files).
Proof.
  intros Hvalid Hreads Hruns. split; [apply can_return|]. intros r Hr.
  destruct (returned_all_valid filePaths cfg r Hvalid Hruns Hr) as (Hrec&->&Hmerge).
  assert (errorsOf (outcomes delimiter filePaths) = []) as Hnone.
  { clear -Hreads. induction Hreads as [|p ps (file&Hread) _ IH]; [done|].
    unfold outcomes, work in *. simpl. by rewrite Hread. }
  assert (length (filesOf (outcomes delimiter filePaths)) = length filePaths) as Hall.
  { clear -Hreads. induction Hreads as [|p ps (file&Hread) _ IH]; [done|].
    unfold outcomes, work in *. simpl. rewrite Hread. simpl. by rewrite IH. }
  assert (errorsOf (received (trace cfg)) = []) as Herrors.
  { apply Permutation_nil_r. rewrite <-Hnone. unfold errorsOf. by rewrite Hrec. }
  assert (filesOf (received (trace cfg)) ≡ₚ filesOf (outcomes delimiter filePaths))
    as Hfiles by (unfold filesOf; by rewrite Hrec).
  exists (filesOf (received (trace cfg))). split; [done|]. split; [done|].
  intros Hpaths. unfold conclude in *. rewrite Herrors in *. simpl in *.
  destruct (Nat.eqb_spec (length (filesOf (received (trace cfg)))) 0) as [Hlen|Hlen].
  - rewrite Hfiles, Hall in Hlen. by destruct filePaths.
  - done.
Qed.

(** C3, as the code has it: when some path, once trimmed of white space,
    does not end in [".csv"], the call can always go on to return, and it
    returns [InvalidInputFormat]; no goroutine is started for the first such
    path (every path before it is valid) or for a path after it, no result
    is received, and [Merge] is not called. *)
Theorem processFiles_invalid_format (filePaths : list string) (cfg : config) :
  Exists (fun filePath => HasSuffix (TrimSpace filePath) ".csv" = false) filePaths ->
  runs delimiter filePaths cfg ->
  (exists cfg', rtc (step delimiter) cfg cfg' /\ hasReturned cfg')
  /\ (forall r, main cfg = Returned r -> r = inl InvalidInputFormat)
  /\ (exists before filePath rest,
        filePaths = before ++ filePath :: rest
        /\ forallb validPath before = true
        /\ HasSuffix (TrimSpace filePath) ".csv" = false
        /\ started (trace cfg) `prefix_of` map TrimSpace before)
  /\ received (trace cfg) = []
  /\ mergeCalls (trace cfg) = [].
Proof.
  intros Hinvalid Hruns. split; [apply can_return|].
  assert (forallb validPath filePaths = false) as Hsome.
  { apply Exists_exists in Hinvalid as (p&Hin&Hp).
    apply list_elem_of_split in Hin as (l1&l2&->).
    rewrite forallb_app. simpl. unfold validPath at 2. rewrite Hp.
    by rewrite andb_false_r. }
  apply runs_reached in Hruns as (_&Hstarted&_&Hmain).
  destruct (main cfg) as [rest|errors files|r].
  - destruct Hmain as (before&->&Hbefore&Hpaths&Hrec&Hmerge&_).
    rewrite forallb_app, Hbefore in Hsome. simpl in Hsome.
    apply first_invalid in Hsome as (before'&p&rest'&->&Hbefore'&Hp).
    split_and!; try done.
    exists (before ++ before'), p, rest'. rewrite <-app_assoc. split_and!; try done.
    + by rewrite forallb_app, Hbefore, Hbefore'.
    + rewrite Hstarted, Hpaths, map_app. by apply prefix_app_r.
  - destruct Hmain as (Hvalid&_). congruence.
  - destruct Hmain as [(before&p&rest&->&Hbefore&Hp&->&Hpaths&Hrec&Hmerge)
                      |(Hvalid&_)]; [|congruence].
    split_and!; try done.
    + by intros ? [= <-].
    + exists before, p, rest. split_and!; try done. by rewrite Hstarted, Hpaths.
Qed.

(** *** The reads, and the closing of the channel *)

Lemma readPaths_app (ws1 ws2 : list worker) :
  readPaths (ws1 ++ ws2) = readPaths ws1 ++ readPaths ws2.
Proof. apply omap_app. Qed.

Lemma readPaths_all (ws : list worker) :
  forallb isDone ws = true -> readPaths ws = map pathOf ws.
Proof.
  induction ws as [|w ws IH]; simpl; [done|].
  intros [Hw Hws]%andb_prop. destruct w; try done. simpl. f_equal. by apply IH.
Qed.

Lemma workers_all_done (ws : list worker) :
  forallb isDone ws = true -> ws = map Done (map pathOf ws).
Proof.
  induction ws as [|w ws IH]; simpl; [done|].
  intros [Hw Hws]%andb_prop. destruct w; try done. simpl. f_equal. by apply IH.
Qed.

Lemma donePaths_nil (ws : list worker) :
  donePaths ws = [] -> Forall (fun w => isDone w = false) ws.
Proof.
  induction ws as [|w ws IH]; [constructor|]. destruct w; simpl; try done.
  - intros Hws. constructor; [done | by apply IH].
  - intros Hws. constructor; [done | by apply IH].
Qed.

Lemma readCalls_conclude (errors : list error) (files : list CSV) :
  readCalls (conclude errors files).2 = [].
Proof.
  unfold conclude. destruct (0 <? length errors); [done|].
  by destruct (length files =? 0).
Qed.

Lemma conclude_not_invalid (errors : list error) (files : list CSV) :
  isInvalidInputFormat (conclude errors files).1 = false.
Proof.
  unfold conclude. destruct (0 <? length errors); [done|].
  destruct (length files =? 0); [done|]. simpl.
  destruct (Merge files) as [e|merged] eqn:HM; [|done].
  apply Merge_inl in HM as [[_ ->]|(first&rest&file&_&_&->)]; done.
Qed.


Lemma accounted_processFiles (filePaths : list string) :
  accounted (processFiles filePaths).
Proof. by split. Qed.

Lemma accounted_step (cfg cfg' : config) :
  accounted cfg -> step delimiter cfg cfg' -> accounted cfg'.
Proof.
  intros [Hreads Hclosed] Hstep.
  destruct Hstep as [filePath rest ws cl tr Hinvalid|filePath rest ws cl tr Hvalid
    |ws cl tr|m ws1 filePath ws2 cl tr|errors files ws1 filePath result ws2 tr
    |errors files ws tr Hdone|errors files ws tr];
    unfold accounted in *; cbn [main workers closed trace] in *.
  - done.
  - rewrite readCalls_app, readPaths_app. simpl. by rewrite !app_nil_r.
  - done.
  - split; [|done]. revert Hreads. rewrite readCalls_app, !readPaths_app. simpl.
    intros ->. etrans; [symmetry; apply Permutation_cons_append|].
    apply Permutation_middle.
  - split; [|by destruct result]. revert Hreads.
    rewrite readCalls_app, !readPaths_app. simpl. by rewrite app_nil_r.
  - done.
  - rewrite readCalls_app, readCalls_conclude, app_nil_r, conclude_not_invalid. done.
Qed.

Lemma runs_accounted (filePaths : list string) (cfg : config) :
  runs delimiter filePaths cfg -> accounted cfg.
Proof.
  unfold runs. revert cfg. apply rtc_ind_r.
  - apply accounted_processFiles.
  - intros cfg1 cfg2 _ Hstep IH. by apply accounted_step with cfg1.
Qed.

Lemma nsteps_stepsLeft (n : nat) (cfg cfg' : config) :
  nsteps (step delimiter) n cfg cfg' -> n + stepsLeft cfg' <= stepsLeft cfg.
Proof.
  induction 1 as [cfg|n cfg cfg1 cfg' Hstep _ IH]; [lia|].
  apply step_stepsLeft in Hstep. lia.
Qed.

Lemma schedule_nsteps (filePaths : list string) (actions : list action) (cfg : config) :
  schedule delimiter filePaths actions = Some cfg ->
  nsteps (step delimiter) (length actions) (processFiles filePaths) cfg.
Proof.
  unfold schedule. generalize (processFiles filePaths) as cfg0.
  induction actions as [|a actions IH]; intros cfg0; simpl.
  - intros [= ->]. constructor.
  - destruct (exec delimiter a cfg0) as [cfg1|] eqn:Hexec; simpl; [|done].
    intros Hrest. apply nsteps_l with cfg1; [by apply exec_step with a | by apply IH].
Qed.

Lemma invalid_path (filePaths : list string) :
  Exists (fun filePath => HasSuffix (TrimSpace filePath) ".csv" = false) filePaths ->
  forallb validPath filePaths = false.
Proof.
  intros (p&Hin&Hp)%Exists_exists. apply list_elem_of_split in Hin as (l1&l2&->).
  rewrite forallb_app. simpl. unfold validPath at 2. rewrite Hp.
  by rewrite andb_false_r.
Qed.


(** X17: the call ends. A run of a call with [n] paths has at most
    [3 * n + 3] steps, and in a configuration from which no step can be
    taken the call has returned: the goroutines neither go on for ever nor
    block each other before that. *)
Theorem processFiles_terminates (filePaths : list string) (n : nat) (cfg : config) :
  nsteps (step delimiter) n (processFiles filePaths) cfg ->
  n <= 3 * length filePaths + 3
  /\ ((forall cfg', ~ step delimiter cfg cfg') -> hasReturned cfg).
Proof.
  intros Hsteps%nsteps_stepsLeft. split.
  - unfold stepsLeft in Hsteps at 2. simpl in Hsteps. lia.
  - intros Hstuck. destruct (step_progress cfg) as [|[cfg' Hstep]]; [done|].
    by destruct (Hstuck cfg').
Qed.

(** X18: a call with a path that is not valid leaves its goroutines
    blocked. In every configuration such a call reaches the channel is not
    closed and no worker is done: a goroutine started before the path was
    met reads its file and waits on its send, which nothing receives. Once
    the call has returned there is one such goroutine for each path before
    the first that is not valid. *)
Theorem processFiles_invalid_path_blocks (filePaths : list string) (cfg : config) :
  Exists (fun filePath => HasSuffix (TrimSpace filePath) ".csv" = false) filePaths ->
  runs delimiter filePaths cfg ->
  closed cfg = false
  /\ Forall (fun w => isDone w = false) (workers cfg)
  /\ (hasReturned cfg ->
      exists before filePath rest,
        filePaths = before ++ filePath :: rest
        /\ forallb validPath before = true
        /\ validPath filePath = false
        /\ map pathOf (workers cfg) = map TrimSpace before).
Proof.
  intros Hinvalid%invalid_path Hruns.
  pose proof (runs_accounted _ _ Hruns) as [_ Hclosed].
  apply runs_reached in Hruns as (_&_&Hreceived&Hmain).
  destruct (main cfg) as [rest|errors files|r] eqn:Hm.
  - destruct Hmain as (before&_&_&_&Hrec&_). rewrite Hrec in Hreceived.
    symmetry in Hreceived. apply Permutation_nil_r, fmap_nil_inv in Hreceived.
    split_and!; [done | by apply donePaths_nil|]. intros [r Hr]. congruence.
  - destruct Hmain as (Hvalid&_). congruence.
  - destruct Hmain as [(before&p&rest&->&Hbefore&Hp&->&Hpaths&Hrec&_)|(Hvalid&_)];
      [|congruence].
    rewrite Hrec in Hreceived.
    symmetry in Hreceived. apply Permutation_nil_r, fmap_nil_inv in Hreceived.
    split_and!; [done | by apply donePaths_nil|]. intros _.
    by exists before, p, rest.
Qed.

(** X19: on the path without failure nothing is left behind. When every
    path is valid and the call has returned, the channel is closed, there is
    one worker for each path, in the order of the paths, and each is done;
    [Read] has been called once for each path, on the path trimmed of white
    space; and one result has been received for each path. *)
Theorem processFiles_reads_each_once (filePaths : list string) (cfg : config)
  (r : error + CSV) :
  forallb validPath filePaths = true ->
  runs delimiter filePaths cfg -> main cfg = Returned r ->
  closed cfg = true
  /\ workers cfg = map (fun filePath => Done (TrimSpace filePath)) filePaths
  /\ started (trace cfg) = map TrimSpace filePaths
  /\ readCalls (trace cfg) ≡ₚ map TrimSpace filePaths
  /\ received (trace cfg) ≡ₚ outcomes delimiter filePaths.
Proof.
  intros Hvalid Hruns Hr.
  pose proof (runs_accounted _ _ Hruns) as [Hreads Hclosed].
  destruct (returned_all_valid filePaths cfg r Hvalid Hruns Hr) as (Hrec&Hresult&_).
  apply runs_reached in Hruns as (_&Hstarted&_&Hmain).
  rewrite Hr in Hmain, Hclosed.
  destruct Hmain as [(before&p&rest&->&_&Hp&_)|(_&Hpaths&Hdone&_)].
  { rewrite forallb_app in Hvalid. simpl in Hvalid. rewrite Hp in Hvalid.
    by rewrite andb_false_r in Hvalid. }
  split_and!.
  - by rewrite Hclosed, Hresult, conclude_not_invalid.
  - rewrite (workers_all_done _ Hdone), Hpaths. by rewrite map_map.
  - by rewrite Hstarted.
  - by rewrite Hreads, (readPaths_all _ Hdone), Hpaths.
  - done.
Qed.

(** *** The result, whatever the interleaving *)

Lemma concat_Permutation {A} (ls1 ls2 : list (list A)) :
  ls1 ≡ₚ ls2 -> concat ls1 ≡ₚ concat ls2.
Proof.
  induction 1 as [|l ls1 ls2 _ IH|l1 l2 ls|ls1 ls2 ls3 _ IH1 _ IH2]; simpl.
  - done.
  - by rewrite IH.
  - rewrite !app_assoc. by rewrite (Permutation_app_comm l1 l2).
  - by rewrite IH1.
Qed.

Lemma Merge_Permutation (files1 files2 : list CSV) (comma : rune) :
  files1 ≡ₚ files2 ->
  Forall (fun file => Delimiter file = comma) files1 ->
  sameOutcome (Merge files1) (Merge files2).
Proof.
  intros Hperm Hcomma.
  assert (Forall (fun file => Delimiter file = comma) files2) as Hcomma2
    by (by rewrite <-Hperm).
  destruct files1 as [|first1 rest1].
  { apply Permutation_nil_l in Hperm as <-. by cbn. }
  destruct files2 as [|first2 rest2].
  { by apply Permutation_nil_r in Hperm. }
  destruct (Merge (first1 :: rest1)) as [e1|merged1] eqn:HM1.
  - assert (exists filePath first, e1 = SchemaMismatch filePath first) as (?&?&->).
    { apply Merge_inl in HM1 as [[? _]|(?&?&?&_&_&->)]; [done | eauto]. }
    assert (exists e, Merge (first1 :: rest1) = inl e) as Hfails by eauto.
    apply Merge_fails_iff in Hfails as [?|(first&[= <-]&Hex)]; [done|].
    assert (exists e, Merge (first2 :: rest2) = inl e) as [e2 HM2].
    { apply Merge_fails_iff. right. exists first2. split; [done|].
      unfold sameColumnCount in *.
      apply Exists_exists in Hex as (file&Hin&Hne).
      destruct (decide (length (Headers first2) = length (Headers first1))) as [Heq|Hne2].
      - apply Exists_exists. exists file. split; [by rewrite <-Hperm | congruence].
      - apply Exists_exists. exists first1. split; [|congruence].
        rewrite <-Hperm. by left. }
    rewrite HM2. by apply Merge_inl in HM2 as [[? _]|(?&?&?&_&_&->)].
  - apply Merge_inr_inv in HM1 as (first&[= <-]&Hcounts&->).
    rewrite (Merge_inr (first2 :: rest2) first2); [|done|].
    + simpl. apply Forall_cons in Hcomma as [-> _].
      apply Forall_cons in Hcomma2 as [-> _]. split_and!; [done| |].
      * rewrite Forall_forall in Hcounts. symmetry. apply Hcounts.
        rewrite Hperm. by left.
      * apply (concat_Permutation (map Records (first1 :: rest1))
                 (map Records (first2 :: rest2))). by rewrite Hperm.
    + rewrite Forall_forall in Hcounts. apply Forall_forall. intros file Hin.
      unfold sameColumnCount in *. rewrite (Hcounts file) by (by rewrite Hperm).
      symmetry. apply Hcounts. rewrite Hperm. by left.
Qed.

Lemma work_Delimiter (filePath : string) (file : CSV) :
  work delimiter filePath = resultFile file -> Delimiter file = delimiter.
Proof.
  unfold work. destruct (Read _) as [err|file'] eqn:Hread; [done|]. intros [= ->].
  by apply Read_inr in Hread as (_&?&?&?&_&_&->).
Qed.

Lemma outcomes_Delimiter (filePaths : list string) :
  Forall (fun file => Delimiter file = delimiter) (filesOf (outcomes delimiter filePaths)).
Proof.
  induction filePaths as [|p filePaths IH]; [constructor|]. unfold outcomes in *. simpl.
  destruct (work delimiter (TrimSpace p)) as [err|file] eqn:Hwork; simpl; [done|].
  constructor; [by apply work_Delimiter with (TrimSpace p) | done].
Qed.

(** X20: the result does not depend on the interleaving of the
    goroutines more than this. Two runs of a call on the same paths that
    have returned have both succeeded or both failed. When they have
    succeeded, the two tables have the same delimiter, as many columns and
    the same records up to their order. When they have failed, it is with
    errors of the same kind, an [AggregatedReadError] holding the same
    errors up to their order. *)
Theorem processFiles_schedule_independent (filePaths : list string) (cfg1 cfg2 : config)
  (r1 r2 : error + CSV) :
  runs delimiter filePaths cfg1 -> runs delimiter filePaths cfg2 ->
  main cfg1 = Returned r1 -> main cfg2 = Returned r2 ->
  sameOutcome r1 r2.
Proof.
  intros Hruns1 Hruns2 Hr1 Hr2.
  destruct (forallb validPath filePaths) eqn:Hvalid.
  - destruct (returned_all_valid filePaths cfg1 r1 Hvalid Hruns1 Hr1) as (Hrec1&->&_).
    destruct (returned_all_valid filePaths cfg2 r2 Hvalid Hruns2 Hr2) as (Hrec2&->&_).
    assert (errorsOf (received (trace cfg1)) ≡ₚ errorsOf (received (trace cfg2)))
      as Herrors by (unfold errorsOf; by rewrite Hrec1, Hrec2).
    assert (filesOf (received (trace cfg1)) ≡ₚ filesOf (received (trace cfg2)))
      as Hfiles by (unfold filesOf; by rewrite Hrec1, Hrec2).
    unfold conclude. rewrite <-Herrors, <-Hfiles.
    destruct (0 <? length (errorsOf (received (trace cfg1)))); [done|].
    destruct (length (filesOf (received (trace cfg1))) =? 0); [done|]. simpl.
    apply Merge_Permutation with delimiter; [done|].
    assert (filesOf (received (trace cfg1)) ≡ₚ filesOf (outcomes delimiter filePaths))
      as -> by (unfold filesOf; by rewrite Hrec1).
    apply outcomes_Delimiter.
  - apply runs_reached in Hruns1 as (_&_&_&Hmain1).
    apply runs_reached in Hruns2 as (_&_&_&Hmain2).
    rewrite Hr1 in Hmain1. rewrite Hr2 in Hmain2.
    destruct Hmain1 as [(_&_&_&_&_&_&->&_)|(?&_)]; [|congruence].
    destruct Hmain2 as [(_&_&_&_&_&_&->&_)|(?&_)]; [|congruence]. done.
Qed.

(** *** When every read succeeds *)

Lemma outcomes_reads (filePaths : list string) (tables : list CSV) :
  Forall2 (fun filePath table =>
             Read (New [WithFilePath (TrimSpace filePath); WithDelimiter delimiter])
             = inr table) filePaths tables ->
  outcomes delimiter filePaths = map resultFile tables.
Proof.
  induction 1 as [|p table filePaths tables Hread _ IH]; [done|].
  unfold outcomes, work in *. simpl. by rewrite Hread, IH.
Qed.

Lemma errorsOf_files (tables : list CSV) : errorsOf (map resultFile tables) = [].
Proof. by induction tables. Qed.

Lemma filesOf_files (tables : list CSV) : filesOf (map resultFile tables) = tables.
Proof. induction tables as [|table tables IH]; [done|]. simpl. by rewrite IH. Qed.

Lemma returned_all_read (filePaths : list string) (tables : list CSV) (cfg : config)
  (r : error + CSV) :
  forallb validPath filePaths = true ->
  Forall2 (fun filePath table =>
             Read (New [WithFilePath (TrimSpace filePath); WithDelimiter delimiter])
             = inr table) filePaths tables ->
  runs delimiter filePaths cfg -> main cfg = Returned r ->
  filesOf (received (trace cfg)) ≡ₚ tables
  /\ Forall (fun file => Delimiter file = delimiter) tables
  /\ (filePaths <> [] -> r = Merge (filesOf (received (trace cfg)))).
Proof.
  intros Hvalid Hreads Hruns Hr.
  destruct (returned_all_valid filePaths cfg r Hvalid Hruns Hr) as (Hrec&->&_).
  pose proof (outcomes_Delimiter filePaths) as Hdelimiter.
  rewrite (outcomes_reads _ _ Hreads) in Hrec, Hdelimiter.
  rewrite filesOf_files in Hdelimiter.
  assert (errorsOf (received (trace cfg)) = []) as Herrors.
  { apply Permutation_nil_r. rewrite <-(errorsOf_files tables).
    unfold errorsOf. by rewrite Hrec. }
  assert (filesOf (received (trace cfg)) ≡ₚ filesOf (map resultFile tables)) as Hfiles
    by (unfold filesOf; by rewrite Hrec).
  rewrite filesOf_files in Hfiles.
  split_and!; [done..|]. intros Hpaths. unfold conclude. rewrite Herrors. simpl.
  destruct (Nat.eqb_spec (length (filesOf (received (trace cfg)))) 0) as [Hlen|]; [|done].
  rewrite Hfiles in Hlen. apply Forall2_length in Hreads.
  destruct filePaths; [done|]. simpl in Hreads. lia.
Qed.

(** X21: a call that succeeds. When there is a path, every path is valid,
    every [Read] succeeds and the tables read have all as many columns, the
    call returns a table once it returns: its records are the records of the
    tables read, table after table in the order in which they were received,
    its columns are those of the table received first, its delimiter is the
    one given and its path is empty. *)
Theorem processFiles_success (filePaths : list string) (tables : list CSV) (cfg : config)
  (r : error + CSV) :
  filePaths <> [] ->
  forallb validPath filePaths = true ->
  Forall2 (fun filePath table =>
             Read (New [WithFilePath (TrimSpace filePath); WithDelimiter delimiter])
             = inr table) filePaths tables ->
  (forall table1 table2, table1 ∈ tables -> table2 ∈ tables ->
     length (Headers table1) = length (Headers table2)) ->
  runs delimiter filePaths cfg -> main cfg = Returned r ->
  exists files first merged,
    files = filesOf (received (trace cfg))
    /\ files ≡ₚ tables
    /\ head files = Some first
    /\ r = inr merged
    /\ FilePath merged = "" /\ Delimiter merged = delimiter
    /\ Headers merged = Headers first
    /\ Records merged = concat (map Records files).
Proof.
  intros Hpaths Hvalid Hreads Hcounts Hruns Hr.
  destruct (returned_all_read _ _ _ _ Hvalid Hreads Hruns Hr) as (Hfiles&Hdelimiter&Hmerge).
  pose proof (Hmerge Hpaths) as ->. clear Hmerge.
  destruct (filesOf (received (trace cfg))) as [|first rest] eqn:Hreceived.
  { apply Permutation_nil_l in Hfiles as <-. apply Forall2_length in Hreads.
    by destruct filePaths. }
  rewrite <-Hfiles in Hdelimiter.
  eexists (first :: rest), first, _. split_and!; [done..| | | | |].
  - apply Merge_inr; [done|]. apply Forall_forall. intros file Hin.
    apply Hcounts; rewrite <-Hfiles; [done | by left].
  - done.
  - by apply Forall_cons in Hdelimiter as [? _].
  - done.
  - done.
Qed.

(** X22: a call that fails on the numbers of columns. When every path is
    valid, every [Read] succeeds and two of the tables read differ in their
    number of columns, the call returns [SchemaMismatch] once it returns,
    whatever the order in which the tables were received; the error names
    the table received first and a table that has not as many columns. *)
Theorem processFiles_schema_mismatch (filePaths : list string) (tables : list CSV)
  (cfg : config) (r : error + CSV) :
  forallb validPath filePaths = true ->
  Forall2 (fun filePath table =>
             Read (New [WithFilePath (TrimSpace filePath); WithDelimiter delimiter])
             = inr table) filePaths tables ->
  (exists table1 table2, table1 ∈ tables /\ table2 ∈ tables
     /\ length (Headers table1) <> length (Headers table2)) ->
  runs delimiter filePaths cfg -> main cfg = Returned r ->
  exists file first,
    r = inl (SchemaMismatch (FilePath file) (FilePath first))
    /\ head (filesOf (received (trace cfg))) = Some first
    /\ file ∈ tables /\ first ∈ tables
    /\ length (Headers file) <> length (Headers first).
Proof.
  intros Hvalid Hreads (table1&table2&Hin1&Hin2&Hne) Hruns Hr.
  assert (filePaths <> []) as Hpaths.
  { intros ->. apply Forall2_nil_inv_l in Hreads as ->. by apply elem_of_nil in Hin1. }
  destruct (returned_all_read _ _ _ _ Hvalid Hreads Hruns Hr) as (Hfiles&_&Hmerge).
  pose proof (Hmerge Hpaths) as ->. clear Hmerge.
  rewrite <-Hfiles in Hin1, Hin2.
  assert (exists e, Merge (filesOf (received (trace cfg))) = inl e) as [e HM].
  { apply Merge_fails_iff. right.
    destruct (filesOf (received (trace cfg))) as [|first rest]; [by apply elem_of_nil in Hin1|].
    exists first. split; [done|]. unfold sameColumnCount. apply Exists_exists.
    destruct (decide (length (Headers table1) = length (Headers first))).
    - exists table2. split; [done | congruence].
    - by exists table1. }
  rewrite HM. apply Merge_inl in HM as [[Hnil _]|(first&rest&file&Hreceived&Hfind&->)].
  { rewrite Hnil in Hin1. by apply elem_of_nil in Hin1. }
  apply find_some in Hfind as [Hin Hcount]. apply list_elem_of_In in Hin.
  exists file, first. rewrite Hreceived in *. split_and!; [done..| | |].
  - rewrite <-Hfiles. by right.
  - rewrite <-Hfiles. by left.
  - intros Heq. by rewrite Heq, Nat.eqb_refl in Hcount.
Qed.

(** *** With a reader that returns records of one length *)

Section UniformRecords.

(** The reader of [encoding/csv], with [FieldsPerRecord] left at 0 as
    [Read] leaves it, returns records that have all as many fields as the
    first. *)
Hypothesis ReadAll_uniform : forall comma text header rest,
  csv_ReadAll comma text = inr (header :: rest) ->
  Forall (fun record => length record = length header) rest.

Lemma Read_rectangular (c c' : CSV) :
  Headers c = [] -> Records c = [] -> Read c = inr c' -> rectangular c'.
Proof.
  intros Hheaders Hrecords (_&file&header&rest&_&Hall%ReadAll_uniform&->)%Read_inr.
  unfold rectangular. cbn [Headers Records]. rewrite Hheaders, Hrecords. simpl.
  rewrite length_map. destruct rest as [|record rest]; [constructor|].
  apply Forall_fmap. eapply Forall_impl; [exact Hall|]. intros record' Hlen. simpl.
  by rewrite length_map.
Qed.

Lemma outcomes_rectangular (filePaths : list string) :
  Forall rectangular (filesOf (outcomes delimiter filePaths)).
Proof.
  induction filePaths as [|p filePaths IH]; [constructor|]. unfold outcomes in *. simpl.
  unfold work at 1. destruct (Read _) as [err|file] eqn:Hread; simpl; [done|].
  constructor; [|done]. by apply Read_rectangular in Hread.
Qed.

(** X23: the table a call returns can be converted. Every record of a
    table [processFiles] returns has exactly one cell for every column, so
    [ConvertColumnTypes] does not panic on it, and the table it returns is
    of that shape again. *)
Theorem processFiles_then_ConvertColumnTypes (filePaths : list string) (cfg : config)
  (merged : CSV) :
  runs delimiter filePaths cfg -> main cfg = Returned (inr merged) ->
  rectangular merged
  /\ exists converted,
       ConvertColumnTypes merged = Some converted /\ rectangular converted.
Proof.
  intros Hruns Hr.
  assert (rectangular merged) as Hmerged.
  { destruct (forallb validPath filePaths) eqn:Hvalid.
    - destruct (returned_all_valid filePaths cfg _ Hvalid Hruns Hr) as (Hrec&Hresult&_).
      unfold conclude in Hresult.
      destruct (0 <? length _); [done|]. destruct (length _ =? 0); [done|].
      simpl in Hresult. apply Merge_rectangular with (filesOf (received (trace cfg)));
        [|done].
      assert (filesOf (received (trace cfg)) ≡ₚ filesOf (outcomes delimiter filePaths))
        as -> by (unfold filesOf; by rewrite Hrec).
      apply outcomes_rectangular.
    - apply runs_reached in Hruns as (_&_&_&Hmain). rewrite Hr in Hmain.
      destruct Hmain as [(_&_&_&_&_&_&?&_)|(?&_)]; [done | congruence]. }
  split; [done|]. by apply ConvertColumnTypes_rectangular.
Qed.

End UniformRecords.

End ProcessFilesProperties.

(** ** createFileList *)

Section CreateFileListProperties.
Context `{Folders}.

Lemma createFileList_loop (folderPath : string) (entries : list os.DirEntry)
  (files : list string) :
  foldl (fun files entry =>
           if negb (os.IsDir entry) && HasSuffix (os.Name entry) ".csv"
           then files ++ [filepath_Join folderPath (os.Name entry)]
           else files) files entries
  = files ++ map (fun entry => filepath_Join folderPath (os.Name entry))
                 (List.filter isCSVFile entries).
Proof.
  revert files. induction entries as [|entry entries IH]; intros files; simpl.
  - by rewrite app_nil_r.
  - rewrite IH. unfold isCSVFile at 2.
    destruct (negb (os.IsDir entry) && HasSuffix (os.Name entry) ".csv"); [|done].
    simpl. by rewrite <-app_assoc.
Qed.

(** X24: what [createFileList] lists. It fails exactly when [os.ReadDir]
    does, with its error. Otherwise it returns one path for each entry that
    is not a directory and whose name ends in [".csv"], in the order of the
    entries: the folder joined with the name. A directory is left out
    whatever its name, nothing is listed twice over, and a folder without
    such an entry gives the empty list and no error. *)
Theorem createFileList_lists (folderPath : string) :
  (forall err, createFileList folderPath = inl err <->
     exists msg, os_ReadDir folderPath = inl msg /\ err = SourceUnavailable msg)
  /\ (forall files, createFileList folderPath = inr files <->
        exists entries,
          os_ReadDir folderPath = inr entries
          /\ files = map (fun entry => filepath_Join folderPath (os.Name entry))
                         (List.filter isCSVFile entries)).
Proof.
  unfold createFileList. destruct (os_ReadDir folderPath) as [msg|entries].
  - split.
    + intros err. split; [intros [= <-]; by exists msg|].
      by intros (msg'&[= <-]&->).
    + intros files. split; [done | by intros (?&?&_)].
  - rewrite createFileList_loop. simpl. split.
    + intros err. split; [done | by intros (?&?&_)].
    + intros files. split; [intros [= <-]; by exists entries|].
      by intros (entries'&[= <-]&->).
Qed.

End CreateFileListProperties.

(** ** SaveAsExcel *)

Section SaveAsExcelProperties.
Context `{Strconv}.

Lemma Sprintf_A_inj (n m : nat) : Sprintf_A n = Sprintf_A m -> n = m.
Proof.
  unfold Sprintf_A. intros [= Heq]. apply Unsigned.to_uint_inj.
  pose proof (NilEmpty.usu (Nat.to_uint n)) as Hn. rewrite Heq, NilEmpty.usu in Hn.
  by injection Hn.
Qed.

Variable rowError : string -> string -> option string.
Variable saveError : string -> option string.
Variable closeError : option string.

Lemma setRows_recorder (sheetName : string) (i : nat) (records : list (list value))
  (f : list call) :
  @setRows _ (recorder rowError saveError closeError) sheetName i records f
  = f ++ imap (fun k record =>
                 CallSetSheetRow sheetName (Sprintf_A (i + k + 2)) (InterfaceSlice record))
              records.
Proof.
  revert i f. induction records as [|record records IH]; intros i f.
  - by rewrite app_nil_r.
  - cbn [setRows imap]. rewrite IH. cbn. rewrite <-app_assoc. cbn. do 2 f_equal.
    + by rewrite Nat.add_0_r.
    + apply imap_ext. intros k record' _. simpl. do 2 f_equal. lia.
Qed.

Lemma cellsSet_rows (sheetName : string) (i : nat) (records : list (list value)) :
  cellsSet (imap (fun k record =>
                    CallSetSheetRow sheetName (Sprintf_A (i + k + 2)) (InterfaceSlice record))
                 records)
  = map Sprintf_A (seq (i + 2) (length records)).
Proof.
  revert i. induction records as [|record records IH]; intros i; [done|].
  cbn [imap cellsSet omap list_omap length seq map]. rewrite Nat.add_0_r. f_equal.
  change (S (i + 2)) with (S i + 2). unfold cellsSet in IH. rewrite <-(IH (S i)). f_equal.
  apply imap_ext. intros k record' _. simpl. do 2 f_equal. lia.
Qed.

(** X25: what [SaveAsExcel] does with the library, told by a library that
    records its calls and answers them with any errors. The names of the
    columns are set at [A1] and the record of index [i] at row [i + 2] of
    column [A], on the sheet named, which is [Sheet1] when no name is given;
    the file is then saved under the path given and closed. So the rows set
    are [A1], [A2] and so on, each once: no record is put over the names or
    over another record. The error returned is the one [SaveAs] returns;
    those of [SetSheetRow] and of [Close] are dropped. *)
Theorem SaveAsExcel_rows (c : CSV) (filePath sheetName : string) :
  exists calls,
    @SaveAsExcel _ (recorder rowError saveError closeError) c filePath sheetName
    = (calls, saveError filePath)
    /\ calls
       = CallSetSheetRow (if String.eqb sheetName "" then "Sheet1" else sheetName) "A1"
           (StringSlice (GetHeaderNames c))
         :: imap (fun i record =>
                    CallSetSheetRow (if String.eqb sheetName "" then "Sheet1" else sheetName)
                      (Sprintf_A (i + 2)) (InterfaceSlice record))
                 (Records c)
         ++ [CallSaveAs filePath; CallClose]
    /\ cellsSet calls = map Sprintf_A (seq 1 (S (length (Records c))))
    /\ NoDup (cellsSet calls).
Proof.
  set (sheet := if String.eqb sheetName "" then "Sheet1" else sheetName).
  set (rows := imap (fun i record =>
                       CallSetSheetRow sheet (Sprintf_A (i + 2)) (InterfaceSlice record))
                    (Records c)).
  assert (cellsSet (CallSetSheetRow sheet "A1" (StringSlice (GetHeaderNames c))
                    :: rows ++ [CallSaveAs filePath; CallClose])
          = map Sprintf_A (seq 1 (S (length (Records c))))) as Hcells.
  { unfold cellsSet. cbn [omap list_omap]. rewrite omap_app. cbn [omap list_omap].
    rewrite app_nil_r. cbn [seq map]. f_equal. by rewrite <-(cellsSet_rows sheet 0). }
  eexists. split_and!; [|done|exact Hcells|].
  - unfold SaveAsExcel. cbn. rewrite setRows_recorder. cbn. by rewrite <-app_assoc.
  - rewrite Hcells. apply NoDup_fmap_2; [|apply NoDup_seq].
    intros n m. apply Sprintf_A_inj.
Qed.

End SaveAsExcelProperties.

(** ** Texts and their suffixes *)

Section Texts.

Lemma chars_app (s t : string) :
  list_ascii_of_string (s ++ t) = list_ascii_of_string s ++ list_ascii_of_string t.
Proof. induction s as [|c s IH]; simpl; [done|]. by rewrite IH. Qed.

Lemma length_chars (s : string) : length (list_ascii_of_string s) = String.length s.
Proof. induction s as [|c s IH]; simpl; [done|]. by rewrite IH. Qed.

Lemma chars_inj (s t : string) : list_ascii_of_string s = list_ascii_of_string t -> s = t.
Proof.
  intros Heq. rewrite <-(string_of_list_ascii_of_string s), Heq.
  apply string_of_list_ascii_of_string.
Qed.

Lemma chars_substring (n m : nat) (s : string) :
  list_ascii_of_string (substring n m s) = take m (drop n (list_ascii_of_string s)).
Proof.
  revert n m. induction s as [|c s IH]; intros [|n] [|m]; simpl; try done;
    by rewrite IH.
Qed.

Lemma HasSuffix_suffix (s t : string) :
  HasSuffix s t = true <-> list_ascii_of_string t `suffix_of` list_ascii_of_string s.
Proof.
  unfold HasSuffix. rewrite andb_true_iff, Nat.leb_le, String.eqb_eq. split.
  - intros [Hle Hsub]. apply (f_equal list_ascii_of_string) in Hsub.
    rewrite chars_substring in Hsub.
    exists (take (String.length s - String.length t) (list_ascii_of_string s)).
    rewrite <-Hsub, (take_ge (drop _ _)); [by rewrite take_drop|].
    rewrite length_drop, length_chars. lia.
  - intros [k Hk]. pose proof (f_equal length Hk) as Hlen.
    rewrite length_app, !length_chars in Hlen. split; [lia|].
    apply chars_inj. rewrite chars_substring, Hk.
    rewrite drop_app_length'; [|lia]. rewrite take_ge; [done|].
    rewrite length_chars. lia.
Qed.

End Texts.

(** ** The reference [strings]: [TrimSpace] keeps the extension *)

Section TrimSpaceProperties.

Lemma spaceWidth_le (l : list Z) : strings.spaceWidth l <= 3 /\ strings.spaceWidth l <= length l.
Proof.
  unfold strings.spaceWidth. destruct l as [|b0 [|b1 [|b2 l]]]; simpl;
    repeat case_match; lia.
Qed.

Lemma spaceWidth_csv (l : list Z) : strings.spaceWidth (l ++ csvBytes) <= length l.
Proof.
  destruct l as [|b0 [|b1 [|b2 l]]].
  - done.
  - cbn. rewrite !andb_false_r. cbn. case_match; simpl; lia.
  - cbn. rewrite !andb_false_r. cbn. repeat case_match; simpl; lia.
  - pose proof (spaceWidth_le ((b0 :: b1 :: b2 :: l) ++ csvBytes)). simpl in *. lia.
Qed.

Lemma trim_left (n : nat) (l : list Z) :
  exists l', strings.trim strings.spaceWidth n (l ++ csvBytes) = l' ++ csvBytes.
Proof.
  revert l. induction n as [|n IH]; intros l; [by exists l|]. cbn [strings.trim].
  pose proof (spaceWidth_csv l) as Hle.
  destruct (strings.spaceWidth (l ++ csvBytes)) as [|w]; [by exists l|].
  rewrite drop_app_le by done. apply IH.
Qed.

Lemma trim_right (n : nat) (l : list Z) :
  strings.trim strings.lastSpaceWidth n (rev (l ++ csvBytes)) = rev (l ++ csvBytes).
Proof. rewrite rev_app_distr. by destruct n. Qed.

Lemma strings_TrimSpace_keeps_csv (s : string) :
  HasSuffix s ".csv" = true -> HasSuffix (strings.TrimSpace s) ".csv" = true.
Proof.
  rewrite !HasSuffix_suffix. intros [k Hk]. unfold strings.TrimSpace, strings.bytes.
  rewrite Hk, map_app.
  change (map _ (list_ascii_of_string ".csv")) with csvBytes.
  destruct (trim_left (String.length s)
              (map (fun c => Z.of_N (N_of_ascii c)) k)) as [l' ->].
  rewrite trim_right, rev_involutive. unfold strings.ofBytes.
  rewrite list_ascii_of_string_of_list_ascii, map_app. by eexists.
Qed.

End TrimSpaceProperties.

(** ** The paths [createFileList] lists *)

Section FolderPaths.
Context `{Strconv, Sources, Strings, Folders}.

(** [filepath.Join] cleans the path it makes and so may change it, but
    not its last element when this is the name of a file; and
    [strings.TrimSpace] removes white space only. *)
Hypothesis Join_keeps_csv : forall dir name,
  HasSuffix name ".csv" = true -> HasSuffix (filepath_Join dir name) ".csv" = true.
Hypothesis TrimSpace_keeps_csv : forall s,
  HasSuffix s ".csv" = true -> HasSuffix (TrimSpace s) ".csv" = true.

(** X27: the paths [createFileList] lists pass the check of
    [processFiles]: each of them ends in [".csv"], also once trimmed of
    white space. So a call of [processFiles] on the list, as the merge
    command makes for a folder, does not return [InvalidInputFormat]. *)
Theorem createFileList_paths_valid (folderPath : string) (files : list string) :
  createFileList folderPath = inr files ->
  forallb validPath files = true
  /\ forall delimiter cfg r,
       runs delimiter files cfg -> main cfg = Returned r -> r <> inl InvalidInputFormat.
Proof.
  intros Hlist.
  assert (forallb validPath files = true) as Hvalid.
  { unfold createFileList in Hlist. destruct (os_ReadDir folderPath) as [|entries]; [done|].
    injection Hlist as <-. rewrite createFileList_loop. simpl.
    apply forallb_forall. intros path (entry&<-&Hentry)%in_map_iff.
    apply filter_In in Hentry as [_ Hentry]. unfold isCSVFile in Hentry.
    apply andb_prop in Hentry as [_ Hname]. unfold validPath.
    by apply TrimSpace_keeps_csv, Join_keeps_csv. }
  split; [done|]. intros delimiter cfg r Hruns Hr.
  destruct (returned_all_valid delimiter files cfg r Hvalid Hruns Hr) as (_&->&_).
  intros Hinvalid. pose proof (conclude_not_invalid
    (errorsOf (received (trace cfg))) (filesOf (received (trace cfg)))) as Hnot.
  by rewrite Hinvalid in Hnot.
Qed.

End FolderPaths.

(** ** The path of the workbook *)

Section OutputPathProperties.
Context `{Folders}.

Lemma index_occurrence (s t : string) (j : nat) :
  index 0 t s = Some j -> t <> "" ->
  list_ascii_of_string s
  = take j (list_ascii_of_string s) ++ list_ascii_of_string t
    ++ drop (j + String.length t) (list_ascii_of_string s)
  /\ j + String.length t <= String.length s.
Proof.
  intros Hindex%index_correct1 Ht. apply (f_equal list_ascii_of_string) in Hindex.
  rewrite chars_substring in Hindex.
  assert (String.length t <= length (drop j (list_ascii_of_string s))) as Hlen.
  { rewrite <-(length_chars t), <-Hindex, length_take. lia. }
  rewrite length_drop, length_chars in Hlen.
  assert (String.length t <> 0) by (by destruct t).
  split; [|lia].
  by rewrite <-Hindex, <-drop_drop, !take_drop.
Qed.

Lemma Replace_first (s : string) :
  HasSuffix s ".csv" = true ->
  exists j,
    index 0 ".csv" s = Some j
    /\ j + 4 <= String.length s
    /\ strings_Replace s ".csv" ".xlsx" 1
       = (substring 0 j s ++ ".xlsx"
          ++ substring (j + 4) (String.length s - (j + 4)) s)%string.
Proof.
  intros Hsuffix. destruct (index 0 ".csv" s) as [j|] eqn:Hindex.
  - exists j. split; [done|].
    destruct (index_occurrence s ".csv" j Hindex) as [_ Hle]; [done|].
    split; [done|].
    change (strings_Replace s ".csv" ".xlsx" 1) with (replaceLoop 1 s ".csv" ".xlsx").
    cbn [replaceLoop]. by rewrite Hindex.
  - unfold HasSuffix in Hsuffix. apply andb_prop in Hsuffix as [_ Hsub%String.eqb_eq].
    by apply (index_correct3 0 (String.length s - 4) ".csv" s) in Hindex; [|done|lia].
Qed.

Lemma substring_parts (s : string) (j m : nat) :
  j + m <= String.length s ->
  list_ascii_of_string (substring 0 j s) = take j (list_ascii_of_string s)
  /\ list_ascii_of_string (substring (j + m) (String.length s - (j + m)) s)
     = drop (j + m) (list_ascii_of_string s).
Proof.
  intros Hle. rewrite !chars_substring, drop_0. split; [done|].
  apply take_ge. rewrite length_drop, length_chars. lia.
Qed.

Lemma last_nonempty {A} (l : list A) : l <> [] -> is_Some (last l).
Proof. destruct l as [|x l] using rev_ind; [done|]. rewrite last_snoc. by eexists. Qed.

(** X28: the path of the workbook when neither [--output] nor [--name]
    is given, for an input path that ends in [".csv"], as the root command
    has checked. The first [".csv"] of the input path is replaced by
    [".xlsx"]. The path made ends in [".xlsx"] exactly when that first
    [".csv"] is the one at the end; when [".csv"] occurs earlier in the path,
    it is replaced there and the path made still ends in [".csv"]. *)
Theorem outputPath_default (inputFile : string) :
  HasSuffix inputFile ".csv" = true ->
  exists before after,
    inputFile = (before ++ ".csv" ++ after)%string
    /\ index 0 ".csv" inputFile = Some (String.length before)
    /\ outputPath inputFile "" "" = (before ++ ".xlsx" ++ after)%string
    /\ (HasSuffix (outputPath inputFile "" "") ".xlsx" = true <-> after = "").
Proof.
  intros Hsuffix. destruct (Replace_first inputFile Hsuffix) as (j&Hindex&Hle&Hreplace).
  destruct (index_occurrence inputFile ".csv" j Hindex) as [Hparts _]; [done|].
  destruct (substring_parts inputFile j 4 Hle) as [Hbefore Hafter].
  set (before := substring 0 j inputFile) in *.
  set (after := substring (j + 4) (String.length inputFile - (j + 4)) inputFile) in *.
  assert (inputFile = (before ++ ".csv" ++ after)%string) as Hinput.
  { apply chars_inj. rewrite !chars_app, Hbefore, Hafter. exact Hparts. }
  assert (String.length before = j) as Hj.
  { rewrite <-length_chars, Hbefore, length_take, length_chars. lia. }
  exists before, after. unfold outputPath. cbn [String.eqb andb negb]. rewrite Hj.
  split_and!; [done..|]. rewrite Hreplace. split.
  - intros [k Hk]%HasSuffix_suffix. destruct (string_dec after "") as [|Hafter']; [done|].
    exfalso.
    assert (list_ascii_of_string after <> []) as Hne.
    { intros Hnil. apply Hafter', chars_inj. by rewrite Hnil. }
    destruct (last_nonempty _ Hne) as [c Hc].
    apply HasSuffix_suffix in Hsuffix as [k' Hk']. rewrite Hinput in Hk'.
    apply (f_equal last) in Hk, Hk'.
    rewrite !chars_app, !last_app, Hc in Hk, Hk'. simpl in Hk, Hk'. congruence.
  - intros ->. apply HasSuffix_suffix. rewrite !chars_app. by eexists.
Qed.

End OutputPathProperties.

(** * The properties on the examples *)

Section Examples.
#[local] Existing Instance goStrconv.
#[local] Existing Instance goStrings.
#[local] Existing Instance exampleSources.

Lemma runs_finalTrimmed : runs example.comma ["a.csv "] finalTrimmed.
Proof. apply schedule_runs with scheduleTrimmed. reflexivity. Qed.

Lemma runs_finalInvalid : runs example.comma ["a.csv"; "b.txt"] finalInvalid.
Proof. apply schedule_runs with scheduleInvalid. reflexivity. Qed.

Lemma runs_finalReversed : runs example.comma ["a.csv"; "b.csv"] finalReversed.
Proof. apply schedule_runs with scheduleReversed. reflexivity. Qed.

Lemma runs_finalErrors :
  runs example.comma ["a.csv"; "none.csv"; "empty.csv"] finalErrors.
Proof. apply schedule_runs with scheduleErrors. reflexivity. Qed.

(** With the reference [strconv] the branch of [inferColumnTypes] that
    assigns [IntegerType] is never taken, and a column of integers is made a
    Float column. *)
Lemma inferColumnTypes_never_Integer (c c' : CSV) (j : nat) (column column' : Column) :
  inferColumnTypes c = Some c' ->
  Headers c !! j = Some column -> Headers c' !! j = Some column' ->
  column' = setType FloatType column \/ column' = column.
Proof. apply inferColumnTypes_Float_or_unchanged, ParseFloat_of_ParseInt. Qed.

Lemma inferColumnTypes_integer_column (c c' : CSV) (j : nat) (column' : Column) :
  inferColumnTypes c = Some c' ->
  Headers c' !! j = Some column' ->
  Forall (fun record => exists s n, record !! j = Some (VString s)
                                    /\ strconv.ParseInt s = Some n) (sample c) ->
  Type' column' = FloatType.
Proof. apply inferColumnTypes_integers_Float, ParseFloat_of_ParseInt. Qed.

(** C1: a table with columns and no row. [rangeToCheck] is 0, so is
    [floatCount], and the test [floatCount == rangeToCheck] makes every
    column a Float column; the specification has them stay String. *)
Example inferColumnTypes_zero_rows :
  Read (New [WithFilePath "header.csv"; WithDelimiter example.comma]) = inr tableHeader
  /\ inferColumnTypes tableHeader
     = Some (table "header.csv" [column "name" FloatType; column "age" FloatType] []).
Proof. split; reflexivity. Qed.

(** C2: the table of the repository's test "Infer types for all
    integers", which expects both columns to come out as Integer. Every
    cell parses as a 64-bit integer; [ParseFloat] is tried first and accepts
    each of them, so both columns come out as Float. *)
Example inferColumnTypes_integers :
  map (map (fun v => match v with
                     | VString s => strconv.ParseInt s
                     | _ => None
                     end)) (sample tableIntegers)
  = [[Some 123%Z; Some 456%Z]; [Some 789%Z; Some 101112%Z]]
  /\ inferColumnTypes tableIntegers
     = Some {| FilePath := ""; Delimiter := 0%Z;
               Headers := [column "Column1" FloatType; column "Column2" FloatType];
               Records := Records tableIntegers |}.
Proof. split; reflexivity. Qed.

(** C3 fails as it is stated. The path ["a.csv "] does not end in
    [".csv"], and the call reads [a.csv] and returns its table. The list
    ["a.csv"; "b.txt"] has a path without the extension, and in this run the
    call returns [InvalidInputFormat] after a goroutine has been started for
    [a.csv] and has called [Read] on it. *)
Lemma processFiles_invalid_format_counterexample :
  (HasSuffix "a.csv " ".csv" = false
   /\ runs example.comma ["a.csv "] finalTrimmed
   /\ main finalTrimmed = Returned (inr (merged [tableA]))
   /\ readCalls (trace finalTrimmed) = ["a.csv"])
  /\ (HasSuffix "b.txt" ".csv" = false
      /\ runs example.comma ["a.csv"; "b.txt"] finalInvalid
      /\ main finalInvalid = Returned (inl InvalidInputFormat)
      /\ started (trace finalInvalid) = ["a.csv"]
      /\ readCalls (trace finalInvalid) = ["a.csv"]).
Proof.
  split.
  - split; [reflexivity|]. split; [apply runs_finalTrimmed|].
    split; reflexivity.
  - split; [reflexivity|]. split; [apply runs_finalInvalid|].
    repeat split.
Qed.

(** C4 fails as it is stated: both paths are valid and both reads
    succeed; in this run [b.csv] is received first, [Merge] is called with
    its table first, and the rows of [b.csv] come first in the result. *)
Lemma processFiles_input_order_counterexample :
  filesOf (outcomes example.comma ["a.csv"; "b.csv"]) = [tableA; tableB]
  /\ runs example.comma ["a.csv"; "b.csv"] finalReversed
  /\ mergeCalls (trace finalReversed) = [[tableB; tableA]]
  /\ main finalReversed = Returned (Merge [tableB; tableA])
  /\ Merge [tableB; tableA] = inr (merged [tableB; tableA])
  /\ Merge [tableA; tableB] = inr (merged [tableA; tableB])
  /\ Records (merged [tableB; tableA]) <> Records (merged [tableA; tableB]).
Proof.
  split; [reflexivity|]. split; [apply runs_finalReversed|].
  split; [reflexivity|]. split; [reflexivity|].
  split; [reflexivity|]. split; [reflexivity|].
  discriminate.
Qed.

(** *** The theorems at work *)

Lemma processFiles_invalid_format_witness :
  Exists (fun filePath => HasSuffix (TrimSpace filePath) ".csv" = false) ["a.csv"; "b.txt"]
  /\ runs example.comma ["a.csv"; "b.txt"] finalInvalid
  /\ (exists cfg', rtc (step example.comma) finalInvalid cfg' /\ hasReturned cfg')
  /\ (forall r, main finalInvalid = Returned r -> r = inl InvalidInputFormat)
  /\ (exists before filePath rest,
        ["a.csv"; "b.txt"] = before ++ filePath :: rest
        /\ forallb validPath before = true
        /\ HasSuffix (TrimSpace filePath) ".csv" = false
        /\ started (trace finalInvalid) `prefix_of` map TrimSpace before)
  /\ received (trace finalInvalid) = []
  /\ mergeCalls (trace finalInvalid) = [].
Proof.
  assert (Exists (fun filePath => HasSuffix (TrimSpace filePath) ".csv" = false)
            ["a.csv"; "b.txt"]) as Hinvalid.
  { apply Exists_cons_tl, Exists_cons_hd. reflexivity. }
  split; [exact Hinvalid|]. split; [apply runs_finalInvalid|].
  apply (processFiles_invalid_format example.comma ["a.csv"; "b.txt"] finalInvalid
           Hinvalid runs_finalInvalid).
Defined.

Lemma processFiles_merges_as_received_witness :
  forallb validPath ["a.csv"; "b.csv"] = true
  /\ Forall (fun filePath =>
               exists file, Read (New [WithFilePath (TrimSpace filePath);
                                       WithDelimiter example.comma]) = inr file)
            ["a.csv"; "b.csv"]
  /\ runs example.comma ["a.csv"; "b.csv"] finalReversed
  /\ (exists cfg', rtc (step example.comma) finalReversed cfg' /\ hasReturned cfg')
  /\ forall r, main finalReversed = Returned r ->
       exists files,
         files = filesOf (received (trace finalReversed))
         /\ files ≡ₚ filesOf (outcomes example.comma ["a.csv"; "b.csv"])
         /\ (["a.csv"; "b.csv"] <> [] ->
             mergeCalls (trace finalReversed) = [files] /\ r = Merge files).
Proof.
  assert (Forall (fun filePath =>
                    exists file, Read (New [WithFilePath (TrimSpace filePath);
                                            WithDelimiter example.comma]) = inr file)
            ["a.csv"; "b.csv"]) as Hreads.
  { constructor; [exists tableA; reflexivity|].
    constructor; [exists tableB; reflexivity|]. constructor. }
  split; [reflexivity|]. split; [exact Hreads|].
  split; [apply runs_finalReversed|].
  apply (processFiles_merges_as_received example.comma ["a.csv"; "b.csv"] finalReversed);
    [reflexivity | exact Hreads | apply runs_finalReversed].
Defined.

Lemma processFiles_read_errors_witness :
  ["a.csv"; "none.csv"; "empty.csv"] <> []
  /\ forallb validPath ["a.csv"; "none.csv"; "empty.csv"] = true
  /\ Exists (fun filePath =>
               exists err, Read (New [WithFilePath (TrimSpace filePath);
                                      WithDelimiter example.comma]) = inl err)
            ["a.csv"; "none.csv"; "empty.csv"]
  /\ runs example.comma ["a.csv"; "none.csv"; "empty.csv"] finalErrors
  /\ (exists cfg', rtc (step example.comma) finalErrors cfg' /\ hasReturned cfg')
  /\ forall r, main finalErrors = Returned r ->
       exists errors,
         r = inl (AggregatedReadError errors)
         /\ errors = errorsOf (received (trace finalErrors))
         /\ errors ≡ₚ errorsOf (outcomes example.comma ["a.csv"; "none.csv"; "empty.csv"])
         /\ mergeCalls (trace finalErrors) = [].
Proof.
  assert (Exists (fun filePath =>
                    exists err, Read (New [WithFilePath (TrimSpace filePath);
                                           WithDelimiter example.comma]) = inl err)
            ["a.csv"; "none.csv"; "empty.csv"]) as Hfails.
  { apply Exists_cons_tl, Exists_cons_hd. exists errorNone. reflexivity. }
  split; [discriminate|]. split; [reflexivity|]. split; [exact Hfails|].
  split; [apply runs_finalErrors|].
  apply (processFiles_read_errors example.comma ["a.csv"; "none.csv"; "empty.csv"]
           finalErrors);
    [discriminate | reflexivity | exact Hfails | apply runs_finalErrors].
Defined.

Lemma ConvertColumnTypes_idempotent_witness :
  rowsCoverColumns tableMixed
  /\ ConvertColumnTypes tableMixed = Some tableMixedConverted
  /\ ConvertColumnTypes tableMixedConverted = Some tableMixedConverted.
Proof.
  split; [|split].
  - repeat (constructor; [simpl; lia|]). constructor.
  - reflexivity.
  - apply (proj2 (ConvertColumnTypes_idempotent tableMixed)). reflexivity.
Defined.

Lemma Merge_concatenates_rows_witness :
  head [tableA; tableB; tableA] = Some tableA
  /\ Forall (fun file => length (Headers file) = length (Headers tableA))
            [tableA; tableB; tableA]
  /\ exists merged,
       Merge [tableA; tableB; tableA] = inr merged
       /\ Headers merged = Headers tableA
       /\ Delimiter merged = Delimiter tableA
       /\ Records merged = concat (map Records [tableA; tableB; tableA]).
Proof.
  assert (Forall (fun file => length (Headers file) = length (Headers tableA))
            [tableA; tableB; tableA]) as Hcounts.
  { repeat (constructor; [reflexivity|]). constructor. }
  split; [reflexivity|]. split; [exact Hcounts|].
  apply (Merge_concatenates_rows [tableA; tableB; tableA] tableA);
    [reflexivity | exact Hcounts].
Defined.

Lemma Read_header_only_witness :
  FilePath (New [WithFilePath "header.csv"; WithDelimiter example.comma]) <> ""
  /\ Headers (New [WithFilePath "header.csv"; WithDelimiter example.comma]) = []
  /\ Records (New [WithFilePath "header.csv"; WithDelimiter example.comma]) = []
  /\ os_Open "header.csv" = inr "name,age
"
  /\ csv_ReadAll example.comma "name,age
" = inr [["name"; "age"]]
  /\ exists c',
       Read (New [WithFilePath "header.csv"; WithDelimiter example.comma]) = inr c'
       /\ map Name (Headers c') = ["name"; "age"]
       /\ Forall (fun column => Type' column = StringType) (Headers c')
       /\ Records c' = [].
Proof.
  split; [discriminate|]. split; [reflexivity|]. split; [reflexivity|].
  split; [reflexivity|]. split; [reflexivity|].
  apply (proj1 (Read_header_only
                  (New [WithFilePath "header.csv"; WithDelimiter example.comma]) _
                  ltac:(discriminate) eq_refl eq_refl eq_refl)).
  reflexivity.
Defined.

Lemma Read_appends_Headers_witness :
  Read tableA = inr tableAA
  /\ exists file header rest,
       os_Open (FilePath tableA) = inr file
       /\ csv_ReadAll (Delimiter tableA) file = inr (header :: rest)
       /\ Headers tableAA = Headers tableA ++ map headerColumn header
       /\ exists c'', Read tableAA = inr c''
            /\ Headers c'' = Headers tableA ++ map headerColumn header
                             ++ map headerColumn header.
Proof.
  split; [reflexivity|]. apply (Read_appends_Headers tableA). reflexivity.
Defined.

(** ** With the reference implementations *)

(** X26: with [strconv] as Go has it, [ConvertColumnTypes] makes no
    Integer column and no 64-bit integer. A table without Integer column and
    without 64-bit integer in its cells, as every table [Read] returns is,
    is turned into another such table: its numbers are 64-bit floats, also
    in a column that holds integers only. *)
Theorem ConvertColumnTypes_never_Integer (c c' : CSV) :
  Forall (fun column => Type' column <> IntegerType) (Headers c) ->
  Forall (Forall (fun v => ~ hasType IntegerType v)) (Records c) ->
  ConvertColumnTypes c = Some c' ->
  Forall (fun column => Type' column <> IntegerType) (Headers c')
  /\ Forall (Forall (fun v => ~ hasType IntegerType v)) (Records c').
Proof. apply ConvertColumnTypes_without_Integer, ParseFloat_of_ParseInt. Qed.

Lemma csv_ReadAll_uniform (comma : rune) (text : string) (header : list string)
  (rest : list (list string)) :
  csv_ReadAll comma text = inr (header :: rest) ->
  Forall (fun record => length record = length header) rest.
Proof.
  cbn [csv_ReadAll exampleSources]. unfold csv.ReadAll.
  destruct (negb (csv.validDelim comma)); [done|].
  destruct (csv.contains csv.quote text || csv.contains csv.carriageReturn text); [done|].
  destruct (map _ _) as [|first records]; [done|].
  destruct (forallb _ records) eqn:Hall; [|done]. intros [= <- <-].
  apply Forall_forall. intros record Hin. rewrite forallb_forall in Hall.
  apply Nat.eqb_eq, Hall. by apply list_elem_of_In.
Qed.


Lemma runs_finalOrdered : runs example.comma ["a.csv"; "b.csv"] finalOrdered.
Proof. apply schedule_runs with scheduleOrdered. reflexivity. Qed.

Lemma runs_finalMismatch : runs example.comma ["a.csv"; "wide.csv"] finalMismatch.
Proof. apply schedule_runs with scheduleMismatch. reflexivity. Qed.

Lemma nsteps_finalReversed :
  nsteps (step example.comma) 9 (processFiles ["a.csv"; "b.csv"]) finalReversed.
Proof. apply (schedule_nsteps _ _ scheduleReversed). reflexivity. Qed.

Lemma reads_a_b :
  Forall2 (fun filePath table =>
             Read (New [WithFilePath (TrimSpace filePath); WithDelimiter example.comma])
             = inr table) ["a.csv"; "b.csv"] [tableA; tableB].
Proof. repeat constructor. Qed.

Lemma reads_a_wide :
  Forall2 (fun filePath table =>
             Read (New [WithFilePath (TrimSpace filePath); WithDelimiter example.comma])
             = inr table) ["a.csv"; "wide.csv"] [tableA; tableWide].
Proof. repeat constructor. Qed.

(** *** The further theorems at work *)

Lemma Merge_reports_first_mismatch_witness :
  Forall (fun table => length (Headers table) = length (Headers tableA)) [tableB]
  /\ length (Headers tableWide) <> length (Headers tableA)
  /\ Merge (tableA :: [tableB] ++ tableWide :: [tableA])
     = inl (SchemaMismatch "wide.csv" "a.csv").
Proof.
  assert (Forall (fun table => length (Headers table) = length (Headers tableA)) [tableB])
    as Hbefore by (by repeat constructor).
  split; [exact Hbefore|]. split; [discriminate|].
  apply (Merge_reports_first_mismatch tableA [tableB] tableWide [tableA] Hbefore).
  discriminate.
Defined.

Lemma Merge_keeps_rectangular_witness :
  Merge [tableA; tableB] = inr (merged [tableA; tableB])
  /\ (rectangular (merged [tableA; tableB]) <-> Forall rectangular [tableA; tableB]).
Proof.
  split; [reflexivity|].
  apply (Merge_keeps_rectangular [tableA; tableB] (merged [tableA; tableB])). reflexivity.
Defined.

Lemma Merge_of_merges_witness :
  Merge [tableA; tableB] = inr (merged [tableA; tableB])
  /\ Merge [tableB; tableA] = inr (merged [tableB; tableA])
  /\ (forall merged',
        Merge ([tableA; tableB] ++ [tableB; tableA]) = inr merged'
        <-> Merge [merged [tableA; tableB]; merged [tableB; tableA]] = inr merged')
  /\ Merge [merged [tableA; tableB]] = inr (merged [tableA; tableB]).
Proof.
  split; [reflexivity|]. split; [reflexivity|].
  apply (Merge_of_merges [tableA; tableB] [tableB; tableA]); reflexivity.
Defined.

Lemma Read_replaces_Records_witness :
  Read tableA = inr tableAA
  /\ exists file header rest,
       os_Open (FilePath tableA) = inr file
       /\ csv_ReadAll (Delimiter tableA) file = inr (header :: rest)
       /\ FilePath tableAA = FilePath tableA /\ Delimiter tableAA = Delimiter tableA
       /\ GetHeaderNames tableAA = GetHeaderNames tableA ++ header
       /\ (rest <> [] -> Records tableAA = map (map VString) rest)
       /\ (rest = [] -> Records tableAA = Records tableA).
Proof.
  split; [reflexivity|]. apply (Read_replaces_Records tableA tableAA). reflexivity.
Defined.

Lemma Read_round_trip_witness :
  Headers (New [WithFilePath "ab.csv"; WithDelimiter example.comma]) = []
  /\ Records (New [WithFilePath "ab.csv"; WithDelimiter example.comma]) = []
  /\ exists c',
       Read (New [WithFilePath "ab.csv"; WithDelimiter example.comma]) = inr c'
       /\ exists file rows,
            os_Open "ab.csv" = inr file
            /\ mapM (mapM asString) (Records c') = Some rows
            /\ csv_ReadAll example.comma file = inr (GetHeaderNames c' :: rows).
Proof.
  split; [reflexivity|]. split; [reflexivity|]. eexists. split; [reflexivity|].
  apply (Read_round_trip (New [WithFilePath "ab.csv"; WithDelimiter example.comma]));
    reflexivity.
Defined.

Lemma inferColumnTypes_changes_types_only_witness :
  inferColumnTypes tableIntegers = Some tableIntegersInferred
  /\ FilePath tableIntegersInferred = FilePath tableIntegers
  /\ Delimiter tableIntegersInferred = Delimiter tableIntegers
  /\ Records tableIntegersInferred = Records tableIntegers
  /\ map Name (Headers tableIntegersInferred) = map Name (Headers tableIntegers).
Proof.
  split; [reflexivity|].
  apply (inferColumnTypes_changes_types_only tableIntegers tableIntegersInferred).
  reflexivity.
Defined.

Lemma inferColumnTypes_decision_witness :
  inferColumnTypes tableMixed = Some tableMixed
  /\ exists cs,
       cells 1 (sample tableMixed) = Some cs
       /\ IntegerType
          = if forallb countsAsFloat cs then FloatType
            else if forallb countsAsInt cs then IntegerType
            else IntegerType.
Proof.
  split; [reflexivity|].
  apply (inferColumnTypes_decision tableMixed tableMixed 1
           (column "Column2" IntegerType) (column "Column2" IntegerType));
    reflexivity.
Defined.

Lemma inferColumnTypes_idempotent_witness :
  inferColumnTypes tableIntegers = Some tableIntegersInferred
  /\ inferColumnTypes tableIntegersInferred = Some tableIntegersInferred.
Proof.
  split; [reflexivity|].
  apply (inferColumnTypes_idempotent tableIntegers). reflexivity.
Defined.

Lemma ConvertColumnTypes_cells_witness :
  ConvertColumnTypes tableMixed = Some tableMixedConverted
  /\ FilePath tableMixedConverted = FilePath tableMixed
  /\ Delimiter tableMixedConverted = Delimiter tableMixed
  /\ Some (Headers tableMixedConverted) = Headers <$> inferColumnTypes tableMixed
  /\ length (Records tableMixedConverted) = length (Records tableMixed)
  /\ forall i record, Records tableMixed !! i = Some record ->
       exists record',
         Records tableMixedConverted !! i = Some record'
         /\ length record' = length record
         /\ forall j v, record !! j = Some v ->
              record' !! j
              = Some (match Headers tableMixedConverted !! j with
                      | Some column => converted (Type' column) v
                      | None => v
                      end).
Proof.
  split; [reflexivity|].
  apply (ConvertColumnTypes_cells tableMixed tableMixedConverted). reflexivity.
Defined.

Lemma ConvertColumnTypes_sample_typed_witness :
  ConvertColumnTypes tableIntegers = Some tableIntegersConverted
  /\ Type' (column "Column1" FloatType) <> Type' (column "Column1" StringType)
  /\ forall i record',
       i < defaultTypeInferanceRows -> Records tableIntegersConverted !! i = Some record' ->
       exists v, record' !! 0 = Some v /\ hasType FloatType v.
Proof.
  split; [reflexivity|]. split; [discriminate|].
  apply (ConvertColumnTypes_sample_typed tableIntegers tableIntegersConverted 0
           (column "Column1" StringType) (column "Column1" FloatType));
    [reflexivity..|discriminate].
Defined.

Lemma ConvertColumnTypes_never_Integer_witness :
  Forall (fun column => Type' column <> IntegerType) (Headers tableIntegers)
  /\ Forall (Forall (fun v => ~ hasType IntegerType v)) (Records tableIntegers)
  /\ ConvertColumnTypes tableIntegers = Some tableIntegersConverted
  /\ Forall (fun column => Type' column <> IntegerType) (Headers tableIntegersConverted)
  /\ Forall (Forall (fun v => ~ hasType IntegerType v)) (Records tableIntegersConverted).
Proof.
  assert (Forall (fun column => Type' column <> IntegerType) (Headers tableIntegers))
    as Hcolumns by (repeat constructor; discriminate).
  assert (Forall (Forall (fun v => ~ hasType IntegerType v)) (Records tableIntegers))
    as Hcells by (repeat constructor; intros []).
  split; [exact Hcolumns|]. split; [exact Hcells|]. split; [reflexivity|].
  apply (ConvertColumnTypes_never_Integer tableIntegers tableIntegersConverted
           Hcolumns Hcells).
  reflexivity.
Defined.


Lemma processFiles_terminates_witness :
  nsteps (step example.comma) 9 (processFiles ["a.csv"; "b.csv"]) finalReversed
  /\ 9 <= 3 * length ["a.csv"; "b.csv"] + 3
  /\ ((forall cfg', ~ step example.comma finalReversed cfg') -> hasReturned finalReversed).
Proof.
  split; [apply nsteps_finalReversed|].
  apply (processFiles_terminates example.comma ["a.csv"; "b.csv"] 9 finalReversed
           nsteps_finalReversed).
Defined.

Lemma processFiles_invalid_path_blocks_witness :
  Exists (fun filePath => HasSuffix (TrimSpace filePath) ".csv" = false) ["a.csv"; "b.txt"]
  /\ runs example.comma ["a.csv"; "b.txt"] finalInvalid
  /\ closed finalInvalid = false
  /\ Forall (fun w => isDone w = false) (workers finalInvalid)
  /\ (hasReturned finalInvalid ->
      exists before filePath rest,
        ["a.csv"; "b.txt"] = before ++ filePath :: rest
        /\ forallb validPath before = true
        /\ validPath filePath = false
        /\ map pathOf (workers finalInvalid) = map TrimSpace before).
Proof.
  assert (Exists (fun filePath => HasSuffix (TrimSpace filePath) ".csv" = false)
            ["a.csv"; "b.txt"]) as Hinvalid.
  { apply Exists_cons_tl, Exists_cons_hd. reflexivity. }
  split; [exact Hinvalid|]. split; [apply runs_finalInvalid|].
  apply (processFiles_invalid_path_blocks example.comma ["a.csv"; "b.txt"] finalInvalid
           Hinvalid runs_finalInvalid).
Defined.

Lemma processFiles_reads_each_once_witness :
  forallb validPath ["a.csv"; "b.csv"] = true
  /\ runs example.comma ["a.csv"; "b.csv"] finalReversed
  /\ closed finalReversed = true
  /\ workers finalReversed
     = map (fun filePath => Done (TrimSpace filePath)) ["a.csv"; "b.csv"]
  /\ started (trace finalReversed) = map TrimSpace ["a.csv"; "b.csv"]
  /\ readCalls (trace finalReversed) ≡ₚ map TrimSpace ["a.csv"; "b.csv"]
  /\ received (trace finalReversed) ≡ₚ outcomes example.comma ["a.csv"; "b.csv"].
Proof.
  split; [reflexivity|]. split; [apply runs_finalReversed|].
  apply (processFiles_reads_each_once example.comma ["a.csv"; "b.csv"] finalReversed
           (inr (merged [tableB; tableA])));
    [reflexivity | apply runs_finalReversed | reflexivity].
Defined.

Lemma processFiles_schedule_independent_witness :
  runs example.comma ["a.csv"; "b.csv"] finalOrdered
  /\ runs example.comma ["a.csv"; "b.csv"] finalReversed
  /\ sameOutcome (inr (merged [tableA; tableB])) (inr (merged [tableB; tableA])).
Proof.
  split; [apply runs_finalOrdered|]. split; [apply runs_finalReversed|].
  apply (processFiles_schedule_independent example.comma ["a.csv"; "b.csv"]
           finalOrdered finalReversed);
    [apply runs_finalOrdered | apply runs_finalReversed | reflexivity..].
Defined.

Lemma processFiles_success_witness :
  ["a.csv"; "b.csv"] <> []
  /\ forallb validPath ["a.csv"; "b.csv"] = true
  /\ (forall table1 table2, table1 ∈ [tableA; tableB] -> table2 ∈ [tableA; tableB] ->
        length (Headers table1) = length (Headers table2))
  /\ runs example.comma ["a.csv"; "b.csv"] finalReversed
  /\ exists files first merged',
       files = filesOf (received (trace finalReversed))
       /\ files ≡ₚ [tableA; tableB]
       /\ head files = Some first
       /\ (inr (merged [tableB; tableA]) : error + CSV) = inr merged'
       /\ FilePath merged' = "" /\ Delimiter merged' = example.comma
       /\ Headers merged' = Headers first
       /\ Records merged' = concat (map Records files).
Proof.
  assert (forall table1 table2, table1 ∈ [tableA; tableB] -> table2 ∈ [tableA; tableB] ->
            length (Headers table1) = length (Headers table2)) as Hcounts.
  { intros table1 table2 Hin1 Hin2.
    repeat (apply elem_of_cons in Hin1 as [->|Hin1]);
      repeat (apply elem_of_cons in Hin2 as [->|Hin2]);
      try reflexivity; by apply elem_of_nil in Hin1 || by apply elem_of_nil in Hin2. }
  split; [discriminate|]. split; [reflexivity|]. split; [exact Hcounts|].
  split; [apply runs_finalReversed|].
  apply (processFiles_success example.comma ["a.csv"; "b.csv"] [tableA; tableB]
           finalReversed);
    [discriminate | reflexivity | apply reads_a_b | exact Hcounts
    | apply runs_finalReversed | reflexivity].
Defined.

Lemma processFiles_schema_mismatch_witness :
  forallb validPath ["a.csv"; "wide.csv"] = true
  /\ (exists table1 table2, table1 ∈ [tableA; tableWide] /\ table2 ∈ [tableA; tableWide]
        /\ length (Headers table1) <> length (Headers table2))
  /\ runs example.comma ["a.csv"; "wide.csv"] finalMismatch
  /\ exists file first,
       (inl (SchemaMismatch "wide.csv" "a.csv") : error + CSV)
       = inl (SchemaMismatch (FilePath file) (FilePath first))
       /\ head (filesOf (received (trace finalMismatch))) = Some first
       /\ file ∈ [tableA; tableWide] /\ first ∈ [tableA; tableWide]
       /\ length (Headers file) <> length (Headers first).
Proof.
  assert (exists table1 table2, table1 ∈ [tableA; tableWide] /\ table2 ∈ [tableA; tableWide]
            /\ length (Headers table1) <> length (Headers table2)) as Hdiffer.
  { exists tableA, tableWide. split; [by left|]. split; [by right; left | discriminate]. }
  split; [reflexivity|]. split; [exact Hdiffer|]. split; [apply runs_finalMismatch|].
  apply (processFiles_schema_mismatch example.comma ["a.csv"; "wide.csv"]
           [tableA; tableWide] finalMismatch);
    [reflexivity | apply reads_a_wide | exact Hdiffer | apply runs_finalMismatch
    | reflexivity].
Defined.

Lemma folder_Join_keeps_csv (dir name : string) :
  HasSuffix name ".csv" = true -> HasSuffix (folder.Join dir name) ".csv" = true.
Proof.
  rewrite !HasSuffix_suffix. unfold folder.Join. rewrite !chars_app. intros Hname.
  by do 2 apply suffix_app_r.
Qed.

Lemma processFiles_then_ConvertColumnTypes_witness :
  runs example.comma ["a.csv"; "b.csv"] finalReversed
  /\ rectangular (merged [tableB; tableA])
  /\ exists converted,
       ConvertColumnTypes (merged [tableB; tableA]) = Some converted
       /\ rectangular converted.
Proof.
  split; [apply runs_finalReversed|].
  apply (processFiles_then_ConvertColumnTypes example.comma csv_ReadAll_uniform
           ["a.csv"; "b.csv"] finalReversed (merged [tableB; tableA]));
    [apply runs_finalReversed | reflexivity].
Defined.

Lemma createFileList_paths_valid_witness :
  @createFileList exampleFolders "data" = inr ["data/a.csv"; "data/b.csv"]
  /\ forallb validPath ["data/a.csv"; "data/b.csv"] = true
  /\ forall delimiter cfg r,
       runs delimiter ["data/a.csv"; "data/b.csv"] cfg -> main cfg = Returned r ->
       r <> inl InvalidInputFormat.
Proof.
  split; [reflexivity|].
  apply (@createFileList_paths_valid goStrconv exampleSources goStrings exampleFolders
           folder_Join_keeps_csv strings_TrimSpace_keeps_csv "data").
  reflexivity.
Defined.

Lemma outputPath_default_witness :
  HasSuffix "my.csv.old.csv" ".csv" = true
  /\ exists before after,
       "my.csv.old.csv" = (before ++ ".csv" ++ after)%string
       /\ index 0 ".csv" "my.csv.old.csv" = Some (String.length before)
       /\ @outputPath exampleFolders "my.csv.old.csv" "" ""
          = (before ++ ".xlsx" ++ after)%string
       /\ (HasSuffix (@outputPath exampleFolders "my.csv.old.csv" "" "") ".xlsx" = true
           <-> after = "").
Proof.
  split; [reflexivity|].
  apply (@outputPath_default exampleFolders "my.csv.old.csv"). reflexivity.
Defined.

End Examples.
